(** * pynav: manifold states, composite states and process/measurement models

    A shallow embedding of [pynav/lib/states.py] and [pynav/lib/models.py].

    - Python exceptions are values of [exn]; fallible code lives in the
      error monad [result].
    - numpy arrays of rank 0, 1 and 2 are the type [ndarray]; the numpy
      operations the library calls are written out with their shape checks
      and broadcasting rules.
    - The Lie-group backend (pylie) is external: a group is a record of
      operations [MatrixLieGroup], and its algebraic laws are stated
      separately ([LieGroupLaws]) and assumed only where a property needs
      them.
    - Methods that mutate their argument in place and hand the same object
      back are modelled over a store of objects addressed by references.
      A composite holds its sub-states by value: no sub-state object is
      assumed to be shared with another holder.
    - A Python [int] used as a size or an index is a [nat]. *)

From Stdlib Require Import ZArith Floats.
From stdpp Require Import base list strings functions.

Set Warnings "-register-all".

(** ** Exceptions and the error monad *)

Inductive exn :=
  | TypeError
  | ValueError
  | IndexError
  | AttributeError
  | NotImplementedError
  | UnboundLocalError
  | OverflowError.

Inductive result (A : Type) : Type :=
  | Ok (a : A)
  | Err (e : exn).
Arguments Ok {A} a.
Arguments Err {A} e.

#[global] Instance result_ret : MRet result := λ A a, Ok a.
#[global] Instance result_bind : MBind result :=
  λ A B f m, match m with Ok a => f a | Err e => Err e end.
#[global] Instance result_fmap : FMap result :=
  λ A B f m, match m with Ok a => Ok (f a) | Err e => Err e end.

Definition is_Err {A} (r : result A) : Prop := ∃ e, r = Err e.

(** [l[i]] on a Python list. *)
Definition list_getitem {A} (l : list A) (i : nat) : result A :=
  match l !! i with Some x => Ok x | None => Err IndexError end.

(** ** Scalars

    The library computes on binary64 floats.  The embedding is generic in
    the scalar type: [float64] is the arithmetic the code runs on,
    [Z_scalar] an exact one. *)

Class Scalar := {
  num : Type;
  zero : num;
  one : num;
  add : num → num → num;
  sub : num → num → num;
  mul : num → num → num;
  div : num → num → num;
  opp : num → num;
  sqrt : num → num;
}.

Definition float64 : Scalar := {|
  num := PrimFloat.float;
  zero := 0%float;
  one := 1%float;
  add := PrimFloat.add;
  sub := PrimFloat.sub;
  mul := PrimFloat.mul;
  div := PrimFloat.div;
  opp := PrimFloat.opp;
  sqrt := PrimFloat.sqrt;
|}.

Definition Z_scalar : Scalar := {|
  num := Z;
  zero := 0%Z;
  one := 1%Z;
  add := Z.add;
  sub := Z.sub;
  mul := Z.mul;
  div := Z.div;
  opp := Z.opp;
  sqrt := Z.sqrt;
|}.

(** The laws of exact arithmetic that the retraction properties of a
    vector state rest on (binary64 satisfies them only up to rounding). *)
Record ScalarLaws (Sc : Scalar) : Prop := {
  add_comm : ∀ x y : num, add x y = add y x;
  add_assoc : ∀ x y z : num, add x (add y z) = add (add x y) z;
  add_zero_l : ∀ x : num, add zero x = x;
  add_opp_r : ∀ x : num, add x (opp x) = zero;
  sub_def : ∀ x y : num, sub x y = add x (opp y);
}.

(** [x ** 2] for a Python number [x].  It is not the product [x * x]: on
    floats Python hands the operands to the platform's [pow], which rounds on
    its own, and raises [OverflowError] when [pow] reports a range error. *)
Class Power (Sc : Scalar) := pow2 : num → result num.

(** On Python integers the power is the exact square. *)
Definition Z_power : Power Z_scalar := λ x, Ok (x * x)%Z.

(** [float_pow] of CPython at the exponent 2.  A [nan] is returned as it
    is, an infinity gives [inf], a zero gives [0.0] and [±1.0] gives [1.0]
    without a call to the platform.  Otherwise [libm_pow2 a] stands for the
    platform's [pow(a, 2.0)] on [a = |x|], with the flag telling whether it
    set [errno] to [ERANGE]: an infinite result counts as a range error when
    [errno] is clear, a zero result clears the flag, and a range error is
    raised as [OverflowError]. *)
Definition float64_power (libm_pow2 : float → float * bool) : Power float64 :=
  λ x,
    if PrimFloat.is_nan x then Ok x
    else if PrimFloat.is_infinity x then Ok PrimFloat.infinity
    else if PrimFloat.is_zero x then Ok 0%float
    else
      let a := PrimFloat.abs x in
      if PrimFloat.eqb a 1%float then Ok 1%float
      else
        let '(r, erange) := libm_pow2 a in
        let erange :=
          if erange then negb (PrimFloat.is_zero r)
          else PrimFloat.is_infinity r in
        if erange then Err OverflowError else Ok r.

(** The law of an exact power. *)
Definition PowerLaws (Sc : Scalar) (P : Power Sc) : Prop :=
  ∀ x : num, pow2 x = Ok (mul x x).

(** ** numpy arrays of rank at most two *)

Section numpy.
Context `{Scalar}.

Inductive ndarray :=
  | Arr0 (x : num)                               (* shape ()        *)
  | Arr1 (v : list num)                          (* shape (n,)      *)
  | Arr2 (ncols : nat) (rows : list (list num)). (* shape (m, ncols) *)

(** Every row of a rank-2 array has [ncols] entries. *)
Definition wf_array (a : ndarray) : Prop :=
  match a with
  | Arr2 c rows => Forall (λ r, length r = c) rows
  | _ => True
  end.

Definition np_shape (a : ndarray) : list nat :=
  match a with
  | Arr0 _ => []
  | Arr1 v => [length v]
  | Arr2 c rows => [length rows; c]
  end.

(** [a.shape[i]] *)
Definition shape_getitem (a : ndarray) (i : nat) : result nat :=
  list_getitem (np_shape a) i.

(** [a.size] *)
Definition np_size (a : ndarray) : nat :=
  match a with
  | Arr0 _ => 1
  | Arr1 v => length v
  | Arr2 c rows => length rows * c
  end.

(** [a.flatten()] / [a.ravel()]: the entries in row-major order. *)
Definition flat (a : ndarray) : list num :=
  match a with
  | Arr0 x => [x]
  | Arr1 v => v
  | Arr2 _ rows => concat rows
  end.

Definition np_flatten (a : ndarray) : ndarray := Arr1 (flat a).

(** Entry [(i, j)] of a rank-2 array. *)
Definition entry (a : ndarray) (i j : nat) : option num :=
  match a with
  | Arr2 _ rows => r ← rows !! i; r !! j
  | _ => None
  end.

(** [np.zeros((m, n))] and [np.identity(n)] *)
Definition np_zeros (m n : nat) : ndarray :=
  Arr2 n (replicate m (replicate n zero)).

Definition np_identity (n : nat) : ndarray :=
  Arr2 n ((λ i, (λ j, if decide (i = j) then one else zero) <$> seq 0 n)
          <$> seq 0 n).

(** *** Broadcasting *)

(** Two axis lengths broadcast together when they agree or one is 1. *)
Definition bc_len (m n : nat) : result nat :=
  if decide (m = n) then Ok m
  else if decide (m = 1) then Ok n
  else if decide (n = 1) then Ok m
  else Err ValueError.

(** An axis of length 1 is repeated to length [n]. *)
Definition stretch {A} (l : list A) (n : nat) : list A :=
  match l with
  | [x] => replicate n x
  | _ => l
  end.

Definition bc_zip (f : num → num → num) (u v : list num) : result (list num) :=
  n ← bc_len (length u) (length v);
  Ok (zip_with f (stretch u n) (stretch v n)).

Definition bc_zip2 (f : num → num → num)
    (c1 : nat) (r1 : list (list num)) (c2 : nat) (r2 : list (list num))
  : result ndarray :=
  m ← bc_len (length r1) (length r2);
  c ← bc_len c1 c2;
  Ok (Arr2 c (zip_with (λ a b, zip_with f (stretch a c) (stretch b c))
                (stretch r1 m) (stretch r2 m))).

(** An elementwise binary operator [a ∘ b] on arrays. *)
Definition np_binop (f : num → num → num) (a b : ndarray) : result ndarray :=
  match a, b with
  | Arr0 x, Arr0 y => Ok (Arr0 (f x y))
  | Arr0 x, Arr1 v => Ok (Arr1 (f x <$> v))
  | Arr1 u, Arr0 y => Ok (Arr1 ((λ a, f a y) <$> u))
  | Arr0 x, Arr2 c rows => Ok (Arr2 c ((λ r : list num, f x <$> r) <$> rows))
  | Arr2 c rows, Arr0 y => Ok (Arr2 c ((λ r : list num, (λ a, f a y) <$> r) <$> rows))
  | Arr1 u, Arr1 v => Arr1 <$> bc_zip f u v
  | Arr1 u, Arr2 c rows => bc_zip2 f (length u) [u] c rows
  | Arr2 c rows, Arr1 v => bc_zip2 f c rows (length v) [v]
  | Arr2 c1 r1, Arr2 c2 r2 => bc_zip2 f c1 r1 c2 r2
  end.

Definition np_add : ndarray → ndarray → result ndarray := np_binop add.
Definition np_sub : ndarray → ndarray → result ndarray := np_binop sub.

Definition np_map (f : num → num) (a : ndarray) : ndarray :=
  match a with
  | Arr0 x => Arr0 (f x)
  | Arr1 v => Arr1 (f <$> v)
  | Arr2 c rows => Arr2 c ((λ r : list num, f <$> r) <$> rows)
  end.

(** [k * a] and [a * k] for a Python float [k]; [-a]; [a / k]. *)
Definition np_lmul (k : num) (a : ndarray) : ndarray := np_map (mul k) a.
Definition np_rmul (a : ndarray) (k : num) : ndarray :=
  np_map (λ x, mul x k) a.
Definition np_neg (a : ndarray) : ndarray := np_map opp a.
Definition np_div_scalar (a : ndarray) (k : num) : ndarray :=
  np_map (λ x, div x k) a.

(** The value assigned to a rank-2 target of shape [(m, n)] is broadcast
    to that shape: each of its axes has the target's length or length 1. *)
Definition bc_to {A} (l : list A) (n : nat) : result (list A) :=
  if decide (length l = n) then Ok l
  else match l with
       | [x] => Ok (replicate n x)
       | _ => Err ValueError
       end.

Definition broadcast_to (a : ndarray) (m n : nat) : result (list (list num)) :=
  match a with
  | Arr0 x => Ok (replicate m (replicate n x))
  | Arr1 v => r ← bc_to v n; Ok (replicate m r)
  | Arr2 c rows =>
      if decide (c = n ∨ c = 1)
      then rows' ← mapM (λ r, bc_to r n) rows; bc_to rows' m
      else Err ValueError
  end.

(** *** Slices *)

(** [slice(start, stop)] with non-negative bounds. *)
Record slice := Slice { start : nat; stop : nat }.

(** The items of [l[start:stop]]; bounds beyond the end are clipped. *)
Definition list_getslice {A} (l : list A) (s : slice) : list A :=
  take (stop s - start s) (drop (start s) l).

(** [a[s]]: basic slicing along the first axis. *)
Definition getitem_slice (a : ndarray) (s : slice) : result ndarray :=
  match a with
  | Arr0 _ => Err IndexError
  | Arr1 v => Ok (Arr1 (list_getslice v s))
  | Arr2 c rows => Ok (Arr2 c (list_getslice rows s))
  end.

(** [a[i]]: integer indexing along the first axis. *)
Definition getitem_int (a : ndarray) (i : nat) : result ndarray :=
  match a with
  | Arr0 _ => Err IndexError
  | Arr1 v => Arr0 <$> list_getitem v i
  | Arr2 _ rows => Arr1 <$> list_getitem rows i
  end.

(** [jac[:, s] = block] on a rank-2 [jac]. *)
Definition setitem_cols (jac : ndarray) (s : slice) (block : ndarray)
  : result ndarray :=
  match jac with
  | Arr2 c rows =>
      let a := start s `min` c in
      let w := (stop s `min` c) - a in
      blk ← broadcast_to block (length rows) w;
      Ok (Arr2 c (zip_with (λ r br, take a r ++ br ++ drop (a + w) r) rows blk))
  | _ => Err IndexError
  end.

(** *** Stacking, reshaping, products *)

Definition atleast_2d (a : ndarray) : nat * list (list num) :=
  match a with
  | Arr0 x => (1, [[x]])
  | Arr1 v => (length v, [v])
  | Arr2 c rows => (c, rows)
  end.

(** [np.vstack(arrs)]: every array is promoted to rank 2 (a rank-1 array
    becomes one row) and the rows are concatenated; the column counts must
    agree, and the sequence must not be empty. *)
Definition np_vstack (arrs : list ndarray) : result ndarray :=
  match atleast_2d <$> arrs with
  | [] => Err ValueError
  | (c, rows) :: rest =>
      if decide (Forall (λ p, p.1 = c) rest)
      then Ok (Arr2 c (rows ++ concat (snd <$> rest)))
      else Err ValueError
  end.

(** [a.reshape((m, n))] *)
Fixpoint chunks (m n : nat) (l : list num) : list (list num) :=
  match m with
  | 0 => []
  | S m' => take n l :: chunks m' n (drop n l)
  end.

Definition np_reshape (a : ndarray) (m n : nat) : result ndarray :=
  if decide (m * n = np_size a)
  then Ok (Arr2 n (chunks m n (flat a)))
  else Err ValueError.

(** [a.reshape((-1, 1))] *)
Definition np_column (a : ndarray) : ndarray := Arr2 1 ((λ x, [x]) <$> flat a).

Definition columns (c : nat) (rows : list (list num)) : list (list num) :=
  (λ j, (λ r : list num, default zero (r !! j)) <$> rows) <$> seq 0 c.

(** [a.T] *)
Definition np_transpose (a : ndarray) : ndarray :=
  match a with
  | Arr2 c rows => Arr2 (length rows) (columns c rows)
  | _ => a
  end.

Definition dot (u v : list num) : num :=
  foldr add zero (zip_with mul u v).

(** [a @ b] *)
Definition np_matmul (a b : ndarray) : result ndarray :=
  match a, b with
  | Arr2 n ra, Arr2 p rb =>
      if decide (n = length rb)
      then Ok (Arr2 p ((λ r : list num, dot r <$> columns p rb) <$> ra))
      else Err ValueError
  | Arr2 n ra, Arr1 v =>
      if decide (n = length v) then Ok (Arr1 ((λ r : list num, dot r v) <$> ra))
      else Err ValueError
  | Arr1 u, Arr2 p rb =>
      if decide (length u = length rb) then Ok (Arr1 (dot u <$> columns p rb))
      else Err ValueError
  | Arr1 u, Arr1 v =>
      if decide (length u = length v) then Ok (Arr0 (dot u v))
      else Err ValueError
  | _, _ => Err ValueError
  end.

(** [np.linalg.norm(a)]: the 2-norm of the flattened array. *)
Definition np_norm (a : ndarray) : num :=
  sqrt (foldr add zero ((λ x, mul x x) <$> flat a)).

(** [a[rs, j]] and [a[rs, cs]] on a rank-2 array. *)
Definition getitem_rows_col (a : ndarray) (rs : slice) (j : nat)
  : result ndarray :=
  match a with
  | Arr2 c rows =>
      if decide (j < c)
      then Ok (Arr1 ((λ r : list num, default zero (r !! j))
                       <$> list_getslice rows rs))
      else Err IndexError
  | _ => Err IndexError
  end.

Definition getitem_rows_cols (a : ndarray) (rs cs : slice) : result ndarray :=
  match a with
  | Arr2 c rows =>
      Ok (Arr2 ((stop cs `min` c) - (start cs `min` c))
            ((λ r : list num, list_getslice r cs) <$> list_getslice rows rs))
  | _ => Err IndexError
  end.

Definition rank (a : ndarray) : nat := length (np_shape a).

(** [np.block(blocks)] on a flat list: the blocks are joined along the last
    axis, after promotion to their common rank. *)
Definition np_block (blocks : list ndarray) : result ndarray :=
  match atleast_2d <$> blocks with
  | [] => Err ValueError
  | (c0, r0) :: rest =>
      if decide (Forall (λ b, rank b ≤ 1) blocks)
      then Ok (Arr1 (concat (flat <$> blocks)))
      else if decide (Forall (λ p, length p.2 = length r0) rest)
      then Ok (Arr2 (c0 + sum_list (fst <$> rest))
                 (foldl (zip_with app) r0 (snd <$> rest)))
      else Err ValueError
  end.

End numpy.

Infix "@" := np_matmul (at level 40, left associativity).

(** ** Python objects that the code subscripts

    [o[i]] is defined for arrays.  An [int], a [float], [None] and the view
    returned by [dict.values()] do not support it. *)

Section objects.
Context `{Scalar}.

Inductive pyobj :=
  | PyNone
  | PyInt (n : Z)
  | PyFloat (x : num)
  | PyArray (a : ndarray)
  | PyDictValues (l : list ndarray).

Definition py_getitem (o : pyobj) (i : nat) : result pyobj :=
  match o with
  | PyArray a => PyArray <$> getitem_int a i
  | PyNone | PyInt _ | PyFloat _ | PyDictValues _ => Err TypeError
  end.

(** Reading an array attribute such as [.shape] off an object. *)
Definition as_array (o : pyobj) : result ndarray :=
  match o with
  | PyArray a => Ok a
  | _ => Err AttributeError
  end.

(** A [dict] keeps its items in insertion order. *)
Definition dict (K V : Type) : Type := list (K * V).
Definition dict_values {K} (d : dict K ndarray) : pyobj :=
  PyDictValues (snd <$> d).
Definition dict_items {K V} (d : dict K V) : list (K * V) := d.

End objects.

(** ** The Lie-group backend

    [pylie] is not part of the library.  A group is the record of the
    operations the library calls on it; group elements and tangent vectors
    are arrays. *)

Record MatrixLieGroup `{Scalar} := {
  group_dof : nat;
  Exp : ndarray → ndarray;
  Log : ndarray → ndarray;
  inverse : ndarray → ndarray;
  adjoint : ndarray → ndarray;
  left_jacobian : ndarray → ndarray;
  odot : ndarray → ndarray;
}.

(** The groups [pylie] exports. *)
Class Pylie `{Scalar} := {
  SO2 : MatrixLieGroup;
  SO3 : MatrixLieGroup;
  SE2 : MatrixLieGroup;
  SE3 : MatrixLieGroup;
  SE23 : MatrixLieGroup;
}.

(** Every entry of the array is [zero]. *)
Definition all_zero `{Scalar} (a : ndarray) : Prop :=
  Forall (λ x, x = zero) (flat a).

(** What it means for a backend to implement a group: [G] holds of the
    arrays that are elements of the group, [e] is its identity. *)
Record LieGroupLaws `{Scalar} (grp : MatrixLieGroup)
    (G : ndarray → Prop) (e : ndarray) : Prop := {
  mul_closed : ∀ g h, G g → G h → ∃ k, g @ h = Ok k ∧ G k;
  mul_assoc : ∀ g h k gh hk, G g → G h → G k →
    g @ h = Ok gh → h @ k = Ok hk → gh @ k = g @ hk;
  e_elem : G e;
  mul_e_l : ∀ g, G g → e @ g = Ok g;
  mul_e_r : ∀ g, G g → g @ e = Ok g;
  inverse_elem : ∀ g, G g → G (inverse grp g);
  mul_inverse_l : ∀ g, G g → inverse grp g @ g = Ok e;
  mul_inverse_r : ∀ g, G g → g @ inverse grp g = Ok e;
  Exp_elem : ∀ v, G (Exp grp v);
  Exp_Log : ∀ g, G g → Exp grp (Log grp g) = g;
  Log_e : all_zero (Log grp e);
}.

(** ** States ([pynav/lib/states.py]) *)

Section states.
Context `{Scalar} `{!Pylie}.

(** A [state_id] is any Python value compared with [==]; [None] when not
    given. *)
Inductive pyid :=
  | IdNone
  | IdInt (n : Z)
  | IdStr (s : string).

#[global] Instance pyid_eq_dec : EqDecision pyid.
Proof. solve_decision. Defined.

(** The classes deriving from [MatrixLieGroupState]. *)
Inductive lie_class :=
  | MatrixLieGroupState_
  | SO2State
  | SO3State
  | SE2State
  | SE3State
  | SE23State.

(** Modelled from the spec: the base class [pynav.types.State], whose
    constructor stores [value], [dof], [stamp] and [state_id].  One
    constructor per concrete class; a [CompositeState] has no stored [dof]
    and carries its slice table. *)
Inductive State :=
  | VectorState (value : ndarray) (dof : nat)
      (stamp : option num) (state_id : pyid)
  | MatrixLieGroupState (cls : lie_class) (value : ndarray)
      (group : MatrixLieGroup) (dof : nat)
      (stamp : option num) (state_id : pyid) (direction : string)
  | CompositeState (value : list State)
      (stamp : option num) (state_id : pyid) (_slices : list slice).

(** *** Attributes *)

(** [x.dof]: stored, or for a composite the property
    [sum([x.dof for x in self.value])]. *)
Fixpoint State_dof (x : State) : nat :=
  match x with
  | VectorState _ dof _ _ => dof
  | MatrixLieGroupState _ _ _ dof _ _ _ => dof
  | CompositeState value _ _ _ => sum_list (State_dof <$> value)
  end.

Definition State_stamp (x : State) : option num :=
  match x with
  | VectorState _ _ stamp _ => stamp
  | MatrixLieGroupState _ _ _ _ stamp _ _ => stamp
  | CompositeState _ stamp _ _ => stamp
  end.

Definition State_state_id (x : State) : pyid :=
  match x with
  | VectorState _ _ _ state_id => state_id
  | MatrixLieGroupState _ _ _ _ _ state_id _ => state_id
  | CompositeState _ _ state_id _ => state_id
  end.

(** [x.stamp = stamp] *)
Definition State_set_stamp (x : State) (stamp : option num) : State :=
  match x with
  | VectorState value dof _ state_id => VectorState value dof stamp state_id
  | MatrixLieGroupState cls value group dof _ state_id direction =>
      MatrixLieGroupState cls value group dof stamp state_id direction
  | CompositeState value _ state_id slices =>
      CompositeState value stamp state_id slices
  end.

(** [x.value] where an array is expected: a composite's value is a list of
    states, which numpy cannot compute with. *)
Definition State_value (x : State) : result ndarray :=
  match x with
  | VectorState value _ _ _ => Ok value
  | MatrixLieGroupState _ value _ _ _ _ _ => Ok value
  | CompositeState _ _ _ _ => Err TypeError
  end.

(** [x.value = v] on a state whose value is an array. *)
Definition State_set_value (x : State) (v : ndarray) : State :=
  match x with
  | VectorState _ dof stamp state_id => VectorState v dof stamp state_id
  | MatrixLieGroupState cls _ group dof stamp state_id direction =>
      MatrixLieGroupState cls v group dof stamp state_id direction
  | CompositeState _ _ _ _ => x
  end.

(** [x.direction] and [x.group] exist on Lie-group states only. *)
Definition State_direction (x : State) : result string :=
  match x with
  | MatrixLieGroupState _ _ _ _ _ _ direction => Ok direction
  | _ => Err AttributeError
  end.

Definition State_group (x : State) : result MatrixLieGroup :=
  match x with
  | MatrixLieGroupState _ _ group _ _ _ _ => Ok group
  | _ => Err AttributeError
  end.

(** *** Constructors *)

Definition VectorState_init (value : ndarray)
    (stamp : option num) (state_id : pyid) : State :=
  let value := np_flatten value in
  VectorState value (np_size value) stamp state_id.

(** [MatrixLieGroupState(value, group, stamp, state_id, direction)] on the
    base class itself.  The class declares [__slots__ = ["direction"]] over
    the slotted [State] (the one [CompositeState.__getstate__] pickles), so
    an object of the base class has no [__dict__]: [self.direction] is
    stored, and [self.group = group] raises [AttributeError].  The
    subclasses declare no slots and can take the attribute. *)
Definition MatrixLieGroupState_init (value : ndarray) (group : MatrixLieGroup)
    (stamp : option num) (state_id : pyid) (direction : string)
  : result State :=
  Err AttributeError.

(** [SO2State(value, stamp, state_id, direction)] and its siblings pass
    their own group to the base constructor, which stores [group.dof]. *)
Definition LieState_init (cls : lie_class) (group : MatrixLieGroup)
    (value : ndarray) (stamp : option num) (state_id : pyid)
    (direction : string) : State :=
  MatrixLieGroupState cls value group (group_dof group)
    stamp state_id direction.

Definition SO2State_init := LieState_init SO2State SO2.
Definition SO3State_init := LieState_init SO3State SO3.
Definition SE2State_init := LieState_init SE2State SE2.
Definition SE3State_init := LieState_init SE3State SE3.
Definition SE23State_init := LieState_init SE23State SE23.

(** The loop of [CompositeState.__init__]: one slice per sub-state, a
    running [counter] of the degrees of freedom seen so far. *)
Definition init_slices_step (acc : list slice * nat) (state : State)
  : list slice * nat :=
  let '(slices, counter) := acc in
  (slices ++ [Slice counter (counter + State_dof state)],
   counter + State_dof state).

Definition init_slices (state_list : list State) : list slice :=
  (foldl init_slices_step ([], 0) state_list).1.

Definition CompositeState_init (state_list : list State)
    (stamp : option num) (state_id : pyid) : State :=
  CompositeState state_list stamp state_id (init_slices state_list).

(** *** Retractions of the concrete states *)

(** [VectorState.plus]: the new [self.value]. *)
Definition VectorState_plus (value dx : ndarray) : result ndarray :=
  np_add (np_flatten value) (np_flatten dx).

(** [VectorState.minus] *)
Definition VectorState_minus (value x_value : ndarray) : result ndarray :=
  np_sub value x_value.

(** [MatrixLieGroupState.plus]: the new [self.value]. *)
Definition MatrixLieGroupState_plus (value : ndarray) (group : MatrixLieGroup)
    (direction : string) (dx : ndarray) : result ndarray :=
  if decide (direction = "right") then value @ Exp group dx
  else if decide (direction = "left") then Exp group dx @ value
  else Err ValueError.

(** [MatrixLieGroupState.minus]: the direction is tested first, and
    [x.value] is read in the branch taken. *)
Definition MatrixLieGroupState_minus (value : ndarray) (group : MatrixLieGroup)
    (direction : string) (x : State) : result ndarray :=
  if decide (direction = "right")
  then x_value ← State_value x;
       Log group <$> (inverse group x_value @ value)
  else if decide (direction = "left")
  then x_value ← State_value x;
       Log group <$> (value @ inverse group x_value)
  else Err ValueError.

(** *** Method dispatch: [self.plus(dx)] and [self.minus(x)]

    A composite walks its slice table and hands [dx[s]] to the sub-state at
    the same position ([self.value[i]] fails once the list is exhausted);
    [minus] walks [x.value] and stacks the sub-states' differences. *)
Fixpoint plus (self : State) (dx : ndarray) : result State :=
  match self with
  | VectorState value dof stamp state_id =>
      value' ← VectorState_plus value dx;
      Ok (VectorState value' dof stamp state_id)
  | MatrixLieGroupState cls value group dof stamp state_id direction =>
      value' ← MatrixLieGroupState_plus value group direction dx;
      Ok (MatrixLieGroupState cls value' group dof stamp state_id direction)
  | CompositeState value stamp state_id slices =>
      value' ←
        (fix go (value : list State) (slices : list slice)
           : result (list State) :=
           match slices with
           | [] => Ok value
           | s :: slices' =>
               match value with
               | [] => Err IndexError
               | x :: value' =>
                   sub_dx ← getitem_slice dx s;
                   x' ← plus x sub_dx;
                   rest ← go value' slices';
                   Ok (x' :: rest)
               end
           end) value slices;
      Ok (CompositeState value' stamp state_id slices)
  end.

Fixpoint minus (self : State) (x : State) : result ndarray :=
  match self with
  | VectorState value _ _ _ =>
      x_value ← State_value x;
      VectorState_minus value x_value
  | MatrixLieGroupState _ value group _ _ _ direction =>
      MatrixLieGroupState_minus value group direction x
  | CompositeState value _ _ _ =>
      match x with
      | CompositeState x_value _ _ _ =>
          dx ←
            (fix go (value x_value : list State) {struct value}
               : result (list ndarray) :=
               match x_value with
               | [] => Ok []
               | xi :: x_value' =>
                   match value with
                   | [] => Err IndexError
                   | si :: value' =>
                       d ← minus si xi;
                       rest ← go value' x_value';
                       Ok (d :: rest)
                   end
               end) value x_value;
          np_vstack dx
      | _ => Err AttributeError
      end
  end.


(** *** CompositeState *)

(** [l.index(x)]: the position of the first item equal to [x]. *)
Fixpoint list_index {A} `{EqDecision A} (x : A) (l : list A) : result nat :=
  match l with
  | [] => Err ValueError
  | y :: l' => if decide (y = x) then Ok 0 else S <$> list_index x l'
  end.

(** [self.value] and [self._slices] of a composite; other states have
    neither the list nor the methods below. *)
Definition CompositeState_value (self : State) : result (list State) :=
  match self with
  | CompositeState value _ _ _ => Ok value
  | _ => Err AttributeError
  end.

Definition CompositeState_slices (self : State) : result (list slice) :=
  match self with
  | CompositeState _ _ _ slices => Ok slices
  | _ => Err AttributeError
  end.

Definition get_index_by_id (self : State) (state_id : pyid) : result nat :=
  value ← CompositeState_value self;
  list_index state_id (State_state_id <$> value).

Definition get_slice_by_id (self : State) (state_id : pyid) : result slice :=
  idx ← get_index_by_id self state_id;
  slices ← CompositeState_slices self;
  list_getitem slices idx.

Definition get_state_by_id (self : State) (state_id : pyid) : result State :=
  idx ← get_index_by_id self state_id;
  value ← CompositeState_value self;
  list_getitem value idx.

Definition stamp_obj (stamp : option num) : pyobj :=
  match stamp with
  | None => PyNone
  | Some t => PyFloat t
  end.

(** [return self.value[idx].dof[idx]] *)
Definition get_dof_by_id (self : State) (state_id : pyid) : result pyobj :=
  idx ← get_index_by_id self state_id;
  value ← CompositeState_value self;
  x ← list_getitem value idx;
  py_getitem (PyInt (Z.of_nat (State_dof x))) idx.

(** [return self.value[idx].stamp[idx]] *)
Definition get_stamp_by_id (self : State) (state_id : pyid) : result pyobj :=
  idx ← get_index_by_id self state_id;
  value ← CompositeState_value self;
  x ← list_getitem value idx;
  py_getitem (stamp_obj (State_stamp x)) idx.

Definition set_stamp_for_all (self : State) (stamp : option num)
  : result State :=
  match self with
  | CompositeState value stamp0 state_id slices =>
      Ok (CompositeState ((λ x, State_set_stamp x stamp) <$> value)
            stamp0 state_id slices)
  | _ => Err AttributeError
  end.

(** [CompositeState.plus(dx, new_stamp)] *)
Definition CompositeState_plus (self : State) (dx : ndarray)
    (new_stamp : option num) : result State :=
  _ ← CompositeState_value self;
  self' ← plus self dx;
  match new_stamp with
  | None => Ok self'
  | Some t => set_stamp_for_all self' (Some t)
  end.

(** [CompositeState.minus(x)] *)
Definition CompositeState_minus (self x : State) : result ndarray :=
  _ ← CompositeState_value self;
  minus self x.

(** A [for] loop whose body may raise: [acc] is the loop-carried state. *)
Fixpoint for_each {A B} (body : B → A → result B) (acc : B) (l : list A)
  : result B :=
  match l with
  | [] => Ok acc
  | x :: l' => acc' ← body acc x; for_each body acc' l'
  end.

(** [CompositeState.jacobian_from_blocks(block_dict)] *)
Definition CompositeState_jacobian_from_blocks (self : State)
    (block_dict : dict pyid ndarray) : result ndarray :=
  _ ← CompositeState_value self;
  block ← py_getitem (dict_values block_dict) 0;
  block ← as_array block;
  m ← shape_getitem block 0;
  let jac := np_zeros m (State_dof self) in
  for_each (λ jac '(state_id, block),
      slc ← get_slice_by_id self state_id;
      setitem_cols jac slc block)
    jac (dict_items block_dict).

End states.


(** ** Objects mutated in place

    [plus] and a process model's [evaluate] assign to [x.value] and, for
    [evaluate], return [x] itself.  A store maps references to the current
    contents of the state objects; a computation may raise, and what it
    assigned before raising stays assigned. *)

Section store.
Context `{Scalar} `{!Pylie}.

Definition ref := nat.
Definition store := ref → State.
Definition M (A : Type) : Type := store → result A * store.

#[global] Instance M_ret : MRet M := λ A a σ, (Ok a, σ).
#[global] Instance M_bind : MBind M :=
  λ A B f m σ,
    match m σ with
    | (Ok a, σ') => f a σ'
    | (Err e, σ') => (Err e, σ')
    end.

Definition load (x : ref) : M State := λ σ, (Ok (σ x), σ).
Definition save (x : ref) (s : State) : M unit := λ σ, (Ok (), <[x:=s]> σ).
Definition lift {A} (r : result A) : M A := λ σ, (r, σ).

(** [x.method(...)] for a method that only reads [x]. *)
Definition call {A} (method : State → result A) (x : ref) : M A :=
  s ← load x; lift (method s).

(** [x.method(...)] for a method that assigns to attributes of [x]. *)
Definition call_mut (method : State → result State) (x : ref) : M unit :=
  s ← load x; s' ← lift (method s); save x s'.

End store.

(** ** Geometric views and block assembly of the Lie-group states *)

Section lie_views.
Context `{Scalar} `{!Pylie}.

(** The property [x.position]. *)
Definition position (x : State) : result ndarray :=
  match x with
  | MatrixLieGroupState cls value _ _ _ _ _ =>
      match cls with
      | SE2State => getitem_rows_col value (Slice 0 2) 2
      | SE3State => getitem_rows_col value (Slice 0 3) 3
      | SE23State => getitem_rows_col value (Slice 0 3) 4
      | _ => Err NotImplementedError
      end
  | _ => Err AttributeError
  end.

(** The property [x.attitude]. *)
Definition attitude (x : State) : result ndarray :=
  match x with
  | MatrixLieGroupState cls value _ _ _ _ _ =>
      match cls with
      | SO2State | SO3State => Ok value
      | SE2State => getitem_rows_cols value (Slice 0 2) (Slice 0 2)
      | SE3State | SE23State =>
          getitem_rows_cols value (Slice 0 3) (Slice 0 3)
      | MatrixLieGroupState_ => Err NotImplementedError
      end
  | _ => Err AttributeError
  end.

(** Keyword arguments of [jacobian_from_blocks]; [None] stands for a
    keyword that is not passed. *)
Record blocks := {
  kw_attitude : option ndarray;
  kw_position : option ndarray;
  kw_velocity : option ndarray;
}.

(** [for jac in [...]: if jac is not None: dim = jac.shape[0]]; [dim] stays
    unbound when every block is [None]. *)
Definition blocks_dim (jacs : list (option ndarray)) : result (option nat) :=
  for_each (λ dim jac,
      match jac with
      | Some j => Some <$> shape_getitem j 0
      | None => Ok dim
      end) None jacs.

(** [if blk is None: blk = np.zeros((dim, n))] *)
Definition block_or_zeros (blk : option ndarray) (dim : option nat) (n : nat)
  : result ndarray :=
  match blk, dim with
  | Some b, _ => Ok b
  | None, Some d => Ok (np_zeros d n)
  | None, None => Err UnboundLocalError
  end.

(** [SE2State.jacobian_from_blocks] and [SE3State.jacobian_from_blocks],
    which differ in the widths of the two blocks only. *)
Definition SE_jacobian_from_blocks (n_att n_pos : nat)
    (attitude position : option ndarray) : result ndarray :=
  dim ← blocks_dim [attitude; position];
  attitude ← block_or_zeros attitude dim n_att;
  position ← block_or_zeros position dim n_pos;
  np_block [attitude; position].

Definition SE23State_jacobian_from_blocks
    (attitude position velocity : option ndarray) : result ndarray :=
  dim ← blocks_dim [attitude; position; velocity];
  attitude ← block_or_zeros attitude dim 3;
  position ← block_or_zeros position dim 3;
  velocity ← block_or_zeros velocity dim 3;
  np_block [attitude; velocity; position].

(** [x.jacobian_from_blocks(attitude=..., position=..., velocity=...)] on a
    Lie-group state, by class: the base class and [SO2State] do not
    implement it, [SO3State] takes [attitude] alone, the planar and spatial
    poses take no [velocity]. *)
Definition LieState_jacobian_from_blocks (x : State) (kw : blocks)
  : result ndarray :=
  match x with
  | MatrixLieGroupState cls _ _ _ _ _ _ =>
      match cls with
      | MatrixLieGroupState_ | SO2State => Err NotImplementedError
      | SO3State =>
          match kw_position kw, kw_velocity kw, kw_attitude kw with
          | None, None, Some a => Ok a
          | _, _, _ => Err TypeError
          end
      | SE2State =>
          match kw_velocity kw with
          | Some _ => Err TypeError
          | None => SE_jacobian_from_blocks 1 2 (kw_attitude kw) (kw_position kw)
          end
      | SE3State =>
          match kw_velocity kw with
          | Some _ => Err TypeError
          | None => SE_jacobian_from_blocks 3 3 (kw_attitude kw) (kw_position kw)
          end
      | SE23State =>
          SE23State_jacobian_from_blocks
            (kw_attitude kw) (kw_position kw) (kw_velocity kw)
      end
  | _ => Err AttributeError
  end.

End lie_views.

(** ** Models ([pynav/lib/models.py]) *)

Section models.
Context `{Scalar} `{!Pylie} `{!Power _}.

(** Modelled from the spec: [pynav.types.StampedValue], an input [value]
    with its time stamp. *)
Record StampedValue := {
  sv_value : ndarray;
  sv_stamp : option num;
}.

(** *** SingleIntegrator *)

Record SingleIntegrator := {
  SingleIntegrator_Q : ndarray;
  SingleIntegrator_dim : nat;
}.

Definition SingleIntegrator_init (Q : ndarray) : result SingleIntegrator :=
  r ← shape_getitem Q 0;
  c ← shape_getitem Q 1;
  if decide (r ≠ c) then Err ValueError
  else
    dim ← shape_getitem Q 0;
    Ok {| SingleIntegrator_Q := Q; SingleIntegrator_dim := dim |}.

(** [x.value = x.value + dt * u.value; return x] *)
Definition SingleIntegrator_evaluate (self : SingleIntegrator)
    (x : ref) (u : StampedValue) (dt : num) : M ref :=
  s ← load x;
  value ← lift (State_value s);
  value' ← lift (np_add value (np_lmul dt (sv_value u)));
  save x (State_set_value s value');;
  mret x.

Definition SingleIntegrator_jacobian (self : SingleIntegrator)
    (x : State) (u : StampedValue) (dt : num) : ndarray :=
  np_identity (SingleIntegrator_dim self).

(** [dt**2 * self._Q] *)
Definition SingleIntegrator_covariance (self : SingleIntegrator)
    (x : State) (u : StampedValue) (dt : num) : result ndarray :=
  dt2 ← pow2 dt;
  Ok (np_lmul dt2 (SingleIntegrator_Q self)).

(** *** BodyFrameVelocity *)

Record BodyFrameVelocity := { BodyFrameVelocity_Q : ndarray }.

(** [x.value = x.value @ x.group.Exp(u.value * dt); return x] *)
Definition BodyFrameVelocity_evaluate (self : BodyFrameVelocity)
    (x : ref) (u : StampedValue) (dt : num) : M ref :=
  s ← load x;
  group ← lift (State_group s);
  value ← lift (State_value s);
  value' ← lift (value @ Exp group (np_rmul (sv_value u) dt));
  save x (State_set_value s value');;
  mret x.

Definition BodyFrameVelocity_jacobian (self : BodyFrameVelocity)
    (x : State) (u : StampedValue) (dt : num) : result ndarray :=
  direction ← State_direction x;
  if decide (direction = "right") then
    group ← State_group x;
    Ok (adjoint group (Exp group (np_rmul (np_neg (sv_value u)) dt)))
  else Err NotImplementedError.

Definition BodyFrameVelocity_covariance (self : BodyFrameVelocity)
    (x : State) (u : StampedValue) (dt : num) : result ndarray :=
  direction ← State_direction x;
  if decide (direction = "right") then
    group ← State_group x;
    let L := np_lmul dt
               (left_jacobian group (np_rmul (np_neg (sv_value u)) dt)) in
    LQ ← L @ BodyFrameVelocity_Q self;
    LQ @ np_transpose L
  else Err NotImplementedError.

(** *** RelativeBodyFrameVelocity *)

Record RelativeBodyFrameVelocity := {
  RelativeBodyFrameVelocity_Q1 : ndarray;
  RelativeBodyFrameVelocity_Q2 : ndarray;
}.

(** Python's [round(n / 2)]: a half is rounded to the even neighbour. *)
Definition round_half (n : nat) : nat :=
  let k := n `div` 2 in
  if decide (n `mod` 2 = 0) then k
  else if decide (k `mod` 2 = 0) then k else S k.

(** [u.value.reshape((2, round(u.value.size / 2)))] *)
Definition two_twists (u : StampedValue) : result ndarray :=
  np_reshape (sv_value u) 2 (round_half (np_size (sv_value u))).

Definition RelativeBodyFrameVelocity_evaluate
    (self : RelativeBodyFrameVelocity)
    (x : ref) (u : StampedValue) (dt : num) : M ref :=
  u ← lift (two_twists u);
  s ← load x;
  group ← lift (State_group s);
  u0 ← lift (getitem_int u 0);
  value ← lift (State_value s);
  t ← lift (Exp group (np_rmul (np_neg u0) dt) @ value);
  u1 ← lift (getitem_int u 1);
  value' ← lift (t @ Exp group (np_rmul u1 dt));
  save x (State_set_value s value');;
  mret x.

Definition RelativeBodyFrameVelocity_jacobian
    (self : RelativeBodyFrameVelocity)
    (x : State) (u : StampedValue) (dt : num) : result ndarray :=
  u ← two_twists u;
  direction ← State_direction x;
  if decide (direction = "right") then
    group ← State_group x;
    u1 ← getitem_int u 1;
    Ok (adjoint group (Exp group (np_rmul (np_neg u1) dt)))
  else Err NotImplementedError.

Definition RelativeBodyFrameVelocity_covariance
    (self : RelativeBodyFrameVelocity)
    (x : State) (u : StampedValue) (dt : num) : result ndarray :=
  u ← two_twists u;
  u1 ← getitem_int u 0;
  u2 ← getitem_int u 1;
  direction ← State_direction x;
  if decide (direction = "right") then
    group ← State_group x;
    value ← State_value x;
    g ← value @ Exp group (np_rmul u2 dt);
    L1 ← np_lmul dt (adjoint group g) @ left_jacobian group (np_lmul dt u1);
    let L2 := np_lmul dt (left_jacobian group (np_lmul (opp dt) u2)) in
    a ← L1 @ RelativeBodyFrameVelocity_Q1 self;
    a ← a @ np_transpose L1;
    b ← L2 @ RelativeBodyFrameVelocity_Q2 self;
    b ← b @ np_transpose L2;
    np_add a b
  else Err NotImplementedError.

(** *** Measurement models *)

(** Modelled from the spec: the interface [pynav.types.MeasurementModel],
    whose methods take the state alone. *)
Record MeasurementModel := {
  evaluate : State → result ndarray;
  jacobian : State → result ndarray;
  covariance : State → result ndarray;
}.

Record CompositeMeasurementModel := {
  CompositeMeasurementModel_model : MeasurementModel;
  CompositeMeasurementModel_state_id : pyid;
}.

Definition CompositeMeasurementModel_evaluate
    (self : CompositeMeasurementModel) (x : State) : result ndarray :=
  x_sub ← get_state_by_id x (CompositeMeasurementModel_state_id self);
  evaluate (CompositeMeasurementModel_model self) x_sub.

Definition CompositeMeasurementModel_jacobian
    (self : CompositeMeasurementModel) (x : State) : result ndarray :=
  x_sub ← get_state_by_id x (CompositeMeasurementModel_state_id self);
  jac_sub ← jacobian (CompositeMeasurementModel_model self) x_sub;
  m ← shape_getitem jac_sub 0;
  let jac := np_zeros m (State_dof x) in
  slc ← get_slice_by_id x (CompositeMeasurementModel_state_id self);
  setitem_cols jac slc jac_sub.

Definition CompositeMeasurementModel_covariance
    (self : CompositeMeasurementModel) (x : State) : result ndarray :=
  x_sub ← get_state_by_id x (CompositeMeasurementModel_state_id self);
  covariance (CompositeMeasurementModel_model self) x_sub.

(** *** RangePoseToAnchor *)

Record RangePoseToAnchor := {
  RangePoseToAnchor_r_cw_a : ndarray;
  RangePoseToAnchor_R : num;
  RangePoseToAnchor_r_tz_b : ndarray;
}.

Definition RangePoseToAnchor_init (anchor_position tag_body_position : ndarray)
    (R : num) : RangePoseToAnchor :=
  {| RangePoseToAnchor_r_cw_a := np_flatten anchor_position;
     RangePoseToAnchor_R := R;
     RangePoseToAnchor_r_tz_b := np_flatten tag_body_position |}.

Definition RangePoseToAnchor_evaluate (self : RangePoseToAnchor) (x : State)
  : result ndarray :=
  r_zw_a ← position x;
  C_ab ← attitude x;
  t ← C_ab @ np_column (RangePoseToAnchor_r_tz_b self);
  r_tw_a ← np_add t (np_column r_zw_a);
  r_tc_a ← np_sub r_tw_a (np_column (RangePoseToAnchor_r_cw_a self));
  Ok (Arr0 (np_norm r_tc_a)).

(** [att_group] is bound only when the attitude block is 2×2 or 3×3. *)
Definition att_group_of (C_ab : ndarray) : option MatrixLieGroup :=
  if decide (np_shape C_ab = [2; 2]) then Some SO2
  else if decide (np_shape C_ab = [3; 3]) then Some SO3
  else None.

Definition RangePoseToAnchor_jacobian (self : RangePoseToAnchor) (x : State)
  : result ndarray :=
  direction ← State_direction x;
  if decide (direction = "right") then
    r_zw_a ← position x;
    C_ab ← attitude x;
    let att_group := att_group_of C_ab in
    t ← C_ab @ np_column (RangePoseToAnchor_r_tz_b self);
    r_tw_a ← np_add t (np_column r_zw_a);
    r_tc_a ← np_sub r_tw_a (np_column (RangePoseToAnchor_r_cw_a self));
    let rho := np_div_scalar r_tc_a (np_norm r_tc_a) in
    rC ← np_transpose rho @ C_ab;
    att_group ← from_option Ok (Err UnboundLocalError) att_group;
    jac_attitude ← rC @ odot att_group (RangePoseToAnchor_r_tz_b self);
    jac_position ← np_transpose rho @ C_ab;
    LieState_jacobian_from_blocks x
      {| kw_attitude := Some jac_attitude;
         kw_position := Some jac_position;
         kw_velocity := None |}
  else Err NotImplementedError.

Definition RangePoseToAnchor_covariance (self : RangePoseToAnchor) (x : State)
  : result ndarray :=
  Ok (Arr0 (RangePoseToAnchor_R self)).

Definition RangePoseToAnchor_model (self : RangePoseToAnchor)
  : MeasurementModel :=
  {| evaluate := RangePoseToAnchor_evaluate self;
     jacobian := RangePoseToAnchor_jacobian self;
     covariance := RangePoseToAnchor_covariance self |}.

(** [RangeRelativePose]: a [RangePoseToAnchor] addressed to one sub-state. *)
Definition RangeRelativePose_init (tag_body_position nb_tag_body_position
    : ndarray) (nb_state_id : pyid) (R : num) : CompositeMeasurementModel :=
  {| CompositeMeasurementModel_model :=
       RangePoseToAnchor_model
         (RangePoseToAnchor_init tag_body_position nb_tag_body_position R);
     CompositeMeasurementModel_state_id := nb_state_id |}.

End models.
(** ** Notions used to state the properties *)

Section notions.
Context `{Scalar} `{!Pylie}.

(** The degrees of freedom of the sub-states before position [i]. *)
Definition offset (state_list : list State) (i : nat) : nat :=
  sum_list (State_dof <$> take i state_list).

(** Column [j] lies in the half-open range of [s]. *)
Definition in_slice (s : slice) (j : nat) : Prop := start s ≤ j < stop s.

#[global] Instance in_slice_dec s j : Decision (in_slice s j).
Proof. unfold in_slice. apply _. Defined.

(** [state_id] first occurs at position [i] of the list, on sub-state [x]. *)
Definition first_match (state_list : list State) (state_id : pyid)
    (i : nat) (x : State) : Prop :=
  state_list !! i = Some x ∧ State_state_id x = state_id ∧
  ∀ j y, state_list !! j = Some y → j < i → State_state_id y ≠ state_id.

(** Two states of the same variant, for which [plus] and [minus] are meant
    to be used together: two vector states of the same length over exact
    scalars, or two Lie-group states on the same lawful group with the same
    perturbation direction, ['right'] or ['left']. *)
Inductive same_variant : State → State → Prop :=
  | same_vector v w dof1 stamp1 id1 dof2 stamp2 id2 :
      ScalarLaws _ →
      length v = length w →
      same_variant (VectorState (Arr1 v) dof1 stamp1 id1)
                   (VectorState (Arr1 w) dof2 stamp2 id2)
  | same_lie group G e direction g h
        cls1 dof1 stamp1 id1 cls2 dof2 stamp2 id2 :
      LieGroupLaws group G e →
      direction = "right" ∨ direction = "left" →
      G g → G h →
      same_variant
        (MatrixLieGroupState cls1 g group dof1 stamp1 id1 direction)
        (MatrixLieGroupState cls2 h group dof2 stamp2 id2 direction).

End notions.

(** ** Concrete backends for the examples *)

Section Z_backend.
#[local] Existing Instance Z_scalar.

(** Integer arrays. *)
Definition Zvec (v : list Z) : ndarray := Arr1 v.
Definition Zmat (ncols : nat) (rows : list (list Z)) : ndarray :=
  Arr2 ncols rows.

(** The maps [x ↦ a·x + b] of the integers with [a = ±1], as the matrices
    [[a, b], [0, 1]]: a group under the matrix product that is not
    commutative.  Tangent vectors are columns of two entries. *)
Definition affine (a b : Z) : ndarray := Arr2 2 [[a; b]; [0; 1]]%Z.

Definition is_affine (g : ndarray) : Prop :=
  ∃ a b : Z, (a = 1 ∨ a = -1)%Z ∧ g = affine a b.

Definition affine_Exp (v : ndarray) : ndarray :=
  match flat v with
  | [s; t] => affine (if Z.even s then 1 else -1) t
  | _ => affine 1 0
  end.

Definition affine_Log (g : ndarray) : ndarray :=
  match g with
  | Arr2 _ ([a; b] :: _) => Arr2 1 [[if decide (a = 1%Z) then 0 else 1]; [b]]%Z
  | _ => Arr2 1 [[0]; [0]]%Z
  end.

Definition affine_inverse (g : ndarray) : ndarray :=
  match g with
  | Arr2 _ ([a; b] :: _) => affine a (- (a * b))
  | _ => g
  end.

Definition affine_group : MatrixLieGroup := {|
  group_dof := 2;
  Exp := affine_Exp;
  Log := affine_Log;
  inverse := affine_inverse;
  adjoint := λ g, g;
  left_jacobian := λ _, np_identity 2;
  odot := np_column;
|}.

Definition affine_pylie : Pylie := {|
  SO2 := affine_group;
  SO3 := affine_group;
  SE2 := affine_group;
  SE3 := affine_group;
  SE23 := affine_group;
|}.

(** A measurement model that observes the value of a state directly; its
    Jacobian is the identity of the state's dimension. *)
Definition direct_model : MeasurementModel := {|
  evaluate := State_value;
  jacobian := λ x, Ok (np_identity (State_dof x));
  covariance := λ x, Ok (np_identity (State_dof x));
|}.

(** Three vector sub-states of 1, 2 and 3 degrees of freedom. *)
Definition three_states : list State :=
  [VectorState_init (Zvec [10]) None (IdInt 1);
   VectorState_init (Zvec [20; 21]) None (IdInt 2);
   VectorState_init (Zvec [30; 31; 32]) None (IdInt 3)]%Z.

(** Three sub-states of which the last two share the identifier 7. *)
Definition twin_states : list State :=
  [VectorState_init (Zvec [1]) None (IdInt 5);
   VectorState_init (Zvec [2; 3]) (Some 4) (IdInt 7);
   VectorState_init (Zvec [4; 5; 6]) None (IdInt 7)]%Z.

(** A planar pose perturbed on the left. *)
Definition left_pose : State :=
  LieState_init SE2State affine_group (affine (-1) 3) None (IdInt 0) "left".

(** An object store in which every reference holds [s]. *)
Definition store_of (s : State) : store := λ _, s.

End Z_backend.

Section float_backend.
#[local] Existing Instance float64.

(** binary64 arrays. *)
Definition Fvec (v : list float) : ndarray := Arr1 v.
Definition Fmat (ncols : nat) (rows : list (list float)) : ndarray :=
  Arr2 ncols rows.

(** The scenario of the single integrator: [Q] is the 2×2 identity, the
    state is [[0, 0]], the input [[1, 0]], the time step a half. *)
Definition scenario_Q : ndarray := Fmat 2 [[1; 0]; [0; 1]]%float.
Definition scenario_x : State :=
  VectorState_init (Fvec [0; 0]%float) None IdNone.
Definition scenario_u : StampedValue :=
  {| sv_value := Fvec [1; 0]%float; sv_stamp := None |}.
Definition scenario_dt : num := 0.5%float.

(** A platform whose [pow(a, 2.0)] is the correctly rounded square and
    leaves [errno] alone. *)
Definition rounded_pow2 (a : float) : float * bool := ((a * a)%float, false).
Definition rounded_power : Power float64 := float64_power rounded_pow2.

(** Two vector sub-states of different lengths, and a step of the
    composite's dimension. *)
Definition uneven_states : list State :=
  [VectorState_init (Fvec [0]%float) None (IdInt 1);
   VectorState_init (Fvec [0; 0]%float) None (IdInt 2)].
Definition uneven_dx : ndarray := Fvec [1; 2; 3]%float.

(** Two vector sub-states of the same length. *)
Definition even_states : list State :=
  [VectorState_init (Fvec [0; 0]%float) None (IdInt 1);
   VectorState_init (Fvec [0; 0]%float) None (IdInt 2)].
Definition even_dx : ndarray := Fvec [1; 2; 3; 4]%float.

End float_backend.

(** ** More array operations *)

Section more_numpy.
Context `{Scalar}.

(** [a.reshape((1, -1))] *)
Definition np_row (a : ndarray) : ndarray := Arr2 (np_size a) [flat a].

(** [a[i, :]] on a rank-2 array. *)
Definition getitem_row (a : ndarray) (i : nat) : result ndarray :=
  match a with
  | Arr2 _ rows => Arr1 <$> list_getitem rows i
  | _ => Err IndexError
  end.

(** [scipy.linalg.block_diag] of the arrays [arrs]: every argument is promoted to rank
    2, the result has the summed shape, block [k] starts at the row and the
    column where block [k - 1] ends, and everything else is zero.  Without
    arguments the blocks are those of [([],)], one row of no entries. *)
Fixpoint block_diag_rows (ncols off : nat) (bs : list (nat * list (list num)))
  : list (list num) :=
  match bs with
  | [] => []
  | (c, rows) :: bs' =>
      ((λ r : list num,
          replicate off zero ++ r ++ replicate (ncols - (off + c)) zero)
         <$> rows)
      ++ block_diag_rows ncols (off + c) bs'
  end.

Definition block_diag (arrs : list ndarray) : ndarray :=
  let bs := atleast_2d <$> (match arrs with [] => [Arr1 []] | _ => arrs end) in
  let ncols := sum_list (fst <$> bs) in
  Arr2 ncols (block_diag_rows ncols 0 bs).

(** The value assigned to a rank-1 target of length [k]: a scalar fills
    it, a vector has length [k] or 1, and a matrix of one row counts as
    that row. *)
Definition bc_to_vector (v : ndarray) (k : nat) : result (list num) :=
  match v with
  | Arr0 a => Ok (replicate k a)
  | Arr1 l => bc_to l k
  | Arr2 _ [l] => bc_to l k
  | Arr2 _ _ => Err ValueError
  end.

(** [a[rs, j] = v] and [a[rs, cs] = v] on a rank-2 array. *)
Definition setitem_rows_col (a : ndarray) (rs : slice) (j : nat) (v : ndarray)
  : result ndarray :=
  match a with
  | Arr2 c rows =>
      if decide (j < c) then
        let lo := start rs `min` length rows in
        let k := (stop rs `min` length rows) - lo in
        vs ← bc_to_vector v k;
        Ok (Arr2 c (take lo rows
                    ++ zip_with (λ row x, <[j:=x]> row)
                         (take k (drop lo rows)) vs
                    ++ drop (lo + k) rows))
      else Err IndexError
  | _ => Err IndexError
  end.

Definition setitem_rows_cols (a : ndarray) (rs cs : slice) (v : ndarray)
  : result ndarray :=
  match a with
  | Arr2 c rows =>
      let lo := start rs `min` length rows in
      let k := (stop rs `min` length rows) - lo in
      let a0 := start cs `min` c in
      let w := (stop cs `min` c) - a0 in
      blk ← broadcast_to v k w;
      Ok (Arr2 c (take lo rows
                  ++ zip_with (λ row br, take a0 row ++ br ++ drop (a0 + w) row)
                       (take k (drop lo rows)) blk
                  ++ drop (lo + k) rows))
  | _ => Err IndexError
  end.

End more_numpy.


Section more_states.
Context `{Scalar} `{!Pylie}.

(** Structural induction on states, through the list of a composite. *)
Section State_induction.
Variable P : State → Prop.
Hypothesis Hvector : ∀ value dof stamp state_id,
  P (VectorState value dof stamp state_id).
Hypothesis Hlie : ∀ cls value group dof stamp state_id direction,
  P (MatrixLieGroupState cls value group dof stamp state_id direction).
Hypothesis Hcomposite : ∀ value stamp state_id slices,
  Forall P value → P (CompositeState value stamp state_id slices).

Fixpoint State_ind_nested (x : State) : P x :=
  match x with
  | VectorState value dof stamp state_id => Hvector value dof stamp state_id
  | MatrixLieGroupState cls value group dof stamp state_id direction =>
      Hlie cls value group dof stamp state_id direction
  | CompositeState value stamp state_id slices =>
      Hcomposite value stamp state_id slices
        ((fix go (l : list State) : Forall P l :=
            match l with
            | [] => Forall_nil P
            | y :: l' => Forall_cons P y l' (State_ind_nested y) (go l')
            end) value)
  end.
End State_induction.

(** [x.copy()].  A vector state and the five group classes call their own
    constructor on a copy of the value.  The base class calls
    [self.__class__(value, stamp, state_id, direction)] as well, but its
    constructor takes the group in second position: the stamp, a float or
    [None], lands there, and reading [group.dof] off it fails. *)
Fixpoint copy (self : State) : result State :=
  match self with
  | VectorState value _ stamp state_id =>
      Ok (VectorState_init value stamp state_id)
  | MatrixLieGroupState cls value _ _ stamp state_id direction =>
      match cls with
      | MatrixLieGroupState_ => Err AttributeError
      | SO2State => Ok (SO2State_init value stamp state_id direction)
      | SO3State => Ok (SO3State_init value stamp state_id direction)
      | SE2State => Ok (SE2State_init value stamp state_id direction)
      | SE3State => Ok (SE3State_init value stamp state_id direction)
      | SE23State => Ok (SE23State_init value stamp state_id direction)
      end
  | CompositeState value stamp state_id _ =>
      value' ← mapM copy value;
      Ok (CompositeState_init value' stamp state_id)
  end.

(** [self.value[idx] = x] on the list of a composite. *)
Definition CompositeState_setitem (self : State) (idx : nat) (x : State)
  : result State :=
  match self with
  | CompositeState value stamp state_id slices =>
      if decide (idx < length value)
      then Ok (CompositeState (<[idx:=x]> value) stamp state_id slices)
      else Err IndexError
  | _ => Err AttributeError
  end.

(** [CompositeState.set_stamp_by_id(stamp, state_id)] *)
Definition set_stamp_by_id (self : State) (stamp : option num)
    (state_id : pyid) : result State :=
  idx ← get_index_by_id self state_id;
  value ← CompositeState_value self;
  x ← list_getitem value idx;
  CompositeState_setitem self idx (State_set_stamp x stamp).

(** [CompositeState.plus_by_id(dx, state_id, new_stamp)] *)
Definition plus_by_id (self : State) (dx : ndarray) (state_id : pyid)
    (new_stamp : option num) : result State :=
  idx ← get_index_by_id self state_id;
  value ← CompositeState_value self;
  x ← list_getitem value idx;
  x' ← plus x dx;
  self' ← CompositeState_setitem self idx x';
  match new_stamp with
  | None => Ok self'
  | Some t => set_stamp_by_id self' (Some t) state_id
  end.

(** The setters of the properties [position], [attitude] and [velocity]
    of the group classes: the new [self.value].  A class that inherits the
    read-only property of the base class cannot be assigned to. *)
Definition set_position (cls : lie_class) (value r : ndarray)
  : result ndarray :=
  match cls with
  | SE2State => setitem_rows_col value (Slice 0 2) 2 r
  | SE3State => setitem_rows_col value (Slice 0 3) 3 r
  | SE23State => setitem_rows_col value (Slice 0 3) 4 r
  | _ => Err AttributeError
  end.

Definition set_attitude (cls : lie_class) (value C : ndarray)
  : result ndarray :=
  match cls with
  | SO2State | SO3State => Ok C
  | SE2State => setitem_rows_cols value (Slice 0 2) (Slice 0 2) C
  | SE3State | SE23State => setitem_rows_cols value (Slice 0 3) (Slice 0 3) C
  | MatrixLieGroupState_ => Err AttributeError
  end.

Definition set_velocity (cls : lie_class) (value r : ndarray)
  : result ndarray :=
  match cls with
  | SE23State => setitem_rows_col value (Slice 0 3) 3 r
  | _ => Err AttributeError
  end.

(** The property [x.velocity]. *)
Definition velocity (x : State) : result ndarray :=
  match x with
  | MatrixLieGroupState cls value _ _ _ _ _ =>
      match cls with
      | SE23State => getitem_rows_col value (Slice 0 3) 3
      | _ => Err NotImplementedError
      end
  | _ => Err AttributeError
  end.

End more_states.

(** ** More of [pynav/lib/models.py] *)

Section more_models.
Context `{Scalar} `{!Pylie} `{!Power _}.

(** *** CompositeProcessModel *)

(** Modelled from the spec: the interface [pynav.types.ProcessModel].
    [pm_evaluate] gives the state that [evaluate] returns, which is its
    argument after the update. *)
Record ProcessModel := {
  pm_evaluate : State → StampedValue → num → result State;
  pm_jacobian : State → StampedValue → num → result ndarray;
  pm_covariance : State → StampedValue → num → result ndarray;
}.

(** A method written over a store, run on one object: the contents of the
    object it returns. *)
Definition on_object (method : ref → M ref) (x : State) : result State :=
  match method 0 (λ _, x) with
  | (Ok r, σ) => Ok (σ r)
  | (Err e, _) => Err e
  end.

Definition SingleIntegrator_model (self : SingleIntegrator) : ProcessModel :=
  {| pm_evaluate := λ x u dt,
       on_object (λ r, SingleIntegrator_evaluate self r u dt) x;
     pm_jacobian := λ x u dt, Ok (SingleIntegrator_jacobian self x u dt);
     pm_covariance := SingleIntegrator_covariance self |}.

Record CompositeProcessModel := {
  CompositeProcessModel_model_list : list ProcessModel;
}.

(** The loop shared by the three methods, from position [i] on:
    [u_sub = StampedValue(u.value[i], u.stamp)], then
    [self._model_list[i].method(x_sub, u_sub, dt)]. *)
Fixpoint CompositeProcessModel_each {A}
    (method : ProcessModel → State → StampedValue → num → result A)
    (self : CompositeProcessModel) (u : StampedValue) (dt : num)
    (i : nat) (value : list State) : result (list A) :=
  match value with
  | [] => Ok []
  | x_sub :: value' =>
      u_i ← getitem_int (sv_value u) i;
      let u_sub := {| sv_value := u_i; sv_stamp := sv_stamp u |} in
      model ← list_getitem (CompositeProcessModel_model_list self) i;
      r ← method model x_sub u_sub dt;
      rest ← CompositeProcessModel_each method self u dt (S i) value';
      Ok (r :: rest)
  end.

(** [x.value[i] = self._model_list[i].evaluate(x_sub, u_sub, dt)] for every
    [i], then [return x]; the slice table is not rebuilt. *)
Definition CompositeProcessModel_evaluate (self : CompositeProcessModel)
    (x : State) (u : StampedValue) (dt : num) : result State :=
  match x with
  | CompositeState value stamp state_id slices =>
      value' ← CompositeProcessModel_each pm_evaluate self u dt 0 value;
      Ok (CompositeState value' stamp state_id slices)
  | _ => Err AttributeError
  end.

Definition CompositeProcessModel_jacobian (self : CompositeProcessModel)
    (x : State) (u : StampedValue) (dt : num) : result ndarray :=
  value ← CompositeState_value x;
  jac ← CompositeProcessModel_each pm_jacobian self u dt 0 value;
  Ok (block_diag jac).

Definition CompositeProcessModel_covariance (self : CompositeProcessModel)
    (x : State) (u : StampedValue) (dt : num) : result ndarray :=
  value ← CompositeState_value x;
  cov ← CompositeProcessModel_each pm_covariance self u dt 0 value;
  Ok (block_diag cov).

(** *** GlobalPosition, Altitude, Gravity

    Their [jacobian] has no [else] branch: with a direction that is neither
    ['right'] nor ['left'] the method falls off its end and returns
    [None]. *)

Definition only_position (p : ndarray) : blocks :=
  {| kw_attitude := None; kw_position := Some p; kw_velocity := None |}.
Definition only_attitude (a : ndarray) : blocks :=
  {| kw_attitude := Some a; kw_position := None; kw_velocity := None |}.

Record GlobalPosition := { GlobalPosition_R : ndarray }.

Definition GlobalPosition_evaluate (self : GlobalPosition) (x : State)
  : result ndarray :=
  position x.

Definition GlobalPosition_jacobian (self : GlobalPosition) (x : State)
  : result (option ndarray) :=
  C_ab ← attitude x;
  let att_group := att_group_of C_ab in
  direction ← State_direction x;
  if decide (direction = "right") then
    a ← attitude x;
    Some <$> LieState_jacobian_from_blocks x (only_position a)
  else if decide (direction = "left") then
    att_group ← from_option Ok (Err UnboundLocalError) att_group;
    p ← position x;
    p' ← position x;
    Some <$> LieState_jacobian_from_blocks x
      {| kw_attitude := Some (odot att_group p);
         kw_position := Some (np_identity (np_size p'));
         kw_velocity := None |}
  else Ok None.

Record Altitude := { Altitude_R : ndarray }.

(** [x.position[2]] *)
Definition Altitude_evaluate (self : Altitude) (x : State) : result ndarray :=
  p ← position x;
  getitem_int p 2.

Definition Altitude_jacobian (self : Altitude) (x : State)
  : result (option ndarray) :=
  direction ← State_direction x;
  if decide (direction = "right") then
    a ← attitude x;
    row ← getitem_row a 2;
    Some <$> LieState_jacobian_from_blocks x (only_position (np_row row))
  else if decide (direction = "left") then
    p ← position x;
    row ← getitem_row (odot SO3 p) 2;
    Some <$> LieState_jacobian_from_blocks x
      {| kw_attitude := Some (np_row row);
         kw_position := Some (Arr2 3 [[zero; zero; one]]);
         kw_velocity := None |}
  else Ok None.

Record Gravity := {
  Gravity_R : ndarray;
  Gravity_g_a : ndarray;
}.

Definition Gravity_init (R gravity_vec : ndarray) : Gravity :=
  {| Gravity_R := R; Gravity_g_a := np_column gravity_vec |}.

Definition Gravity_evaluate (self : Gravity) (x : State) : result ndarray :=
  a ← attitude x;
  np_transpose a @ Gravity_g_a self.

Definition Gravity_jacobian (self : Gravity) (x : State)
  : result (option ndarray) :=
  direction ← State_direction x;
  if decide (direction = "right") then
    a ← attitude x;
    t ← np_transpose a @ Gravity_g_a self;
    Some <$> LieState_jacobian_from_blocks x
               (only_attitude (np_neg (odot SO3 t)))
  else if decide (direction = "left") then
    a ← attitude x;
    t ← np_neg (odot SO3 (np_transpose a)) @ Gravity_g_a self;
    Some <$> LieState_jacobian_from_blocks x (only_attitude t)
  else Ok None.

End more_models.

(** ** Notions used to state further properties *)

Section more_notions.
Context `{Scalar} `{!Pylie}.

(** The loop of [CompositeState.plus], as a function of its own. *)
Fixpoint plus_each (dx : ndarray) (value : list State) (slices : list slice)
  : result (list State) :=
  match slices with
  | [] => Ok value
  | s :: slices' =>
      match value with
      | [] => Err IndexError
      | x :: value' =>
          sub_dx ← getitem_slice dx s;
          x' ← plus x sub_dx;
          rest ← plus_each dx value' slices';
          Ok (x' :: rest)
      end
  end.

(** The loop of [CompositeState.minus], as a function of its own. *)
Fixpoint minus_each (value x_value : list State) : result (list ndarray) :=
  match x_value with
  | [] => Ok []
  | xi :: x_value' =>
      match value with
      | [] => Err IndexError
      | si :: value' =>
          d ← minus si xi;
          rest ← minus_each value' x_value';
          Ok (d :: rest)
      end
  end.

(** What [plus] never touches. *)
Definition same_identity (x x' : State) : Prop :=
  State_dof x' = State_dof x ∧
  State_state_id x' = State_state_id x ∧
  State_stamp x' = State_stamp x.

(** A state as one of the constructors other than the composite's builds
    it. *)
Inductive constructed : State → Prop :=
  | constructed_vector value stamp sid :
      constructed (VectorState_init value stamp sid)
  | constructed_SO2 value stamp sid direction :
      constructed (SO2State_init value stamp sid direction)
  | constructed_SO3 value stamp sid direction :
      constructed (SO3State_init value stamp sid direction)
  | constructed_SE2 value stamp sid direction :
      constructed (SE2State_init value stamp sid direction)
  | constructed_SE3 value stamp sid direction :
      constructed (SE3State_init value stamp sid direction)
  | constructed_SE23 value stamp sid direction :
      constructed (SE23State_init value stamp sid direction).

(** The row count and the column of the position in the matrix of a pose,
    by class. *)
Definition position_layout (cls : lie_class) : option (nat * nat) :=
  match cls with
  | SE2State => Some (2, 2)
  | SE3State => Some (3, 3)
  | SE23State => Some (3, 4)
  | _ => None
  end.

(** The product of two group elements, for reasoning about a backend that
    satisfies [LieGroupLaws]: on elements of the group it is [g @ h]. *)
Definition mulG (e g h : ndarray) : ndarray :=
  match g @ h with
  | Ok k => k
  | Err _ => e
  end.

(** The slice table of [CompositeState.__init__], counted from [o]. *)
Fixpoint slices_from (o : nat) (state_list : list State) : list slice :=
  match state_list with
  | [] => []
  | x :: l => Slice o (o + State_dof x) :: slices_from (o + State_dof x) l
  end.

End more_notions.

(** ** Further examples over the integers *)

Section more_examples.
#[local] Existing Instance Z_scalar.
#[local] Existing Instance Z_power.
#[local] Existing Instance affine_pylie.

(** Integers as scalars. *)
Definition Zlist (v : list Z) : list num := v.
Definition Zrows (rows : list (list Z)) : list (list num) := rows.

(** Two planar poses over the affine group, one perturbed on each side. *)
Definition pose_pair : list State :=
  [SE2State_init (affine (-1) 3) None (IdInt 1) "right";
   SE2State_init (affine 1 5) (Some 2) (IdInt 2) "left"]%Z.

(** A pose whose direction is neither of the two that the code knows. *)
Definition sideways_pose : State :=
  SE2State_init (affine 1 0) None (IdInt 0) "up".

(** One model of each kind. *)
Definition gps : GlobalPosition := {| GlobalPosition_R := np_identity 2 |}.
Definition altimeter : Altitude := {| Altitude_R := Zmat 1 [[1]]%Z |}.
Definition plumb_line : Gravity :=
  Gravity_init (np_identity 3) (Zvec [0; 0; -9]%Z).
Definition odometry : BodyFrameVelocity :=
  {| BodyFrameVelocity_Q := np_identity 2 |}.
Definition beacon : RangePoseToAnchor :=
  RangePoseToAnchor_init (Zvec [1; 2]%Z) (Zvec [0; 0]%Z) 1%Z.

(** One [SingleIntegrator] per sub-state of [three_states], and an input
    with one row for each. *)
Definition integrator (dim : nat) : ProcessModel :=
  SingleIntegrator_model
    {| SingleIntegrator_Q := np_identity dim; SingleIntegrator_dim := dim |}.

Definition three_integrators : CompositeProcessModel :=
  {| CompositeProcessModel_model_list :=
       [integrator 1; integrator 2; integrator 3] |}.

Definition two_integrators : CompositeProcessModel :=
  {| CompositeProcessModel_model_list := [integrator 1; integrator 2] |}.

(** The rows of [k] times the identity of size [n]. *)
Definition scaled_identity_rows (k : Z) (n : nat) : list (list num) :=
  (λ i, (λ j, if decide (i = j) then k else 0%Z) <$> seq 0 n) <$> seq 0 n.

Definition three_inputs : StampedValue :=
  {| sv_value := Zmat 1 [[1]; [2]; [3]]%Z; sv_stamp := None |}.

End more_examples.

(** * Properties *)

Section composite_facts.
Context `{Scalar} `{!Pylie}.

Implicit Types (state_list : list State) (x : State) (state_id : pyid).

Lemma sum_list_app (l k : list nat) :
  sum_list (l ++ k) = sum_list l + sum_list k.
Proof. induction l as [|n l IH]; simpl; lia. Qed.

Lemma init_slices_fold state_list :
  foldl init_slices_step ([], 0) state_list =
  (init_slices state_list, sum_list (State_dof <$> state_list)).
Proof.
  unfold init_slices. destruct (foldl _ _ _) as [sl c] eqn:E. simpl.
  f_equal. revert sl c E.
  induction state_list as [|x l IH] using rev_ind; intros sl c E.
  - by inversion E.
  - rewrite foldl_app in E. simpl in E.
    destruct (foldl init_slices_step ([], 0) l) as [sl' c'] eqn:E'.
    specialize (IH _ _ eq_refl). subst c'. simpl in E. inversion E.
    rewrite fmap_app, sum_list_app. simpl. lia.
Qed.

Lemma init_slices_snoc state_list x :
  init_slices (state_list ++ [x]) =
  init_slices state_list ++
  [Slice (sum_list (State_dof <$> state_list))
         (sum_list (State_dof <$> state_list) + State_dof x)].
Proof.
  unfold init_slices at 1. rewrite foldl_app, init_slices_fold. done.
Qed.

Lemma init_slices_length state_list :
  length (init_slices state_list) = length state_list.
Proof.
  induction state_list as [|x l IH] using rev_ind; [done|].
  rewrite init_slices_snoc, !length_app, IH. done.
Qed.

Lemma init_slices_lookup state_list i x :
  state_list !! i = Some x →
  init_slices state_list !! i =
  Some (Slice (offset state_list i) (offset state_list i + State_dof x)).
Proof.
  revert i x. induction state_list as [|y l IH] using rev_ind; intros i x Hi.
  - done.
  - rewrite init_slices_snoc. unfold offset.
    destruct (decide (i < length l)) as [Hlt|Hge].
    + rewrite lookup_app_l in Hi by done.
      rewrite lookup_app_l by (by rewrite init_slices_length).
      rewrite take_app_le by lia. by apply IH.
    + apply lookup_lt_Some in Hi as Hlen. rewrite length_app in Hlen.
      simpl in Hlen. assert (i = length l) as -> by lia.
      rewrite list_lookup_middle in Hi by done. inversion Hi; subst y.
      rewrite list_lookup_middle by (by rewrite init_slices_length).
      rewrite take_app_le, firstn_all by lia. done.
Qed.

Lemma offset_S state_list i x :
  state_list !! i = Some x →
  offset state_list (S i) = offset state_list i + State_dof x.
Proof.
  intros Hi. unfold offset. rewrite (take_S_r _ _ _ Hi).
  rewrite fmap_app, sum_list_app. simpl. lia.
Qed.

Lemma offset_mono state_list i j :
  i ≤ j → offset state_list i ≤ offset state_list j.
Proof.
  intros Hij. unfold offset.
  replace j with (i + (j - i)) by lia.
  rewrite <- take_take_drop, fmap_app, sum_list_app. lia.
Qed.

Lemma offset_all state_list :
  offset state_list (length state_list) = sum_list (State_dof <$> state_list).
Proof. unfold offset. by rewrite firstn_all. Qed.

(** Every column below the total lies in the range of some sub-state. *)
Lemma offset_cover state_list j :
  j < sum_list (State_dof <$> state_list) →
  ∃ i x, state_list !! i = Some x ∧
    offset state_list i ≤ j < offset state_list i + State_dof x.
Proof.
  induction state_list as [|y l IH] using rev_ind; intros Hj.
  - simpl in Hj. lia.
  - rewrite fmap_app, sum_list_app in Hj. simpl in Hj.
    destruct (decide (j < sum_list (State_dof <$> l))) as [Hlt|Hge].
    + destruct (IH Hlt) as (i & x & Hi & Hr). exists i, x. split.
      * by apply lookup_app_l_Some.
      * unfold offset in *. apply lookup_lt_Some in Hi.
        by rewrite take_app_le by lia.
    + exists (length l), y. split; [by apply list_lookup_middle|].
      unfold offset. rewrite take_app_length. lia.
Qed.

End composite_facts.

Section composite_claims.
Context `{Scalar} `{!Pylie}.

Implicit Types (state_list : list State) (x : State) (state_id : pyid).

(** C5.  The slice table that [CompositeState.__init__] builds has one
    slice per sub-state; the i-th is
    [slice(dof_0 + ... + dof_{i-1}, dof_0 + ... + dof_{i-1} + dof_i)]; the
    composite [dof] is the sum of the sub-state dofs; and every column of
    [[0, dof)] lies in exactly one slice (no gap, no overlap). *)
Theorem CompositeState_slices_partition state_list stamp state_id :
  let self := CompositeState_init state_list stamp state_id in
  ∃ slices,
    CompositeState_slices self = Ok slices ∧
    length slices = length state_list ∧
    (∀ i x, state_list !! i = Some x →
       slices !! i = Some (Slice (offset state_list i)
                                 (offset state_list i + State_dof x))) ∧
    State_dof self = sum_list (State_dof <$> state_list) ∧
    (∀ j, j < State_dof self →
       ∃ i s, slices !! i = Some s ∧ in_slice s j ∧
         ∀ i' s', slices !! i' = Some s' → in_slice s' j → i' = i).
Proof.
  intros self. exists (init_slices state_list).
  split; [done|]. split; [apply init_slices_length|].
  split; [apply init_slices_lookup|]. split; [done|].
  intros j Hj. simpl in Hj.
  destruct (offset_cover _ _ Hj) as (i & x & Hi & Hr).
  exists i, (Slice (offset state_list i) (offset state_list i + State_dof x)).
  split; [by apply init_slices_lookup|]. split; [done|].
  intros i' s' Hs' Hin.
  assert (is_Some (state_list !! i')) as [x' Hi'].
  { apply lookup_lt_is_Some. rewrite <- init_slices_length.
    by eapply lookup_lt_Some. }
  rewrite (init_slices_lookup _ _ _ Hi') in Hs'. inversion Hs'; subst s'.
  unfold in_slice in Hin. simpl in Hin.
  destruct (Nat.lt_trichotomy i' i) as [Hlt|[Heq|Hgt]]; [|done|].
  - pose proof (offset_mono state_list (S i') i ltac:(lia)) as Hm.
    rewrite (offset_S _ _ _ Hi') in Hm. lia.
  - pose proof (offset_mono state_list (S i) i' ltac:(lia)) as Hm.
    rewrite (offset_S _ _ _ Hi) in Hm. lia.
Qed.

Lemma list_index_absent state_list state_id :
  Forall (λ x, State_state_id x ≠ state_id) state_list →
  list_index state_id (State_state_id <$> state_list) = Err ValueError.
Proof.
  induction 1 as [|x l Hx _ IH]; [done|].
  rewrite fmap_cons. cbn [list_index].
  rewrite decide_False by done. by rewrite IH.
Qed.

Lemma list_index_first_match state_list state_id i x :
  first_match state_list state_id i x →
  list_index state_id (State_state_id <$> state_list) = Ok i.
Proof.
  revert i. induction state_list as [|y l IH]; intros i (Hi & Hid & Hfirst).
  - done.
  - rewrite fmap_cons. cbn [list_index]. destruct i as [|i].
    + inversion Hi; subst y. by rewrite decide_True.
    + rewrite decide_False by (by apply (Hfirst 0 y); [|lia]).
      rewrite (IH i); [done|]. split; [done|]. split; [done|].
      intros j z Hj Hlt. apply (Hfirst (S j) z); [done|lia].
Qed.

Lemma get_index_by_id_first_match state_list stamp sid state_id i x :
  first_match state_list state_id i x →
  get_index_by_id (CompositeState_init state_list stamp sid) state_id = Ok i.
Proof. intros Hm. unfold get_index_by_id. simpl. by eapply list_index_first_match. Qed.

Lemma get_state_by_id_first_match state_list stamp sid state_id i x :
  first_match state_list state_id i x →
  get_state_by_id (CompositeState_init state_list stamp sid) state_id = Ok x.
Proof.
  intros Hm. unfold get_state_by_id.
  rewrite (get_index_by_id_first_match _ _ _ _ _ _ Hm). simpl.
  unfold list_getitem. destruct Hm as (-> & _). done.
Qed.

Lemma get_slice_by_id_first_match state_list stamp sid state_id i x :
  first_match state_list state_id i x →
  get_slice_by_id (CompositeState_init state_list stamp sid) state_id =
  Ok (Slice (offset state_list i) (offset state_list i + State_dof x)).
Proof.
  intros Hm. unfold get_slice_by_id.
  rewrite (get_index_by_id_first_match _ _ _ _ _ _ Hm). simpl.
  unfold list_getitem. destruct Hm as (Hi & _).
  by rewrite (init_slices_lookup _ _ _ Hi).
Qed.

(** Some sub-state carries the identifier, hence a first one does. *)
Lemma first_match_exists state_list state_id :
  Exists (λ x, State_state_id x = state_id) state_list →
  ∃ i x, first_match state_list state_id i x.
Proof.
  induction 1 as [x l Hx|y l _ IH].
  - exists 0, x. split; [done|]. split; [done|]. intros; lia.
  - destruct (decide (State_state_id y = state_id)) as [Hy|Hy].
    + exists 0, y. split; [done|]. split; [done|]. intros; lia.
    + destruct IH as (i & x & Hi & Hid & Hfirst). exists (S i), x.
      split; [done|]. split; [done|]. intros [|j] z Hj Hlt.
      * by inversion Hj; subst z.
      * apply (Hfirst j z); [done|lia].
Qed.

(** A method that only reads its receiver leaves every object as it was. *)
Lemma call_store {A} (method : State → result A) (r : ref) (σ : store) :
  call method r σ = (method (σ r), σ).
Proof. unfold call, load, lift, mbind, M_bind. done. Qed.

(** C6.  On a composite without the queried identifier, [get_index_by_id],
    [get_slice_by_id] and [get_state_by_id] raise [ValueError]; when one or
    more sub-states carry it, they return the position, the slice and the
    sub-state of the first one in list order; and calling them on a
    composite object leaves the store of objects unchanged. *)
Theorem get_by_id_first_match_or_error state_list stamp sid state_id :
  let self := CompositeState_init state_list stamp sid in
  (Forall (λ x, State_state_id x ≠ state_id) state_list →
     get_index_by_id self state_id = Err ValueError ∧
     get_slice_by_id self state_id = Err ValueError ∧
     get_state_by_id self state_id = Err ValueError) ∧
  (∀ i x, first_match state_list state_id i x →
     get_index_by_id self state_id = Ok i ∧
     get_slice_by_id self state_id =
       Ok (Slice (offset state_list i) (offset state_list i + State_dof x)) ∧
     get_state_by_id self state_id = Ok x) ∧
  (∀ (σ : store) (r : ref), σ r = self →
     call (λ s, get_index_by_id s state_id) r σ
       = (get_index_by_id self state_id, σ) ∧
     call (λ s, get_slice_by_id s state_id) r σ
       = (get_slice_by_id self state_id, σ) ∧
     call (λ s, get_state_by_id s state_id) r σ
       = (get_state_by_id self state_id, σ)).
Proof.
  intros self. split; [|split].
  - intros Habs.
    assert (get_index_by_id self state_id = Err ValueError) as Hidx.
    { unfold get_index_by_id. simpl. by apply list_index_absent. }
    unfold get_slice_by_id, get_state_by_id. by rewrite Hidx.
  - intros i x Hm. split; [|split].
    + by eapply get_index_by_id_first_match.
    + by eapply get_slice_by_id_first_match.
    + by eapply get_state_by_id_first_match.
  - intros σ r Hr. rewrite !call_store, Hr. done.
Qed.

(** C9.  When the identifier is present, [get_dof_by_id] and
    [get_stamp_by_id] raise [TypeError]: they subscript the sub-state's
    [dof] (an int) and [stamp] (a float or [None]) with the list index. *)
Theorem get_dof_and_stamp_by_id_raise state_list stamp sid state_id :
  Exists (λ x, State_state_id x = state_id) state_list →
  let self := CompositeState_init state_list stamp sid in
  get_dof_by_id self state_id = Err TypeError ∧
  get_stamp_by_id self state_id = Err TypeError.
Proof.
  intros Hex self. destruct (first_match_exists _ _ Hex) as (i & x & Hm).
  subst self. unfold get_dof_by_id, get_stamp_by_id.
  rewrite (get_index_by_id_first_match _ stamp sid _ _ _ Hm). simpl.
  destruct Hm as (Hi & _). unfold list_getitem. rewrite Hi. simpl.
  split; [done|]. by destruct (State_stamp x).
Qed.

End composite_claims.

Section retraction_claims.
Context `{Scalar}.

Lemma stretch_same {A} (l : list A) n : length l = n → stretch l n = l.
Proof. destruct l as [|a [|b l]]; intros <-; done. Qed.

Lemma bc_zip_same (f : num → num → num) (u v : list num) :
  length u = length v → bc_zip f u v = Ok (zip_with f u v).
Proof.
  intros Hlen. unfold bc_zip, bc_len. rewrite decide_True by done. simpl.
  by rewrite !stretch_same.
Qed.

Section exact.
Context (laws : ScalarLaws _).

Lemma add_sub_cancel (x y : num) : add y (sub x y) = x.
Proof.
  rewrite (sub_def _ laws), (add_comm _ laws x), (add_assoc _ laws).
  by rewrite (add_opp_r _ laws), (add_zero_l _ laws).
Qed.

Lemma sub_diag (x : num) : sub x x = zero.
Proof. by rewrite (sub_def _ laws), (add_opp_r _ laws). Qed.

Lemma zip_add_sub (v w : list num) :
  length v = length w → zip_with add w (zip_with sub v w) = v.
Proof.
  revert w. induction v as [|a v IH]; intros [|b w] Hlen; try done.
  simpl. rewrite add_sub_cancel, IH by (simpl in Hlen; lia). done.
Qed.

Lemma zip_sub_diag (v : list num) : Forall (λ a, a = zero) (zip_with sub v v).
Proof. induction v; constructor; [apply sub_diag|done]. Qed.

End exact.

(** C3.  For two states [x] and [y] of the same variant, [minus x y] is
    a tangent vector [dx] such that [plus y dx] is [y] with the value of
    [x], and [minus x x] is a zero vector.  This covers vector states over
    exact scalars and Lie-group states in the right and in the left
    direction, given the laws of the group. *)
Theorem plus_minus_inverse (x y : State) :
  same_variant x y →
  (∃ dx vx, minus x y = Ok dx ∧ State_value x = Ok vx ∧
            plus y dx = Ok (State_set_value y vx)) ∧
  (∃ z, minus x x = Ok z ∧ all_zero z).
Proof.
  destruct 1 as [v w d1 s1 i1 d2 s2 i2 laws Hlen
                |group G e direction g h c1 d1 s1 i1 c2 d2 s2 i2 laws Hdir Hg Hh].
  - split.
    + exists (Arr1 (zip_with sub v w)), (Arr1 v). simpl.
      unfold VectorState_minus, VectorState_plus, np_sub, np_add. simpl.
      rewrite bc_zip_same by done. simpl. split; [done|]. split; [done|].
      rewrite bc_zip_same by (rewrite length_zip_with; lia). simpl.
      by rewrite zip_add_sub.
    + exists (Arr1 (zip_with sub v v)). simpl.
      unfold VectorState_minus, np_sub. simpl.
      rewrite bc_zip_same by done. simpl. split; [done|].
      by apply zip_sub_diag.
  - pose proof (inverse_elem _ _ _ laws) as Hinv.
    destruct Hdir as [-> | ->]; simpl;
      unfold MatrixLieGroupState_minus, MatrixLieGroupState_plus; simpl.
    + split.
      * destruct (mul_closed _ _ _ laws (inverse group h) g) as (k & Hk & Gk);
          [by apply Hinv|done|].
        exists (Log group k), g. rewrite Hk. simpl.
        split; [done|]. split; [done|].
        rewrite (Exp_Log _ _ _ laws) by done.
        pose proof (mul_assoc _ _ _ laws h (inverse group h) g e k
          Hh (Hinv _ Hh) Hg (mul_inverse_r _ _ _ laws _ Hh) Hk) as Ha.
        rewrite (mul_e_l _ _ _ laws) in Ha by done. by rewrite <- Ha.
      * exists (Log group e). rewrite (mul_inverse_l _ _ _ laws) by done.
        split; [done|]. apply (Log_e _ _ _ laws).
    + split.
      * destruct (mul_closed _ _ _ laws g (inverse group h)) as (k & Hk & Gk);
          [done|by apply Hinv|].
        exists (Log group k), g. rewrite Hk. simpl.
        split; [done|]. split; [done|].
        rewrite (Exp_Log _ _ _ laws) by done.
        pose proof (mul_assoc _ _ _ laws g (inverse group h) h k e
          Hg (Hinv _ Hh) Hh Hk (mul_inverse_l _ _ _ laws _ Hh)) as Ha.
        rewrite (mul_e_r _ _ _ laws) in Ha by done. by rewrite Ha.
      * exists (Log group e). rewrite (mul_inverse_r _ _ _ laws) by done.
        split; [done|]. apply (Log_e _ _ _ laws).
Qed.

End retraction_claims.

Section Z_backend_facts.
#[local] Existing Instance Z_scalar.

Lemma Z_scalar_laws : ScalarLaws Z_scalar.
Proof. split; simpl; intros; lia. Qed.

Lemma Z_power_laws : PowerLaws Z_scalar Z_power.
Proof. intros x. reflexivity. Qed.

Lemma affine_matmul (a b a' b' : Z) :
  affine a b @ affine a' b' = Ok (affine (a * a') (a * b' + b)).
Proof.
  unfold affine, np_matmul. simpl. unfold dot. simpl.
  do 2 f_equal. repeat (f_equal; try lia).
Qed.

Lemma affine_laws : LieGroupLaws affine_group is_affine (affine 1 0).
Proof.
  split.
  - intros g h (a & b & Ha & ->) (a' & b' & Ha' & ->).
    eexists. split; [apply affine_matmul|].
    exists (a * a')%Z, (a * b' + b)%Z. split; [lia|done].
  - intros g h k gh hk (a & b & Ha & ->) (a' & b' & Ha' & ->)
      (a'' & b'' & Ha'' & ->).
    rewrite !affine_matmul. intros [= <-] [= <-]. rewrite !affine_matmul.
    do 2 f_equal; lia.
  - exists 1%Z, 0%Z. split; [lia|done].
  - intros g (a & b & Ha & ->). rewrite affine_matmul.
    do 2 f_equal; lia.
  - intros g (a & b & Ha & ->). rewrite affine_matmul.
    do 2 f_equal; lia.
  - intros g (a & b & Ha & ->). by exists a, (- (a * b))%Z.
  - intros g (a & b & Ha & ->).
    change (inverse affine_group (affine a b)) with (affine a (- (a * b))).
    rewrite affine_matmul. do 2 f_equal; lia.
  - intros g (a & b & Ha & ->).
    change (inverse affine_group (affine a b)) with (affine a (- (a * b))).
    rewrite affine_matmul. do 2 f_equal; lia.
  - intros v. simpl. unfold affine_Exp.
    destruct (flat v) as [|s [|t [|? ?]]];
      try (exists 1%Z, 0%Z; split; [lia|done]).
    exists (if Z.even s then 1 else -1)%Z, t.
    split; [destruct (Z.even s); lia|done].
  - intros g (a & b & Ha & ->). simpl. unfold affine_Exp. simpl.
    destruct Ha as [-> | ->]; done.
  - simpl. repeat constructor.
Qed.

(** C3 at work on the affine group, where the product does not commute,
    in the left direction. *)
Lemma plus_minus_inverse_witness :
  let lie a b := MatrixLieGroupState SE2State (affine a b) affine_group 2
                   None (IdInt 0) "left" in
  let x := lie (-1)%Z 3%Z in
  let y := lie 1%Z 5%Z in
  same_variant x y ∧
  (∃ dx vx, minus x y = Ok dx ∧ State_value x = Ok vx ∧
            plus y dx = Ok (State_set_value y vx)) ∧
  (∃ z, minus x x = Ok z ∧ all_zero z).
Proof.
  intros lie x y.
  assert (same_variant x y) as Hxy.
  { eapply same_lie; [apply affine_laws|by right| |].
    - exists (-1)%Z, 3%Z. split; [lia|reflexivity].
    - exists 1%Z, 5%Z. split; [lia|reflexivity]. }
  split; [exact Hxy|]. exact (plus_minus_inverse x y Hxy).
Defined.

(** The same round trips, evaluated. *)
Example affine_round_trips :
  let lie d a b := MatrixLieGroupState SE2State (affine a b) affine_group 2
                     None (IdInt 0) d in
  let vec v := VectorState (Zvec v) (length v) None (IdInt 0) in
  (minus (lie "left" (-1) 3) (lie "left" 1 5) = Ok (Zmat 1 [[1]; [8]]) ∧
   plus (lie "left" 1 5) (Zmat 1 [[1]; [8]]) = Ok (lie "left" (-1) 3))%Z ∧
  (minus (lie "right" (-1) 3) (lie "right" 1 5) = Ok (Zmat 1 [[1]; [-2]]) ∧
   plus (lie "right" 1 5) (Zmat 1 [[1]; [-2]]) = Ok (lie "right" (-1) 3))%Z ∧
  (minus (vec [7; 2]) (vec [4; 9]) = Ok (Zvec [3; -7]) ∧
   plus (vec [4; 9]) (Zvec [3; -7]) = Ok (vec [7; 2]))%Z.
Proof. repeat split; reflexivity. Qed.

End Z_backend_facts.

Section scatter_claims.
Context `{Scalar} `{!Pylie}.

Lemma mapM_bc_to_same (rows : list (list num)) d :
  Forall (λ r, length r = d) rows →
  mapM (λ r, bc_to r d) rows = Ok rows.
Proof.
  induction 1 as [|r rows Hr _ IH]; [done|].
  change (mapM (λ r, bc_to r d) (r :: rows)) with
    (bc_to r d ≫= λ y, mapM (λ r, bc_to r d) rows ≫= λ k, mret (y :: k)).
  rewrite IH. unfold bc_to. rewrite decide_True by done. done.
Qed.

Lemma bc_to_same {A} (l : list A) n : length l = n → bc_to l n = Ok l.
Proof. intros Hl. unfold bc_to. by rewrite decide_True. Qed.

(** Writing a block of [d] columns at column [off] of a zero matrix pads
    each row of the block with zeros on both sides. *)
Lemma setitem_cols_zeros (m D off d : nat) (rows : list (list num)) :
  off + d ≤ D → length rows = m → Forall (λ r, length r = d) rows →
  setitem_cols (np_zeros m D) (Slice off (off + d)) (Arr2 d rows) =
  Ok (Arr2 D ((λ r, replicate off zero ++ r ++ replicate (D - (off + d)) zero)
                <$> rows)).
Proof.
  intros Hle Hm Hrows. unfold setitem_cols, np_zeros. simpl.
  rewrite length_replicate.
  rewrite (Nat.min_l off D), (Nat.min_l (off + d) D) by lia.
  replace (off + d - off) with d by lia.
  rewrite decide_True by (by left).
  rewrite mapM_bc_to_same by done. simpl.
  rewrite bc_to_same by done. simpl.
  rewrite zip_with_replicate_l by lia.
  rewrite take_replicate, drop_replicate, (Nat.min_l off D) by lia. done.
Qed.

Lemma padded_lookup (off D : nat) (r : list num) c :
  off + length r ≤ D → c < D →
  (replicate off zero ++ r ++ replicate (D - (off + length r)) zero) !! c =
  if decide (off ≤ c < off + length r) then r !! (c - off) else Some zero.
Proof.
  intros Hle Hc. case_decide as Hin.
  - rewrite lookup_app_r by (rewrite length_replicate; lia).
    rewrite length_replicate. rewrite lookup_app_l by lia. done.
  - destruct (decide (c < off)) as [Hlt|Hge].
    + rewrite lookup_app_l by (rewrite length_replicate; lia).
      by apply lookup_replicate_2.
    + rewrite lookup_app_r by (rewrite length_replicate; lia).
      rewrite length_replicate.
      rewrite lookup_app_r by lia.
      apply lookup_replicate_2. lia.
Qed.

Lemma offset_bound state_list i x :
  state_list !! i = Some x →
  offset state_list i + State_dof x ≤ sum_list (State_dof <$> state_list).
Proof.
  intros Hi. rewrite <- (offset_S _ _ _ Hi), <- offset_all.
  apply offset_mono. apply lookup_lt_Some in Hi. lia.
Qed.

(** C2.  On a composite that contains a sub-state with the target
    identifier, the first such sub-state [x_sub] being the addressed one,
    and for a wrapped model whose native Jacobian on [x_sub] has [m] rows
    and [x_sub.dof] columns: [CompositeMeasurementModel.jacobian] returns a
    matrix of [m] rows and as many columns as the composite has degrees of
    freedom, equal to the native Jacobian on the columns of the addressed
    slice and zero on every other column. *)
Theorem CompositeMeasurementModel_jacobian_scatter
    (self : CompositeMeasurementModel) state_list stamp sid
    (i : nat) (x_sub : State) (rows : list (list num)) :
  let x := CompositeState_init state_list stamp sid in
  let jac_sub := Arr2 (State_dof x_sub) rows in
  first_match state_list (CompositeMeasurementModel_state_id self) i x_sub →
  jacobian (CompositeMeasurementModel_model self) x_sub = Ok jac_sub →
  wf_array jac_sub →
  ∃ jac slc,
    CompositeMeasurementModel_jacobian self x = Ok jac ∧
    get_slice_by_id x (CompositeMeasurementModel_state_id self) = Ok slc ∧
    slc = Slice (offset state_list i) (offset state_list i + State_dof x_sub) ∧
    np_shape jac = [length rows; State_dof x] ∧
    wf_array jac ∧
    ∀ r c, r < length rows → c < State_dof x →
      entry jac r c =
      if decide (in_slice slc c) then entry jac_sub r (c - start slc)
      else Some zero.
Proof.
  intros x jac_sub Hm Hjac Hwf. simpl in Hwf.
  pose proof Hm as (Hi & _). pose proof (offset_bound _ _ _ Hi) as Hb.
  set (D := sum_list (State_dof <$> state_list)) in *.
  set (off := offset state_list i) in *.
  set (pad := λ r : list num,
         replicate off zero ++ r ++ replicate (D - (off + State_dof x_sub)) zero).
  exists (Arr2 D (pad <$> rows)), (Slice off (off + State_dof x_sub)).
  split; [|split; [|split; [|split; [|split]]]].
  - unfold CompositeMeasurementModel_jacobian. subst x.
    rewrite (get_state_by_id_first_match _ _ _ _ _ _ Hm). simpl.
    rewrite Hjac. simpl.
    rewrite (get_slice_by_id_first_match _ _ _ _ _ _ Hm). simpl.
    by apply setitem_cols_zeros.
  - by apply get_slice_by_id_first_match.
  - done.
  - simpl. by rewrite length_fmap.
  - simpl. apply Forall_fmap. revert Hwf. apply Forall_impl.
    intros r Hr. simpl. unfold pad. rewrite !length_app, !length_replicate. lia.
  - intros r c Hr Hc. simpl in Hc. fold D in Hc. simpl.
    rewrite list_lookup_fmap.
    destruct (lookup_lt_is_Some_2 rows r Hr) as [row Hrow]. rewrite Hrow. simpl.
    assert (length row = State_dof x_sub) as Hlen.
    { eapply (Forall_lookup_1 _ _ _ _ Hwf Hrow). }
    unfold pad. rewrite <- Hlen. rewrite padded_lookup by lia.
    unfold in_slice. simpl. rewrite Hlen.
    destruct (decide (off ≤ c < off + State_dof x_sub)); done.
Qed.

(** C1.  [CompositeState.jacobian_from_blocks] raises [TypeError] on every
    composite and every mapping: it subscripts the view returned by
    [block_dict.values()]. *)
Theorem CompositeState_jacobian_from_blocks_raises
    state_list stamp sid (block_dict : dict pyid ndarray) :
  CompositeState_jacobian_from_blocks
    (CompositeState_init state_list stamp sid) block_dict = Err TypeError.
Proof. reflexivity. Qed.

End scatter_claims.

Section model_claims.
Context `{Scalar} `{!Pylie} `{!Power _}.

Lemma round_half_even n : n `mod` 2 = 0 → 2 * round_half n = n.
Proof.
  intros Hn. unfold round_half. rewrite decide_True by done.
  pose proof (Nat.div_mod_eq n 2). lia.
Qed.

Lemma round_half_odd n : n `mod` 2 ≠ 0 → 2 * round_half n ≠ n.
Proof.
  intros Hn. unfold round_half. rewrite decide_False by done.
  pose proof (Nat.div_mod_eq n 2).
  pose proof (Nat.mod_upper_bound n 2 ltac:(lia)).
  case_decide; lia.
Qed.

(** An input of even size splits into two rows, both of which can be
    read; an input of odd size cannot be reshaped. *)
Lemma two_twists_even (u : StampedValue) :
  np_size (sv_value u) `mod` 2 = 0 →
  ∃ r u0 u1, two_twists u = Ok (Arr2 r [u0; u1]).
Proof.
  intros Hn. unfold two_twists, np_reshape.
  rewrite decide_True by (by apply round_half_even). by eexists _, _, _.
Qed.

Lemma two_twists_odd (u : StampedValue) :
  np_size (sv_value u) `mod` 2 ≠ 0 → two_twists u = Err ValueError.
Proof.
  intros Hn. unfold two_twists, np_reshape.
  by rewrite decide_False by (by apply round_half_odd).
Qed.

(** C7.  On a Lie-group state whose direction is ['left'], the Jacobian
    and the covariance of [BodyFrameVelocity] and the Jacobian of
    [RangePoseToAnchor] raise [NotImplementedError]; so do the Jacobian and
    the covariance of [RelativeBodyFrameVelocity] on an input that holds two
    twists (an even number of entries), and on any input whatsoever they
    raise and return no matrix. *)
Theorem left_direction_not_implemented
    (bfv : BodyFrameVelocity) (rbfv : RelativeBodyFrameVelocity)
    (rpa : RangePoseToAnchor) (x : State) (u : StampedValue) (dt : num) :
  State_direction x = Ok "left" →
  BodyFrameVelocity_jacobian bfv x u dt = Err NotImplementedError ∧
  BodyFrameVelocity_covariance bfv x u dt = Err NotImplementedError ∧
  RangePoseToAnchor_jacobian rpa x = Err NotImplementedError ∧
  (np_size (sv_value u) `mod` 2 = 0 →
     RelativeBodyFrameVelocity_jacobian rbfv x u dt = Err NotImplementedError ∧
     RelativeBodyFrameVelocity_covariance rbfv x u dt
       = Err NotImplementedError) ∧
  is_Err (RelativeBodyFrameVelocity_jacobian rbfv x u dt) ∧
  is_Err (RelativeBodyFrameVelocity_covariance rbfv x u dt).
Proof.
  intros Hdir.
  assert (np_size (sv_value u) `mod` 2 = 0 →
     RelativeBodyFrameVelocity_jacobian rbfv x u dt = Err NotImplementedError ∧
     RelativeBodyFrameVelocity_covariance rbfv x u dt
       = Err NotImplementedError) as Heven.
  { intros Hn. destruct (two_twists_even u Hn) as (r & u0 & u1 & Hu).
    unfold RelativeBodyFrameVelocity_jacobian,
      RelativeBodyFrameVelocity_covariance.
    rewrite Hu. simpl. rewrite Hdir. done. }
  unfold BodyFrameVelocity_jacobian, BodyFrameVelocity_covariance,
    RangePoseToAnchor_jacobian. rewrite Hdir. simpl.
  split; [done|]. split; [done|]. split; [done|]. split; [exact Heven|].
  destruct (decide (np_size (sv_value u) `mod` 2 = 0)) as [Hn|Hn].
  - destruct (Heven Hn) as [-> ->]. split; by eexists.
  - unfold RelativeBodyFrameVelocity_jacobian,
      RelativeBodyFrameVelocity_covariance.
    rewrite (two_twists_odd u Hn). split; by eexists.
Qed.

Lemma np_identity_entry n i j :
  i < n → j < n →
  entry (np_identity n) i j = Some (if decide (i = j) then one else zero).
Proof.
  intros Hi Hj. unfold np_identity, entry.
  rewrite list_lookup_fmap, lookup_seq_lt by done. simpl.
  rewrite list_lookup_fmap, lookup_seq_lt by done. done.
Qed.

(** C8.  For a model built from a square [Q] and a vector state object
    [x]: [evaluate] stores [x.value + dt * u.value] in [x] and returns [x]
    itself, and on a value [v] and an input [w] of the same length that sum
    is [v + dt·w] entry by entry; [jacobian] is the identity matrix of
    dimension [Q.shape[0]]; [covariance] is [dt ** 2] times [Q], entry by
    entry, where [dt ** 2] is Python's power: it is [dt·dt] when the power
    is exact, and when the power raises, as it does on a float too large
    to square, [covariance] raises the same error. *)
Theorem SingleIntegrator_spec (Q : ndarray) (self : SingleIntegrator)
    (σ : store) (x : ref) (u : StampedValue) (dt : num)
    (value : ndarray) dof stamp sid :
  SingleIntegrator_init Q = Ok self →
  σ x = VectorState value dof stamp sid →
  (∀ value', np_add value (np_lmul dt (sv_value u)) = Ok value' →
     SingleIntegrator_evaluate self x u dt σ =
       (Ok x, <[x := VectorState value' dof stamp sid]> σ)) ∧
  (∀ v w, value = Arr1 v → sv_value u = Arr1 w → length v = length w →
     np_add value (np_lmul dt (sv_value u)) =
       Ok (Arr1 (zip_with add v (mul dt <$> w)))) ∧
  (∃ n, shape_getitem Q 0 = Ok n ∧
        SingleIntegrator_jacobian self (σ x) u dt = np_identity n ∧
        ∀ i j, i < n → j < n →
          entry (SingleIntegrator_jacobian self (σ x) u dt) i j =
          Some (if decide (i = j) then one else zero)) ∧
  (∀ dt2, pow2 dt = Ok dt2 →
     SingleIntegrator_covariance self (σ x) u dt = Ok (np_map (mul dt2) Q) ∧
     ∀ i j q, entry Q i j = Some q →
       entry (np_map (mul dt2) Q) i j = Some (mul dt2 q)) ∧
  (PowerLaws _ _ →
     SingleIntegrator_covariance self (σ x) u dt
       = Ok (np_map (mul (mul dt dt)) Q)) ∧
  (∀ e, pow2 dt = Err e →
     SingleIntegrator_covariance self (σ x) u dt = Err e).
Proof.
  intros Hinit Hx. unfold SingleIntegrator_init in Hinit.
  destruct (shape_getitem Q 0) as [n|] eqn:Hn; [|done]. simpl in Hinit.
  destruct (shape_getitem Q 1) as [c|]; [|done]. simpl in Hinit.
  case_decide; [done|]. inversion Hinit; subst self. clear Hinit.
  split; [|split; [|split; [|split; [|split]]]].
  - intros value' Hadd.
    unfold SingleIntegrator_evaluate, mbind, M_bind, load, lift, save, mret,
      M_ret. rewrite Hx. simpl. rewrite Hadd. done.
  - intros v w -> -> Hlen. unfold np_add. simpl.
    rewrite bc_zip_same by (by rewrite length_fmap). done.
  - exists n. split; [done|]. split; [done|].
    intros i j Hi Hj. by apply np_identity_entry.
  - intros dt2 Hp. split.
    + unfold SingleIntegrator_covariance. rewrite Hp. done.
    + intros i j q. destruct Q as [|v|k rows]; [done|done|].
      unfold entry. cbn [np_map]. rewrite list_lookup_fmap.
      destruct (rows !! i) as [r|]; [|done]. simpl.
      rewrite list_lookup_fmap. by intros ->.
  - intros Hexact. unfold SingleIntegrator_covariance.
    rewrite (Hexact dt). done.
  - intros e Hp. unfold SingleIntegrator_covariance. rewrite Hp. done.
Qed.

Lemma np_matmul_square (n : nat) (ra rb : list (list num)) :
  length rb = n →
  Arr2 n ra @ Arr2 n rb
    = Ok (Arr2 n ((λ r : list num, dot r <$> columns n rb) <$> ra)).
Proof. intros Hn. unfold np_matmul. by rewrite decide_True. Qed.

(** C10.  [BodyFrameVelocity.evaluate] does not look at the direction.  On
    every Lie-group state object, whatever its direction, it multiplies the
    value on the right by [Exp] of the input scaled entry by entry by [dt]:
    when that product is defined it is stored in the object and the same
    object is returned, and when it is not the error is raised and the
    object is left alone.  The product is defined whenever the value has [n]
    columns and [Exp] returns an [n] by [n] matrix, and then the value keeps
    its shape.  With the direction ['left'], [jacobian] and [covariance]
    raise [NotImplementedError] on that very state. *)
Theorem BodyFrameVelocity_evaluate_any_direction
    (self : BodyFrameVelocity) (σ : store) (x : ref) (u : StampedValue)
    (dt : num) cls value group dof stamp sid (direction : string) :
  let step := Exp group (np_map (λ a, mul a dt) (sv_value u)) in
  let stored value' :=
    <[x := MatrixLieGroupState cls value' group dof stamp sid direction]> σ in
  σ x = MatrixLieGroupState cls value group dof stamp sid direction →
  (∀ value', value @ step = Ok value' →
     BodyFrameVelocity_evaluate self x u dt σ = (Ok x, stored value')) ∧
  (∀ e, value @ step = Err e →
     BodyFrameVelocity_evaluate self x u dt σ = (Err e, σ)) ∧
  (∀ n ra rb, value = Arr2 n ra → step = Arr2 n rb → length rb = n →
     ∃ value',
       value @ step = Ok value' ∧
       np_shape value' = np_shape value ∧
       BodyFrameVelocity_evaluate self x u dt σ = (Ok x, stored value')) ∧
  (direction = "left" →
     BodyFrameVelocity_jacobian self (σ x) u dt = Err NotImplementedError ∧
     BodyFrameVelocity_covariance self (σ x) u dt = Err NotImplementedError).
Proof.
  intros step stored Hx.
  assert (∀ value', value @ step = Ok value' →
            BodyFrameVelocity_evaluate self x u dt σ = (Ok x, stored value'))
    as Hrun.
  { intros value' Hmul. unfold step in Hmul.
    unfold BodyFrameVelocity_evaluate, mbind, M_bind, load, lift, save, mret,
      M_ret, np_rmul. rewrite Hx. simpl. rewrite Hmul. done. }
  split; [exact Hrun|]. split; [|split].
  - intros e Hmul. unfold step in Hmul.
    unfold BodyFrameVelocity_evaluate, mbind, M_bind, load, lift, save, mret,
      M_ret, np_rmul. rewrite Hx. simpl. rewrite Hmul. done.
  - intros n ra rb Hv Hs Hn. eexists. rewrite Hv, Hs.
    split; [by apply np_matmul_square|]. split.
    + simpl. by rewrite length_fmap.
    + rewrite Hv, Hs in Hrun. apply Hrun. by apply np_matmul_square.
  - intros ->. rewrite Hx.
    unfold BodyFrameVelocity_jacobian, BodyFrameVelocity_covariance. done.
Qed.

End model_claims.

Section Z_witnesses.
#[local] Existing Instance Z_scalar.
#[local] Existing Instance Z_power.
#[local] Existing Instance affine_pylie.

Lemma twin_first_match :
  first_match twin_states (IdInt 7) 1
    (VectorState (Zvec [2; 3]%Z) 2 (Some 4%Z) (IdInt 7)).
Proof.
  split; [reflexivity|]. split; [reflexivity|].
  intros [|j] y Hj Hlt; [|lia]. by inversion Hj.
Qed.

Lemma three_first_match :
  first_match three_states (IdInt 2) 1
    (VectorState (Zvec [20; 21]%Z) 2 None (IdInt 2)).
Proof.
  split; [reflexivity|]. split; [reflexivity|].
  intros [|j] y Hj Hlt; [|lia]. by inversion Hj.
Qed.

(** C6 on a composite in which two sub-states share the identifier 7 and
    none carries 9. *)
Lemma get_by_id_witness :
  let self := CompositeState_init twin_states None IdNone in
  Forall (λ x, State_state_id x ≠ IdInt 9) twin_states ∧
  first_match twin_states (IdInt 7) 1
    (VectorState (Zvec [2; 3]%Z) 2 (Some 4%Z) (IdInt 7)) ∧
  (get_index_by_id self (IdInt 9) = Err ValueError ∧
   get_slice_by_id self (IdInt 9) = Err ValueError ∧
   get_state_by_id self (IdInt 9) = Err ValueError) ∧
  (get_index_by_id self (IdInt 7) = Ok 1 ∧
   get_slice_by_id self (IdInt 7) = Ok (Slice 1 3) ∧
   get_state_by_id self (IdInt 7)
     = Ok (VectorState (Zvec [2; 3]%Z) 2 (Some 4%Z) (IdInt 7))).
Proof.
  intros self.
  assert (Forall (λ x, State_state_id x ≠ IdInt 9) twin_states) as Habs.
  { repeat constructor; discriminate. }
  split; [exact Habs|]. split; [exact twin_first_match|]. split.
  - destruct (get_by_id_first_match_or_error twin_states None IdNone (IdInt 9))
      as (Hraise & _ & _).
    exact (Hraise Habs).
  - destruct (get_by_id_first_match_or_error twin_states None IdNone (IdInt 7))
      as (_ & Hfind & _).
    exact (Hfind _ _ twin_first_match).
Defined.

(** C9 on the same composite. *)
Lemma get_dof_and_stamp_by_id_witness :
  let self := CompositeState_init twin_states None IdNone in
  Exists (λ x, State_state_id x = IdInt 7) twin_states ∧
  get_dof_by_id self (IdInt 7) = Err TypeError ∧
  get_stamp_by_id self (IdInt 7) = Err TypeError.
Proof.
  intros self.
  assert (Exists (λ x, State_state_id x = IdInt 7) twin_states) as Hex.
  { apply Exists_cons_tl, Exists_cons_hd. reflexivity. }
  split; [exact Hex|].
  exact (get_dof_and_stamp_by_id_raise twin_states None IdNone (IdInt 7) Hex).
Defined.

(** C2 on a composite of three sub-states, the model addressed to the
    middle one. *)
Lemma CompositeMeasurementModel_jacobian_witness :
  let self := {| CompositeMeasurementModel_model := direct_model;
                 CompositeMeasurementModel_state_id := IdInt 2 |} in
  let x := CompositeState_init three_states None IdNone in
  let x_sub := VectorState (Zvec [20; 21]%Z) 2 None (IdInt 2) in
  let jac_sub := Zmat 2 [[1; 0]; [0; 1]]%Z in
  first_match three_states (IdInt 2) 1 x_sub ∧
  jacobian direct_model x_sub = Ok jac_sub ∧
  wf_array jac_sub ∧
  ∃ jac slc,
    CompositeMeasurementModel_jacobian self x = Ok jac ∧
    get_slice_by_id x (IdInt 2) = Ok slc ∧
    slc = Slice 1 3 ∧
    np_shape jac = [2; 6] ∧
    wf_array jac ∧
    ∀ r c, r < 2 → c < 6 →
      entry jac r c =
      if decide (in_slice slc c) then entry jac_sub r (c - start slc)
      else Some 0%Z.
Proof.
  intros self x x_sub jac_sub.
  assert (wf_array jac_sub) as Hwf by (repeat constructor).
  split; [exact three_first_match|]. split; [reflexivity|].
  split; [exact Hwf|].
  exact (CompositeMeasurementModel_jacobian_scatter self three_states None
           IdNone 1 x_sub [[1; 0]; [0; 1]]%Z three_first_match eq_refl Hwf).
Defined.

(** The matrix itself: the 2×2 identity in columns 1 and 2 of 6. *)
Example CompositeMeasurementModel_jacobian_middle :
  CompositeMeasurementModel_jacobian
    {| CompositeMeasurementModel_model := direct_model;
       CompositeMeasurementModel_state_id := IdInt 2 |}
    (CompositeState_init three_states None IdNone)
  = Ok (Zmat 6 [[0; 1; 0; 0; 0; 0]; [0; 0; 1; 0; 0; 0]]%Z).
Proof. reflexivity. Qed.

(** C7 on a planar pose perturbed on the left and an input of two twists. *)
Lemma left_direction_not_implemented_witness :
  let bfv := {| BodyFrameVelocity_Q := np_identity 2 |} in
  let rbfv := {| RelativeBodyFrameVelocity_Q1 := np_identity 2;
                 RelativeBodyFrameVelocity_Q2 := np_identity 2 |} in
  let rpa := RangePoseToAnchor_init (Zvec [4; 0]%Z) (Zvec [0; 1]%Z) 1%Z in
  let u := {| sv_value := Zvec [1; 2; 3; 4]%Z; sv_stamp := None |} in
  let dt := 2%Z in
  State_direction left_pose = Ok "left" ∧
  BodyFrameVelocity_jacobian bfv left_pose u dt = Err NotImplementedError ∧
  BodyFrameVelocity_covariance bfv left_pose u dt = Err NotImplementedError ∧
  RangePoseToAnchor_jacobian rpa left_pose = Err NotImplementedError ∧
  (np_size (sv_value u) `mod` 2 = 0 →
     RelativeBodyFrameVelocity_jacobian rbfv left_pose u dt
       = Err NotImplementedError ∧
     RelativeBodyFrameVelocity_covariance rbfv left_pose u dt
       = Err NotImplementedError) ∧
  is_Err (RelativeBodyFrameVelocity_jacobian rbfv left_pose u dt) ∧
  is_Err (RelativeBodyFrameVelocity_covariance rbfv left_pose u dt).
Proof.
  intros bfv rbfv rpa u dt. split; [reflexivity|].
  exact (left_direction_not_implemented bfv rbfv rpa left_pose u dt eq_refl).
Defined.

(** An input of three entries does not hold two twists: the reshape
    raises before the direction is looked at. *)
Example RelativeBodyFrameVelocity_odd_input :
  RelativeBodyFrameVelocity_jacobian
    {| RelativeBodyFrameVelocity_Q1 := np_identity 2;
       RelativeBodyFrameVelocity_Q2 := np_identity 2 |}
    left_pose {| sv_value := Zvec [1; 2; 3]%Z; sv_stamp := None |} 2%Z
  = Err ValueError.
Proof. reflexivity. Qed.

(** C10 on the same pose: the left direction does not stop [evaluate].
    The input [[1, 2]] over a time step of 3 is the twist [[3, 6]], and the
    value [[-1, 3], [0, 1]] times [[-1, 6], [0, 1]] is stored. *)
Lemma BodyFrameVelocity_evaluate_witness :
  let self := {| BodyFrameVelocity_Q := np_identity 2 |} in
  let σ := store_of left_pose in
  let u := {| sv_value := Zvec [1; 2]%Z; sv_stamp := None |} in
  let dt := 3%Z in
  σ 0 = MatrixLieGroupState SE2State (affine (-1) 3) affine_group 2
          None (IdInt 0) "left" ∧
  Exp affine_group (Zvec [3; 6]%Z) = affine (-1) 6 ∧
  affine (-1) 3 @ affine (-1) 6 = Ok (affine 1 (-3)) ∧
  BodyFrameVelocity_evaluate self 0 u dt σ =
    (Ok 0, <[0 := MatrixLieGroupState SE2State (affine 1 (-3)) affine_group 2
                    None (IdInt 0) "left"]> σ) ∧
  (∃ value',
     affine (-1) 3 @ affine (-1) 6 = Ok value' ∧
     np_shape value' = [2; 2] ∧
     BodyFrameVelocity_evaluate self 0 u dt σ =
       (Ok 0, <[0 := MatrixLieGroupState SE2State value' affine_group 2
                       None (IdInt 0) "left"]> σ)) ∧
  BodyFrameVelocity_jacobian self (σ 0) u dt = Err NotImplementedError ∧
  BodyFrameVelocity_covariance self (σ 0) u dt = Err NotImplementedError.
Proof.
  intros self σ u dt.
  destruct (BodyFrameVelocity_evaluate_any_direction self σ 0 u dt
              SE2State (affine (-1) 3) affine_group 2 None (IdInt 0) "left"
              eq_refl) as (Hrun & _ & Hshape & Hleft).
  split; [reflexivity|]. split; [reflexivity|]. split; [reflexivity|].
  split; [exact (Hrun (affine 1 (-3)) eq_refl)|].
  split; [exact (Hshape 2 _ _ eq_refl eq_refl eq_refl)|].
  exact (Hleft eq_refl).
Defined.

(** The value stored by that call: [[-1, 3], [0, 1]] times [[-1, 6], [0, 1]]. *)
Example BodyFrameVelocity_evaluate_left :
  BodyFrameVelocity_evaluate {| BodyFrameVelocity_Q := np_identity 2 |} 0
    {| sv_value := Zvec [1; 2]%Z; sv_stamp := None |} 3%Z (store_of left_pose)
  = (Ok 0, <[0 := MatrixLieGroupState SE2State (affine 1 (-3)) affine_group 2
                    None (IdInt 0) "left"]> (store_of left_pose)).
Proof. reflexivity. Qed.

(** Over the integers the power is exact: a time step of 3 gives nine
    times [Q]. *)
Example SingleIntegrator_covariance_exact :
  SingleIntegrator_covariance
    {| SingleIntegrator_Q := np_identity 2; SingleIntegrator_dim := 2 |}
    (VectorState_init (Zvec [0; 0]%Z) None IdNone)
    {| sv_value := Zvec [1; 0]%Z; sv_stamp := None |} 3%Z
  = Ok (Zmat 2 [[9; 0]; [0; 9]]%Z).
Proof. reflexivity. Qed.

End Z_witnesses.

Section float_scenarios.
#[local] Existing Instance float64.
#[local] Existing Instance rounded_power.

(** C8 on the scenario: the state becomes [[0.5, 0]], the Jacobian is the
    2×2 identity, the covariance a quarter of it. *)
Lemma SingleIntegrator_scenario :
  let σ := λ _ : ref, scenario_x in
  ∃ self,
    SingleIntegrator_init scenario_Q = Ok self ∧
    σ 0 = VectorState (Fvec [0; 0]%float) 2 None IdNone ∧
    SingleIntegrator_evaluate self 0 scenario_u scenario_dt σ =
      (Ok 0, <[0 := VectorState (Fvec [0.5; 0]%float) 2 None IdNone]> σ) ∧
    SingleIntegrator_jacobian self (σ 0) scenario_u scenario_dt
      = Fmat 2 [[1; 0]; [0; 1]]%float ∧
    pow2 scenario_dt = Ok 0.25%float ∧
    SingleIntegrator_covariance self (σ 0) scenario_u scenario_dt
      = Ok (Fmat 2 [[0.25; 0]; [0; 0.25]]%float).
Proof.
  intros σ.
  exists {| SingleIntegrator_Q := scenario_Q; SingleIntegrator_dim := 2 |}.
  destruct (SingleIntegrator_spec scenario_Q
              {| SingleIntegrator_Q := scenario_Q; SingleIntegrator_dim := 2 |}
              σ 0 scenario_u scenario_dt
              (Fvec [0; 0]%float) 2 None IdNone eq_refl eq_refl)
    as (Hev & _ & (n & Hn & Hjac & _) & Hcov & _ & _).
  split; [reflexivity|]. split; [reflexivity|].
  split; [exact (Hev (Fvec [0.5; 0]%float) eq_refl)|].
  split; [inversion Hn; subst n; exact Hjac|].
  split; [reflexivity|].
  exact (proj1 (Hcov 0.25%float eq_refl)).
Defined.

(** With a time step of [2^600], whose square is not a float, [covariance]
    does not return [dt·dt] times [Q], which would be a matrix of infinities
    and zeros: it raises [OverflowError]. *)
Lemma SingleIntegrator_covariance_overflow :
  let self := {| SingleIntegrator_Q := scenario_Q; SingleIntegrator_dim := 2 |} in
  let dt := 0x1p+600%float in
  SingleIntegrator_init scenario_Q = Ok self ∧
  SingleIntegrator_covariance self scenario_x scenario_u dt
    = Err OverflowError ∧
  SingleIntegrator_covariance self scenario_x scenario_u dt
    ≠ Ok (np_map (mul (mul dt dt)) scenario_Q).
Proof. split; [reflexivity|]. split; [reflexivity|discriminate]. Qed.

(** The power is not the product: on the platform of [rounded_power] the
    two agree, but a platform may return the neighbouring float, as one
    does at [2.759], and the covariance follows the platform. *)
Example SingleIntegrator_covariance_follows_pow :
  let self := {| SingleIntegrator_Q := Fmat 1 [[1]]%float;
                 SingleIntegrator_dim := 1 |} in
  let dt := 0x1.6126e978d4fdfp+1%float in
  let neighbour (a : float) := (PrimFloat.next_down (a * a), false) in
  (dt * dt)%float = 0x1.e72c55c96030cp+2%float ∧
  @SingleIntegrator_covariance float64 (float64_power neighbour) self
     scenario_x scenario_u dt
  = Ok (Fmat 1 [[0x1.e72c55c96030bp+2]]%float).
Proof. split; reflexivity. Qed.

(** In binary64 the round trip of a vector state is exact only up to
    rounding: [2^-60 - 1] rounds to [-1], and [1 + -1] is [0]. *)
Example vector_round_trip_rounds :
  let x := VectorState (Fvec [0x1p-60]%float) 1 None IdNone in
  let y := VectorState (Fvec [1]%float) 1 None IdNone in
  minus x y = Ok (Fvec [-1]%float) ∧
  plus y (Fvec [-1]%float) = Ok (VectorState (Fvec [0]%float) 1 None IdNone).
Proof. split; reflexivity. Qed.

(** C4.  On a composite of two vector states of 1 and 2 degrees of
    freedom, [plus] with a step of length 3 succeeds, and [minus] against
    the composite as it was raises [ValueError]: [np.vstack] is handed
    arrays of shapes (1,) and (2,).  On two vector states of 2 degrees of
    freedom each, [minus] returns a 2×2 matrix, not the step of length 4. *)
Theorem CompositeState_minus_after_plus_vectors :
  let x := CompositeState_init uneven_states None IdNone in
  let y := CompositeState_init even_states None IdNone in
  (∃ x', CompositeState_plus x uneven_dx None = Ok x' ∧
         CompositeState_minus x' x = Err ValueError) ∧
  (∃ y', CompositeState_plus y even_dx None = Ok y' ∧
         CompositeState_minus y' y = Ok (Fmat 2 [[1; 2]; [3; 4]]%float)).
Proof.
  split.
  - eexists. split; reflexivity.
  - eexists. split; reflexivity.
Qed.

End float_scenarios.

(** * Further properties of the composite state *)

Section composite_updates.
Context `{Scalar} `{!Pylie}.

Implicit Types (state_list value : list State) (x : State) (state_id : pyid).

Lemma plus_composite value stamp state_id slices dx :
  plus (CompositeState value stamp state_id slices) dx =
  (value' ← plus_each dx value slices;
   Ok (CompositeState value' stamp state_id slices)).
Proof.
  cbn [plus]. f_equal.
  revert slices. induction value as [|x value IH]; intros [|s slices]; try done.
  cbn [plus_each]. destruct (getitem_slice dx s); [|done]. simpl.
  destruct (plus x a); [|done]. simpl. by rewrite <- IH.
Qed.

Lemma minus_composite value st1 id1 sl1 x_value st2 id2 sl2 :
  minus (CompositeState value st1 id1 sl1) (CompositeState x_value st2 id2 sl2)
  = (dx ← minus_each value x_value; np_vstack dx).
Proof.
  reflexivity.
Qed.

Lemma plus_same_identity x dx x' : plus x dx = Ok x' → same_identity x x'.
Proof.
  revert dx x'. induction x as [value dof stamp sid
    |cls value group dof stamp sid direction
    |value stamp sid slices IH] using State_ind_nested; intros dx x' Hp.
  - simpl in Hp. destruct (VectorState_plus value dx); [|done].
    by inversion Hp.
  - simpl in Hp.
    destruct (MatrixLieGroupState_plus value group direction dx); [|done].
    by inversion Hp.
  - rewrite plus_composite in Hp.
    destruct (plus_each dx value slices) as [value'|] eqn:Hv; [|done].
    inversion Hp; subst x'. clear Hp. split; [|done]. simpl. f_equal.
    revert slices value' Hv.
    induction IH as [|x value Hx _ IHl]; intros [|s slices] value' Hv;
      simpl in Hv; try (by inversion Hv).
    destruct (getitem_slice dx s); [|done]. simpl in Hv.
    destruct (plus x a) as [x'|] eqn:Hx'; [|done]. simpl in Hv.
    destruct (plus_each dx value slices) as [rest|] eqn:Hr; [|done].
    inversion Hv; subst value'. rewrite !fmap_cons. f_equal.
    + by destruct (Hx _ _ Hx').
    + by eapply IHl.
Qed.

Lemma plus_each_Forall2 dx value slices value' :
  plus_each dx value slices = Ok value' → Forall2 same_identity value value'.
Proof.
  revert slices value'. induction value as [|x value IH];
    intros [|s slices] value' Hv; simpl in Hv; try (by inversion Hv).
  - inversion Hv. apply Forall2_same_length_lookup. split; [done|].
    intros i y y' Hy Hy'. rewrite Hy in Hy'. inversion Hy'; subst y'. done.
  - destruct (getitem_slice dx s); [|done]. simpl in Hv.
    destruct (plus x a) as [x'|] eqn:Hx'; [|done]. simpl in Hv.
    destruct (plus_each dx value slices) as [rest|] eqn:Hr; [|done].
    inversion Hv. constructor; [by eapply plus_same_identity|by eapply IH].
Qed.

(** The slice table depends on the degrees of freedom alone. *)
Lemma init_slices_ext value value' :
  State_dof <$> value = State_dof <$> value' →
  init_slices value = init_slices value'.
Proof.
  intros Hd. assert (length value = length value') as Hlen.
  { by rewrite <- (length_fmap State_dof value), Hd, length_fmap. }
  apply list_eq. intros i.
  destruct (value !! i) as [x|] eqn:Hx.
  - assert (is_Some (value' !! i)) as [x' Hx'].
    { apply lookup_lt_is_Some. rewrite <- Hlen. by eapply lookup_lt_Some. }
    rewrite (init_slices_lookup _ _ _ Hx), (init_slices_lookup _ _ _ Hx').
    assert (State_dof x = State_dof x') as ->.
    { apply (f_equal (λ l, l !! i)) in Hd.
      rewrite !list_lookup_fmap, Hx, Hx' in Hd. by inversion Hd. }
    unfold offset. by rewrite !fmap_take, Hd.
  - apply lookup_ge_None in Hx.
    rewrite !(proj2 (lookup_ge_None _ _)); [done| |];
      rewrite init_slices_length; lia.
Qed.

Lemma Forall2_same_identity_dof value value' :
  Forall2 same_identity value value' →
  State_dof <$> value = State_dof <$> value'.
Proof.
  induction 1 as [|x x' l l' (Hd & _) _ IH]; [done|].
  rewrite !fmap_cons. by f_equal.
Qed.

Lemma set_stamp_same_dof value t :
  State_dof <$> ((λ x, State_set_stamp x t) <$> value) = State_dof <$> value.
Proof.
  rewrite <- list_fmap_compose. apply list_fmap_ext.
  intros i x _. by destruct x.
Qed.

(** X1.  [CompositeState.plus] keeps the composite's structure: when it
    succeeds on a composite built by the constructor, the result is the
    composite the constructor would build from the updated sub-states, with
    the same stamp and identifier; there are as many sub-states, each with
    the degrees of freedom and the identifier it had; so the slice table
    still matches the sub-states and the total [dof] is unchanged. *)
Theorem CompositeState_plus_keeps_structure
    state_list stamp sid dx new_stamp self' :
  CompositeState_plus (CompositeState_init state_list stamp sid) dx new_stamp
    = Ok self' →
  ∃ value',
    self' = CompositeState_init value' stamp sid ∧
    length value' = length state_list ∧
    Forall2 (λ x x', State_dof x' = State_dof x ∧
                     State_state_id x' = State_state_id x)
      state_list value' ∧
    State_dof self' = State_dof (CompositeState_init state_list stamp sid).
Proof.
  unfold CompositeState_plus, CompositeState_init.
  intros Hp. cbn [CompositeState_value mbind result_bind] in Hp.
  rewrite plus_composite in Hp.
  destruct (plus_each dx state_list (init_slices state_list))
    as [value1|] eqn:Hv; [|done]. simpl in Hp.
  pose proof (plus_each_Forall2 _ _ _ _ Hv) as HF.
  pose proof (Forall2_same_identity_dof _ _ HF) as Hd.
  destruct new_stamp as [t|].
  - simpl in Hp. inversion Hp; subst self'. clear Hp.
    exists ((λ x, State_set_stamp x (Some t)) <$> value1).
    split; [|split; [|split]].
    + f_equal. apply init_slices_ext.
      by rewrite set_stamp_same_dof.
    + rewrite length_fmap. symmetry. by eapply Forall2_length.
    + apply Forall2_fmap_r. revert HF. apply Forall2_impl.
      intros x x' (Hdof & Hid & _). by destruct x'.
    + simpl. by rewrite set_stamp_same_dof, Hd.
  - inversion Hp; subst self'. clear Hp. exists value1.
    split; [|split; [|split]].
    + f_equal. by apply init_slices_ext.
    + symmetry. by eapply Forall2_length.
    + revert HF. apply Forall2_impl. by intros x x' (? & ? & _).
    + simpl. by rewrite Hd.
Qed.

(** X2.  What [CompositeState.plus] does to time stamps.  Without a
    [new_stamp] no stamp changes, neither a sub-state's nor the
    composite's.  With one, every sub-state ends with that stamp, while the
    composite's own stamp stays what it was. *)
Theorem CompositeState_plus_stamps state_list stamp sid dx new_stamp self' :
  CompositeState_plus (CompositeState_init state_list stamp sid) dx new_stamp
    = Ok self' →
  State_stamp self' = stamp ∧
  ∃ value',
    CompositeState_value self' = Ok value' ∧
    match new_stamp with
    | None => State_stamp <$> value' = State_stamp <$> state_list
    | Some t => Forall (λ x, State_stamp x = Some t) value'
    end.
Proof.
  unfold CompositeState_plus, CompositeState_init.
  intros Hp. cbn [CompositeState_value mbind result_bind] in Hp.
  rewrite plus_composite in Hp.
  destruct (plus_each dx state_list (init_slices state_list))
    as [value1|] eqn:Hv; [|done]. simpl in Hp.
  pose proof (plus_each_Forall2 _ _ _ _ Hv) as HF.
  destruct new_stamp as [t|]; simpl in Hp; inversion Hp; subst self'; clear Hp.
  - split; [done|]. eexists. split; [done|].
    apply Forall_fmap, Forall_true. intros x. by destruct x.
  - split; [done|]. exists value1. split; [done|].
    clear Hv. induction HF as [|x x' l l' (_ & _ & Hs) _ IH]; [done|].
    rewrite !fmap_cons. by f_equal.
Qed.

Lemma list_getitem_Some {A} (l : list A) i y :
  l !! i = Some y → list_getitem l i = Ok y.
Proof. intros Hl. unfold list_getitem. by rewrite Hl. Qed.

Lemma CompositeState_value_init state_list stamp sid :
  CompositeState_value (CompositeState_init state_list stamp sid)
    = Ok state_list.
Proof. reflexivity. Qed.

Lemma CompositeState_setitem_init state_list stamp sid i x x' :
  state_list !! i = Some x → State_dof x' = State_dof x →
  CompositeState_setitem (CompositeState_init state_list stamp sid) i x' =
  Ok (CompositeState_init (<[i:=x']> state_list) stamp sid).
Proof.
  intros Hi Hd. unfold CompositeState_setitem, CompositeState_init.
  rewrite decide_True by (by eapply lookup_lt_Some). do 2 f_equal.
  apply init_slices_ext. rewrite list_fmap_insert, Hd.
  symmetry. apply list_insert_id. by rewrite list_lookup_fmap, Hi.
Qed.

Lemma first_match_insert state_list state_id i x x' :
  first_match state_list state_id i x →
  State_state_id x' = state_id →
  first_match (<[i:=x']> state_list) state_id i x'.
Proof.
  intros (Hi & Hid & Hfirst) Hid'. split; [|split; [done|]].
  - apply list_lookup_insert_eq. by eapply lookup_lt_Some.
  - intros j y Hj Hlt. rewrite list_lookup_insert_ne in Hj by lia.
    by eapply Hfirst.
Qed.

(** X3.  [CompositeState.plus_by_id] raises [ValueError] when no
    sub-state carries the identifier.  Otherwise it updates the first
    sub-state that carries it, and only that one: the result is the
    composite with that sub-state replaced by its [plus] (stamped with
    [new_stamp] when one is given), every other sub-state and the slice
    table as they were; and when the sub-state's own [plus] raises, so
    does [plus_by_id], with the same error. *)
Theorem plus_by_id_first_match state_list stamp sid dx state_id new_stamp :
  let self := CompositeState_init state_list stamp sid in
  (Forall (λ x, State_state_id x ≠ state_id) state_list →
     plus_by_id self dx state_id new_stamp = Err ValueError) ∧
  (∀ i x, first_match state_list state_id i x →
     match plus x dx with
     | Ok x' =>
         plus_by_id self dx state_id new_stamp =
         Ok (CompositeState_init
               (<[i := match new_stamp with
                       | None => x'
                       | Some t => State_set_stamp x' (Some t)
                       end]> state_list) stamp sid)
     | Err e => plus_by_id self dx state_id new_stamp = Err e
     end).
Proof.
  intros self. split.
  - intros Habs. unfold plus_by_id, get_index_by_id. simpl.
    by rewrite list_index_absent.
  - intros i x Hm. unfold plus_by_id. subst self.
    rewrite (get_index_by_id_first_match _ _ _ _ _ _ Hm).
    rewrite CompositeState_value_init. cbn [mbind result_bind].
    pose proof Hm as (Hi & Hid & _). rewrite (list_getitem_Some _ _ _ Hi).
    cbn [mbind result_bind].
    destruct (plus x dx) as [x'|e] eqn:Hx'; [|done].
    destruct (plus_same_identity _ _ _ Hx') as (Hd & Hid' & _).
    cbn [mbind result_bind].
    rewrite (CompositeState_setitem_init _ _ _ _ _ _ Hi Hd).
    cbn [mbind result_bind].
    destruct new_stamp as [t|]; [|done].
    assert (first_match (<[i:=x']> state_list) state_id i x') as Hm'.
    { apply (first_match_insert _ _ _ x); [done|congruence]. }
    unfold set_stamp_by_id.
    rewrite (get_index_by_id_first_match _ _ _ _ _ _ Hm').
    rewrite CompositeState_value_init. cbn [mbind result_bind].
    destruct Hm' as (Hi' & _). rewrite (list_getitem_Some _ _ _ Hi').
    cbn [mbind result_bind].
    rewrite (CompositeState_setitem_init _ _ _ _ x'); [|done|by destruct x'].
    by rewrite list_insert_insert_eq.
Qed.

(** X4.  [CompositeState.set_stamp_by_id] stamps the first sub-state that
    carries the identifier and nothing else; it raises [ValueError] when
    there is none. *)
Theorem set_stamp_by_id_first_match state_list stamp sid t state_id :
  let self := CompositeState_init state_list stamp sid in
  (Forall (λ x, State_state_id x ≠ state_id) state_list →
     set_stamp_by_id self t state_id = Err ValueError) ∧
  (∀ i x, first_match state_list state_id i x →
     set_stamp_by_id self t state_id =
     Ok (CompositeState_init (<[i := State_set_stamp x t]> state_list)
           stamp sid)).
Proof.
  intros self. split.
  - intros Habs. unfold set_stamp_by_id, get_index_by_id. simpl.
    by rewrite list_index_absent.
  - intros i x Hm. unfold set_stamp_by_id. subst self.
    rewrite (get_index_by_id_first_match _ _ _ _ _ _ Hm).
    rewrite CompositeState_value_init. cbn [mbind result_bind].
    pose proof Hm as (Hi & _). rewrite (list_getitem_Some _ _ _ Hi).
    cbn [mbind result_bind].
    apply (CompositeState_setitem_init _ _ _ _ x); [done|by destruct x].
Qed.

End composite_updates.

Section copies.
Context `{Scalar} `{!Pylie}.

Lemma mapM_fixed {A} (f : A → result A) (l : list A) :
  Forall (λ x, f x = Ok x) l → mapM f l = Ok l.
Proof.
  induction 1 as [|x l Hx _ IH]; [done|].
  change (mapM f (x :: l)) with
    (f x ≫= λ y, mapM f l ≫= λ k, mret (y :: k)).
  by rewrite Hx, IH.
Qed.

Lemma mapM_Ok_Forall2 {A B} (f : A → result B) (l : list A) (k : list B) :
  mapM f l = Ok k → Forall2 (λ x y, f x = Ok y) l k.
Proof.
  revert k. induction l as [|x l IH]; intros k Hk.
  - inversion Hk. constructor.
  - change (mapM f (x :: l)) with
      (f x ≫= λ y, mapM f l ≫= λ k, mret (y :: k)) in Hk.
    destruct (f x) as [y|] eqn:Hy; [|done]. simpl in Hk.
    destruct (mapM f l) as [k'|]; [|done]. inversion Hk.
    constructor; [done|by apply IH].
Qed.

Lemma copy_composite value stamp sid slices :
  copy (CompositeState value stamp sid slices) =
  (value' ← mapM copy value; Ok (CompositeState_init value' stamp sid)).
Proof. reflexivity. Qed.

(** X5.  A copy is a fixed point of [copy]: copying it again returns the
    same state.  A copy also keeps the stamp and the identifier of the
    original. *)
Theorem copy_idempotent (x x' : State) :
  copy x = Ok x' →
  copy x' = Ok x' ∧
  State_stamp x' = State_stamp x ∧
  State_state_id x' = State_state_id x.
Proof.
  revert x'. induction x as [value dof stamp sid
    |cls value group dof stamp sid direction
    |value stamp sid slices IH] using State_ind_nested; intros x' Hc.
  - inversion Hc; subst x'. done.
  - destruct cls; simpl in Hc; inversion Hc; subst x'; done.
  - rewrite copy_composite in Hc.
    destruct (mapM copy value) as [value'|] eqn:Hv; [|done].
    inversion Hc; subst x'. clear Hc. split; [|done].
    unfold CompositeState_init. rewrite copy_composite.
    rewrite mapM_fixed; [done|].
    apply mapM_Ok_Forall2 in Hv. clear -IH Hv.
    induction Hv as [|y y' l l' Hy _ IHl]; [done|].
    inversion IH as [|? ? Hy0 IH']; subst.
    constructor; [by apply (Hy0 _ Hy)|by apply IHl].
Qed.

Lemma copy_constructed (x : State) : constructed x → copy x = Ok x.
Proof. by destruct 1. Qed.

(** X7.  A composite of states built by [VectorState] and by the five
    group classes is its own copy: [copy] returns an equal composite, slice
    table included. *)
Theorem copy_composite_fixed state_list stamp sid :
  Forall constructed state_list →
  copy (CompositeState_init state_list stamp sid)
    = Ok (CompositeState_init state_list stamp sid).
Proof.
  intros Hc. unfold CompositeState_init at 1. rewrite copy_composite.
  rewrite mapM_fixed; [done|].
  revert Hc. apply Forall_impl. apply copy_constructed.
Qed.

End copies.

(** * Further properties of the measurement models *)

Section measurement_facts.
Context `{Scalar} `{!Pylie}.

(** X8.  A Lie-group state whose direction is neither ['right'] nor
    ['left'] is treated in three different ways: [plus] and [minus] raise
    [ValueError], whatever the step and whatever state [minus] is given;
    the Jacobians of [BodyFrameVelocity] and
    [RangePoseToAnchor] raise [NotImplementedError]; the Jacobians of
    [Altitude] and [Gravity], and that of [GlobalPosition] once the
    attitude can be read, raise nothing and return [None]. *)
Theorem unknown_direction_handling
    (gp : GlobalPosition) (alt : Altitude) (grav : Gravity)
    (bfv : BodyFrameVelocity) (rpa : RangePoseToAnchor)
    cls value group dof stamp sid (direction : string)
    (dx : ndarray) (y : State) (u : StampedValue) (dt : num) :
  let x := MatrixLieGroupState cls value group dof stamp sid direction in
  direction ≠ "right" → direction ≠ "left" →
  plus x dx = Err ValueError ∧
  minus x y = Err ValueError ∧
  BodyFrameVelocity_jacobian bfv x u dt = Err NotImplementedError ∧
  RangePoseToAnchor_jacobian rpa x = Err NotImplementedError ∧
  Altitude_jacobian alt x = Ok None ∧
  Gravity_jacobian grav x = Ok None ∧
  (∀ a, attitude x = Ok a → GlobalPosition_jacobian gp x = Ok None).
Proof.
  intros x Hr Hl. subst x.
  split; [|split; [|split; [|split; [|split; [|split]]]]].
  - simpl. unfold MatrixLieGroupState_plus.
    by rewrite !decide_False by done.
  - simpl. unfold MatrixLieGroupState_minus.
    by rewrite !decide_False by done.
  - unfold BodyFrameVelocity_jacobian. simpl. by rewrite decide_False by done.
  - unfold RangePoseToAnchor_jacobian. simpl. by rewrite decide_False by done.
  - unfold Altitude_jacobian. simpl. by rewrite !decide_False by done.
  - unfold Gravity_jacobian. simpl. by rewrite !decide_False by done.
  - intros a Ha. unfold GlobalPosition_jacobian. rewrite Ha.
    cbn [mbind result_bind State_direction]. by rewrite !decide_False by done.
Qed.

Lemma list_getslice_length {A} (l : list A) n :
  length (list_getslice l (Slice 0 n)) ≤ n.
Proof. unfold list_getslice. simpl. rewrite length_take. lia. Qed.

Lemma list_getitem_ge {A} (l : list A) i :
  length l ≤ i → list_getitem l i = Err IndexError.
Proof.
  intros Hl. unfold list_getitem. by rewrite (proj2 (lookup_ge_None _ _)).
Qed.

(** X9.  [Altitude] reads the third coordinate, which a planar pose does
    not have: on every [SE2State], [evaluate] raises [IndexError], and so
    does [jacobian] in the right direction. *)
Theorem Altitude_on_planar_pose (alt : Altitude)
    value group dof stamp sid (direction : string) :
  let x := MatrixLieGroupState SE2State value group dof stamp sid direction in
  Altitude_evaluate alt x = Err IndexError ∧
  (direction = "right" → Altitude_jacobian alt x = Err IndexError).
Proof.
  intros x. subst x. split.
  - unfold Altitude_evaluate. simpl.
    destruct value as [?|?|c rows]; try done. simpl.
    case_decide; [|done]. simpl.
    rewrite list_getitem_ge; [done|].
    rewrite length_fmap. apply list_getslice_length.
  - intros ->. unfold Altitude_jacobian. simpl.
    destruct value as [?|?|c rows]; try done. simpl.
    rewrite list_getitem_ge; [done|].
    rewrite length_fmap. apply list_getslice_length.
Qed.

(** X10.  Models that read a position raise [NotImplementedError] on
    states that have none, the rotations [SO2State] and [SO3State] and the
    base class: [RangePoseToAnchor.evaluate], its [jacobian] in the right
    direction, [GlobalPosition.evaluate] and [Altitude.evaluate].  On a
    vector state the same calls raise [AttributeError]. *)
Theorem position_required
    (rpa : RangePoseToAnchor) (gp : GlobalPosition) (alt : Altitude)
    (x : State) :
  (∀ cls value group dof stamp sid direction,
     x = MatrixLieGroupState cls value group dof stamp sid direction →
     cls = MatrixLieGroupState_ ∨ cls = SO2State ∨ cls = SO3State →
     RangePoseToAnchor_evaluate rpa x = Err NotImplementedError ∧
     (direction = "right" →
        RangePoseToAnchor_jacobian rpa x = Err NotImplementedError) ∧
     GlobalPosition_evaluate gp x = Err NotImplementedError ∧
     Altitude_evaluate alt x = Err NotImplementedError) ∧
  (∀ value dof stamp sid,
     x = VectorState value dof stamp sid →
     RangePoseToAnchor_evaluate rpa x = Err AttributeError ∧
     RangePoseToAnchor_jacobian rpa x = Err AttributeError ∧
     GlobalPosition_evaluate gp x = Err AttributeError ∧
     Altitude_evaluate alt x = Err AttributeError).
Proof.
  split.
  - intros cls value group dof stamp sid direction -> Hcls.
    assert (position (MatrixLieGroupState cls value group dof stamp sid
                        direction) = Err NotImplementedError) as Hp.
    { by destruct Hcls as [-> | [-> | ->]]. }
    unfold RangePoseToAnchor_evaluate, RangePoseToAnchor_jacobian,
      GlobalPosition_evaluate, Altitude_evaluate. rewrite Hp.
    split; [done|]. split; [|done]. intros ->. done.
  - intros value dof stamp sid ->. done.
Qed.

(** X11.  [CompositeMeasurementModel] addresses the first sub-state that
    carries its identifier: [evaluate] and [covariance] return what the
    wrapped model returns on that sub-state.  When no sub-state carries the
    identifier, [evaluate], [jacobian] and [covariance] all raise
    [ValueError], whatever the wrapped model is. *)
Theorem CompositeMeasurementModel_addressing
    (self : CompositeMeasurementModel) state_list stamp sid :
  let x := CompositeState_init state_list stamp sid in
  let model := CompositeMeasurementModel_model self in
  let state_id := CompositeMeasurementModel_state_id self in
  (Forall (λ x_sub, State_state_id x_sub ≠ state_id) state_list →
     CompositeMeasurementModel_evaluate self x = Err ValueError ∧
     CompositeMeasurementModel_jacobian self x = Err ValueError ∧
     CompositeMeasurementModel_covariance self x = Err ValueError) ∧
  (∀ i x_sub, first_match state_list state_id i x_sub →
     CompositeMeasurementModel_evaluate self x = evaluate model x_sub ∧
     CompositeMeasurementModel_covariance self x = covariance model x_sub).
Proof.
  intros x model state_id. split.
  - intros Habs.
    assert (get_state_by_id x state_id = Err ValueError) as Hs.
    { unfold get_state_by_id, get_index_by_id. simpl.
      by rewrite list_index_absent. }
    unfold CompositeMeasurementModel_evaluate,
      CompositeMeasurementModel_jacobian, CompositeMeasurementModel_covariance.
    fold state_id. by rewrite Hs.
  - intros i x_sub Hm.
    unfold CompositeMeasurementModel_evaluate,
      CompositeMeasurementModel_covariance. fold state_id. subst x.
    by rewrite (get_state_by_id_first_match _ _ _ _ _ _ Hm).
Qed.

End measurement_facts.

Section block_assembly.
Context `{Scalar} `{!Pylie}.

Lemma np_block_pair c1 (r1 : list (list num)) c2 r2 :
  length r2 = length r1 →
  np_block [Arr2 c1 r1; Arr2 c2 r2] = Ok (Arr2 (c1 + c2) (zip_with app r1 r2)).
Proof.
  intros Hlen. unfold np_block. simpl.
  destruct (decide (Forall (λ b : ndarray, rank b ≤ 1)
                      [Arr2 c1 r1; Arr2 c2 r2])) as [Hf|_].
  { inversion Hf as [|? ? Hr _]. unfold rank in Hr. simpl in Hr. lia. }
  rewrite decide_True by (by repeat constructor).
  do 2 f_equal. lia.
Qed.

Lemma np_block_triple c1 (r1 : list (list num)) c2 r2 c3 r3 :
  length r2 = length r1 → length r3 = length r1 →
  np_block [Arr2 c1 r1; Arr2 c2 r2; Arr2 c3 r3]
    = Ok (Arr2 (c1 + c2 + c3) (zip_with app (zip_with app r1 r2) r3)).
Proof.
  intros Hl2 Hl3. unfold np_block. simpl.
  destruct (decide (Forall (λ b : ndarray, rank b ≤ 1)
                      [Arr2 c1 r1; Arr2 c2 r2; Arr2 c3 r3])) as [Hf|_].
  { inversion Hf as [|? ? Hr _]. unfold rank in Hr. simpl in Hr. lia. }
  rewrite decide_True by (by repeat constructor).
  do 2 f_equal. lia.
Qed.

Lemma zip_with_app_zeros (m w : nat) (rows : list (list num)) :
  length rows ≤ m →
  zip_with app (replicate m (replicate w zero)) rows =
  (λ r, replicate w zero ++ r) <$> rows.
Proof. intros Hm. by apply zip_with_replicate_l. Qed.

(** Only [position] given: the attitude columns are filled with zeros. *)
Lemma SE_position_only n_att n_pos c (rows : list (list num)) :
  SE_jacobian_from_blocks n_att n_pos None (Some (Arr2 c rows)) =
  Ok (Arr2 (n_att + c) ((λ r, replicate n_att zero ++ r) <$> rows)).
Proof.
  unfold SE_jacobian_from_blocks. simpl. unfold np_zeros.
  rewrite np_block_pair by (by rewrite length_replicate).
  by rewrite zip_with_app_zeros.
Qed.

Lemma SE23_position_only c (rows : list (list num)) :
  SE23State_jacobian_from_blocks None (Some (Arr2 c rows)) None =
  Ok (Arr2 (6 + c) ((λ r, replicate 6 zero ++ r) <$> rows)).
Proof.
  unfold SE23State_jacobian_from_blocks. simpl. unfold np_zeros.
  rewrite np_block_triple by (by rewrite ?length_replicate).
  rewrite zip_with_replicate by done.
  rewrite (zip_with_replicate_l _ (length rows)) by done.
  done.
Qed.

(** X12.  [GlobalPosition.jacobian] in the right direction, on a pose
    whose matrix has at least [n] columns ([n] = 2 for [SE2State], 3 for
    [SE3State] and [SE23State]): the columns of the attitude (and of the
    velocity, for [SE23State]) are zero, and the position columns hold the
    rotation block of the pose, [[0 | C]]. *)
Theorem GlobalPosition_jacobian_right (gp : GlobalPosition)
    cls (n w c : nat) (rows : list (list num)) group dof stamp sid :
  (cls = SE2State ∧ n = 2 ∧ w = 1) ∨
  (cls = SE3State ∧ n = 3 ∧ w = 3) ∨
  (cls = SE23State ∧ n = 3 ∧ w = 6) →
  n ≤ c →
  GlobalPosition_jacobian gp
    (MatrixLieGroupState cls (Arr2 c rows) group dof stamp sid "right")
  = Ok (Some (Arr2 (w + n)
                ((λ r, replicate w zero ++ take n r) <$> take n rows))).
Proof.
  intros Hcls Hc. unfold GlobalPosition_jacobian.
  destruct Hcls as [(-> & -> & ->)|[(-> & -> & ->)|(-> & -> & ->)]];
    cbn [attitude getitem_rows_cols mbind result_bind State_direction start
         stop LieState_jacobian_from_blocks only_position kw_velocity
         kw_attitude kw_position];
    rewrite decide_True by done;
    cbn [mbind result_bind].
  - rewrite SE_position_only. cbn [fmap result_fmap].
    rewrite (Nat.min_l 2 c), Nat.min_0_l, Nat.sub_0_r by done.
    rewrite <- list_fmap_compose. reflexivity.
  - rewrite SE_position_only. cbn [fmap result_fmap].
    rewrite (Nat.min_l 3 c), Nat.min_0_l, Nat.sub_0_r by done.
    rewrite <- list_fmap_compose. reflexivity.
  - rewrite SE23_position_only. cbn [fmap result_fmap].
    rewrite (Nat.min_l 3 c), Nat.min_0_l, Nat.sub_0_r by done.
    rewrite <- list_fmap_compose. reflexivity.
Qed.

(** X13.  [SE23State.jacobian_from_blocks] lays the blocks out in the
    order attitude, velocity, position, whatever the order of its
    parameters, and fills a block that is not given with zeros; blocks of
    [m] rows give [m] rows of nine entries.  With no block at all it raises
    [UnboundLocalError], as do the planar and spatial poses. *)
Theorem SE23State_jacobian_from_blocks_layout (m : nat)
    (A P V : option (list (list num))) :
  let given (o : option (list (list num))) :=
    from_option (λ rows, length rows = m) True o in
  let block (o : option (list (list num))) := Arr2 3 <$> o in
  let filled (o : option (list (list num))) :=
    default (replicate m (replicate 3 zero)) o in
  given A → given P → given V →
  (is_Some A ∨ is_Some P ∨ is_Some V →
     SE23State_jacobian_from_blocks (block A) (block P) (block V) =
     Ok (Arr2 9 (zip_with app (zip_with app (filled A) (filled V))
                   (filled P)))) ∧
  SE23State_jacobian_from_blocks None None None = Err UnboundLocalError ∧
  SE_jacobian_from_blocks 1 2 None None = Err UnboundLocalError ∧
  SE_jacobian_from_blocks 3 3 None None = Err UnboundLocalError.
Proof.
  intros given block filled HA HP HV. split; [|repeat split; reflexivity].
  intros Hsome. unfold SE23State_jacobian_from_blocks.
  assert (blocks_dim [block A; block P; block V] = Ok (Some m)) as ->.
  { destruct A as [a|], P as [p|], V as [v|]; simpl in *;
      try (by unfold blocks_dim; simpl; rewrite ?HA, ?HP, ?HV).
    destruct Hsome as [[? Hx]|[[? Hx]|[? Hx]]]; inversion Hx. }
  cbn [mbind result_bind].
  assert (∀ o, given o → block_or_zeros (block o) (Some m) 3
                         = Ok (Arr2 3 (filled o))) as Hfill.
  { intros [rows|] Ho; done. }
  rewrite !Hfill by done. cbn [mbind result_bind].
  assert (∀ o, given o → length (filled o) = m) as Hlen.
  { intros [rows|] Ho; simpl; [done|by rewrite length_replicate]. }
  rewrite np_block_triple by (by rewrite !Hlen). done.
Qed.

End block_assembly.

(** * Further properties of the process models *)

Section composite_process.
Context `{Scalar} `{!Pylie}.

Implicit Types (state_list : list State) (self : CompositeProcessModel).

Lemma offset_cons (x : State) state_list i :
  offset (x :: state_list) (S i) = State_dof x + offset state_list i.
Proof. done. Qed.

(** Where the rows of block [i] end up in a block-diagonal matrix. *)
Lemma block_diag_rows_lookup (D off : nat) (rest : list State)
    (g : nat → list (list num)) i x r row :
  (∀ j y, rest !! j = Some y → length (g j) = State_dof y) →
  rest !! i = Some x → g i !! r = Some row →
  block_diag_rows D off (imap (λ j y, (State_dof y, g j)) rest)
    !! (offset rest i + r) =
  Some (replicate (off + offset rest i) zero ++ row ++
        replicate (D - (off + offset rest i + State_dof x)) zero).
Proof.
  revert i off g. induction rest as [|y rest IH]; intros i off g Hlen Hi Hr;
    [done|].
  cbn [imap block_diag_rows]. destruct i as [|i].
  - inversion Hi; subst y. unfold offset. simpl.
    rewrite lookup_app_l.
    2: { rewrite length_fmap. by eapply lookup_lt_Some. }
    rewrite list_lookup_fmap, Hr. simpl. by rewrite !Nat.add_0_r.
  - rewrite offset_cons. simpl in Hi.
    rewrite lookup_app_r; rewrite length_fmap, (Hlen 0 y eq_refl); [|lia].
    replace (State_dof y + offset rest i + r - State_dof y)
      with (offset rest i + r) by lia.
    assert (∀ j z, rest !! j = Some z → length ((g ∘ S) j) = State_dof z)
      as Hlen' by (intros j z Hj; by apply (Hlen (S j))).
    pose proof (IH i (off + State_dof y) (g ∘ S) Hlen' Hi Hr) as IH'.
    rewrite (Nat.add_assoc off (State_dof y) (offset rest i)). exact IH'.
Qed.

Lemma imap_fst_dof (rest : list State) (g : nat → list (list num)) :
  (imap (λ j y, (State_dof y, g j)) rest).*1 = State_dof <$> rest.
Proof.
  revert g. induction rest as [|y rest IH]; intros g; [done|].
  cbn [imap]. rewrite !fmap_cons. f_equal. apply (IH (g ∘ S)).
Qed.

Lemma atleast_2d_imap (rest : list State) (g : nat → list (list num)) :
  atleast_2d <$> imap (λ j y, Arr2 (State_dof y) (g j)) rest =
  imap (λ j y, (State_dof y, g j)) rest.
Proof.
  revert g. induction rest as [|y rest IH]; intros g; [done|].
  cbn [imap]. rewrite fmap_cons. f_equal. apply (IH (g ∘ S)).
Qed.

(** The block-diagonal matrix of square blocks sized by the sub-states:
    block [i] sits on the rows and on the columns of slice [i]. *)
Lemma block_diag_square state_list (g : nat → list (list num)) :
  state_list ≠ [] →
  (∀ j y, state_list !! j = Some y →
     length (g j) = State_dof y ∧
     Forall (λ row, length row = State_dof y) (g j)) →
  let D := sum_list (State_dof <$> state_list) in
  let J := block_diag (imap (λ j y, Arr2 (State_dof y) (g j)) state_list) in
  np_shape J = [D; D] ∧
  ∀ i x r c, state_list !! i = Some x → r < State_dof x → c < D →
    entry J (offset state_list i + r) c =
    if decide (offset state_list i ≤ c < offset state_list i + State_dof x)
    then entry (Arr2 (State_dof x) (g i)) r (c - offset state_list i)
    else Some zero.
Proof.
  intros Hne Hg D J.
  assert (J = Arr2 D (block_diag_rows D 0
                        (imap (λ j y, (State_dof y, g j)) state_list))) as ->.
  { subst J. unfold block_diag.
    assert (∀ l : list ndarray, l ≠ [] →
              match l with [] => [Arr1 []] | _ => l end = l) as Hmatch.
    { by intros [|? ?]. }
    rewrite Hmatch by (by destruct state_list).
    by rewrite atleast_2d_imap, imap_fst_dof. }
  split.
  - simpl. f_equal.
    assert (∀ (off : nat) rest (h : nat → list (list num)),
      (∀ j y, rest !! j = Some y → length (h j) = State_dof y) →
      length (block_diag_rows D off (imap (λ j y, (State_dof y, h j)) rest))
        = sum_list (State_dof <$> rest)) as Hrows.
    { intros off rest. revert off.
      induction rest as [|y rest IH]; intros off h Hh; [done|].
      cbn [imap block_diag_rows]. rewrite length_app, length_fmap.
      rewrite (Hh 0 y eq_refl), (IH _ (h ∘ S)); [done|].
      intros j z Hj. by apply (Hh (S j)). }
    apply Hrows. intros j y Hj. by apply Hg.
  - intros i x r c Hi Hr Hc.
    destruct (Hg i x Hi) as (Hlen & Hwf).
    destruct (lookup_lt_is_Some_2 (g i) r ltac:(lia)) as [row Hrow].
    assert (length row = State_dof x) as Hrl.
    { by eapply (Forall_lookup_1 _ _ _ _ Hwf). }
    pose proof (offset_bound _ _ _ Hi) as Hb. fold D in Hb.
    unfold entry.
    rewrite (block_diag_rows_lookup D 0 state_list g i x r row);
      [|intros j y Hj; by apply Hg|done|done].
    cbn [mbind option_bind]. rewrite Hrow. cbn [mbind option_bind].
    rewrite Nat.add_0_l, <- Hrl.
    rewrite padded_lookup by lia. done.
Qed.

(** X14.  [CompositeProcessModel.jacobian] and [covariance] return a
    block-diagonal matrix aligned with the composite's slices.  On a
    non-empty composite, with one model and one input row per sub-state,
    when the i-th model returns a square matrix of the i-th sub-state's
    degrees of freedom, the result is square of the composite's [dof], it
    holds that matrix on the rows and columns of the i-th slice, and it is
    zero on the other columns of those rows. *)
Theorem CompositeProcessModel_block_diagonal
    self state_list stamp sid u dt (jac cov : nat → list (list num)) :
  let x := CompositeState_init state_list stamp sid in
  state_list ≠ [] →
  (∀ i x_sub, state_list !! i = Some x_sub →
     ∃ model u_i,
       CompositeProcessModel_model_list self !! i = Some model ∧
       getitem_int (sv_value u) i = Ok u_i ∧
       let u_sub := {| sv_value := u_i; sv_stamp := sv_stamp u |} in
       pm_jacobian model x_sub u_sub dt = Ok (Arr2 (State_dof x_sub) (jac i)) ∧
       pm_covariance model x_sub u_sub dt
         = Ok (Arr2 (State_dof x_sub) (cov i)) ∧
       length (jac i) = State_dof x_sub ∧
       Forall (λ row, length row = State_dof x_sub) (jac i) ∧
       length (cov i) = State_dof x_sub ∧
       Forall (λ row, length row = State_dof x_sub) (cov i)) →
  ∃ J Q,
    CompositeProcessModel_jacobian self x u dt = Ok J ∧
    CompositeProcessModel_covariance self x u dt = Ok Q ∧
    np_shape J = [State_dof x; State_dof x] ∧
    np_shape Q = [State_dof x; State_dof x] ∧
    ∀ i x_sub r c, state_list !! i = Some x_sub →
      r < State_dof x_sub → c < State_dof x →
      let s := Slice (offset state_list i)
                     (offset state_list i + State_dof x_sub) in
      entry J (start s + r) c =
        (if decide (in_slice s c)
         then entry (Arr2 (State_dof x_sub) (jac i)) r (c - start s)
         else Some zero) ∧
      entry Q (start s + r) c =
        (if decide (in_slice s c)
         then entry (Arr2 (State_dof x_sub) (cov i)) r (c - start s)
         else Some zero).
Proof.
  intros x Hne Hstep.
  exists (block_diag (imap (λ j y, Arr2 (State_dof y) (jac j)) state_list)),
         (block_diag (imap (λ j y, Arr2 (State_dof y) (cov j)) state_list)).
  assert (∀ (m : ProcessModel → State → StampedValue → num → result ndarray)
            (g : nat → list (list num)),
     (∀ i x_sub, state_list !! i = Some x_sub →
        ∃ model u_i,
          CompositeProcessModel_model_list self !! i = Some model ∧
          getitem_int (sv_value u) i = Ok u_i ∧
          m model x_sub {| sv_value := u_i; sv_stamp := sv_stamp u |} dt
            = Ok (Arr2 (State_dof x_sub) (g i))) →
     CompositeProcessModel_each m self u dt 0 state_list =
     Ok (imap (λ j y, Arr2 (State_dof y) (g j)) state_list)) as Heach.
  { intros m g Hm.
    assert (∀ (rest : list State) (k : nat),
      (∀ j x_sub, rest !! j = Some x_sub →
         ∃ model u_i,
           CompositeProcessModel_model_list self !! (k + j) = Some model ∧
           getitem_int (sv_value u) (k + j) = Ok u_i ∧
           m model x_sub {| sv_value := u_i; sv_stamp := sv_stamp u |} dt
             = Ok (Arr2 (State_dof x_sub) (g (k + j)))) →
      CompositeProcessModel_each m self u dt k rest =
      Ok (imap (λ j y, Arr2 (State_dof y) (g (k + j))) rest)) as Hgen.
    { intros rest. induction rest as [|y rest IH]; intros k Hk; [done|].
      destruct (Hk 0 y eq_refl) as (model & u_i & Hm0 & Hu & Hcall).
      rewrite Nat.add_0_r in Hm0, Hu, Hcall.
      cbn [CompositeProcessModel_each]. rewrite Hu. cbn [mbind result_bind].
      rewrite (list_getitem_Some _ _ _ Hm0). cbn [mbind result_bind].
      rewrite Hcall. cbn [mbind result_bind].
      rewrite (IH (S k)).
      - cbn [mbind result_bind imap]. rewrite Nat.add_0_r. do 2 f_equal.
        apply imap_ext. intros j z _. simpl. do 2 f_equal. lia.
      - intros j x_sub Hj.
        destruct (Hk (S j) x_sub Hj) as (m' & u' & ? & ? & ?).
        exists m', u'. by replace (S k + j) with (k + S j) by lia. }
    apply (Hgen state_list 0), Hm. }
  unfold CompositeProcessModel_jacobian, CompositeProcessModel_covariance.
  subst x. rewrite CompositeState_value_init. cbn [mbind result_bind].
  rewrite (Heach pm_jacobian jac), (Heach pm_covariance cov).
  2: { intros i x_sub Hi.
       destruct (Hstep i x_sub Hi) as (m & u_i & ? & ? & ? & ? & _).
       by exists m, u_i. }
  2: { intros i x_sub Hi.
       destruct (Hstep i x_sub Hi) as (m & u_i & ? & ? & ? & ? & _).
       by exists m, u_i. }
  cbn [mbind result_bind].
  destruct (block_diag_square state_list jac Hne) as (HsJ & HeJ).
  { intros j y Hj. destruct (Hstep j y Hj) as (? & ? & _ & _ & _ & _ & ? & ? & _).
    done. }
  destruct (block_diag_square state_list cov Hne) as (HsQ & HeQ).
  { intros j y Hj.
    destruct (Hstep j y Hj) as (? & ? & _ & _ & _ & _ & _ & _ & ? & ?).
    done. }
  split; [done|]. split; [done|]. split; [exact HsJ|]. split; [exact HsQ|].
  intros i x_sub r c Hi Hr Hc. unfold in_slice. cbn [start stop].
  split; [by apply HeJ|by apply HeQ].
Qed.

Lemma CompositeProcessModel_each_too_few {A}
    (method : ProcessModel → State → StampedValue → num → result A)
    self u dt (rest : list State) (k : nat) u_n :
  let n := length (CompositeProcessModel_model_list self) in
  k ≤ n → n < k + length rest →
  getitem_int (sv_value u) n = Ok u_n →
  (∀ j x_sub, rest !! j = Some x_sub → k + j < n →
     ∃ model u_i r,
       CompositeProcessModel_model_list self !! (k + j) = Some model ∧
       getitem_int (sv_value u) (k + j) = Ok u_i ∧
       method model x_sub {| sv_value := u_i; sv_stamp := sv_stamp u |} dt
         = Ok r) →
  CompositeProcessModel_each method self u dt k rest = Err IndexError.
Proof.
  intros n. revert k. induction rest as [|x rest IH]; intros k Hk Hn Hu Hstep.
  - simpl in Hn. lia.
  - cbn [CompositeProcessModel_each].
    destruct (decide (k = n)) as [->|Hne].
    + rewrite Hu. cbn [mbind result_bind].
      by rewrite list_getitem_ge by done.
    + destruct (Hstep 0 x eq_refl ltac:(lia)) as (model & u_i & r & Hm & Hui & Hr).
      rewrite Nat.add_0_r in Hm, Hui. rewrite Hui. cbn [mbind result_bind].
      rewrite (list_getitem_Some _ _ _ Hm). cbn [mbind result_bind].
      rewrite Hr. cbn [mbind result_bind].
      rewrite (IH (S k)); [done|lia|simpl in Hn; lia|done|].
      intros j x_sub Hj Hlt.
      destruct (Hstep (S j) x_sub Hj ltac:(lia)) as (m' & u' & r' & ? & ? & ?).
      exists m', u', r'. by replace (S k + j) with (k + S j) by lia.
Qed.

(** X15.  [CompositeProcessModel] pairs models and sub-states by
    position.  With fewer models than sub-states, and an input that has a
    row for the first sub-state left without one, [evaluate], [jacobian]
    and [covariance] raise [IndexError] once the models that exist have
    done their part. *)
Theorem CompositeProcessModel_too_few_models
    self state_list stamp sid u dt u_n :
  let x := CompositeState_init state_list stamp sid in
  let n := length (CompositeProcessModel_model_list self) in
  n < length state_list →
  getitem_int (sv_value u) n = Ok u_n →
  (∀ i x_sub, state_list !! i = Some x_sub → i < n →
     ∃ model u_i x' J Q,
       CompositeProcessModel_model_list self !! i = Some model ∧
       getitem_int (sv_value u) i = Ok u_i ∧
       let u_sub := {| sv_value := u_i; sv_stamp := sv_stamp u |} in
       pm_evaluate model x_sub u_sub dt = Ok x' ∧
       pm_jacobian model x_sub u_sub dt = Ok J ∧
       pm_covariance model x_sub u_sub dt = Ok Q) →
  CompositeProcessModel_evaluate self x u dt = Err IndexError ∧
  CompositeProcessModel_jacobian self x u dt = Err IndexError ∧
  CompositeProcessModel_covariance self x u dt = Err IndexError.
Proof.
  intros x n Hn Hu Hstep.
  unfold CompositeProcessModel_evaluate, CompositeProcessModel_jacobian,
    CompositeProcessModel_covariance. subst x.
  rewrite CompositeState_value_init. unfold CompositeState_init.
  cbn [mbind result_bind].
  rewrite !(CompositeProcessModel_each_too_few _ self u dt state_list 0 u_n);
    try done; try lia.
  - intros j x_sub Hj Hlt.
    destruct (Hstep j x_sub Hj Hlt) as (m & u_i & x' & J & Q & ? & ? & ? & ? & ?).
    by exists m, u_i, Q.
  - intros j x_sub Hj Hlt.
    destruct (Hstep j x_sub Hj Hlt) as (m & u_i & x' & J & Q & ? & ? & ? & ? & ?).
    by exists m, u_i, J.
  - intros j x_sub Hj Hlt.
    destruct (Hstep j x_sub Hj Hlt) as (m & u_i & x' & J & Q & ? & ? & ? & ? & ?).
    by exists m, u_i, x'.
Qed.

End composite_process.

Section single_integrator_facts.
Context `{Scalar}.

Lemma bc_zip_mismatch (f : num → num → num) (u v : list num) :
  length u ≠ length v → length u ≠ 1 → length v ≠ 1 →
  bc_zip f u v = Err ValueError.
Proof.
  intros Hne Hu Hv. unfold bc_zip, bc_len. by rewrite !decide_False by done.
Qed.

Lemma bc_zip_single (f : num → num → num) (a : num) (v : list num) :
  bc_zip f [a] v = Ok (f a <$> v).
Proof.
  unfold bc_zip, bc_len. cbn [length].
  destruct (decide (1 = length v)) as [Hl|Hl].
  - destruct v as [|b [|? ?]]; done.
  - rewrite decide_True by done. cbn [mbind result_bind stretch].
    rewrite stretch_same by done. by rewrite zip_with_replicate_l.
Qed.

Lemma SingleIntegrator_evaluate_run (self : SingleIntegrator)
    (σ : store) (x : ref) (u : StampedValue) (dt : num)
    value dof stamp sid :
  σ x = VectorState value dof stamp sid →
  SingleIntegrator_evaluate self x u dt σ =
  match np_add value (np_lmul dt (sv_value u)) with
  | Ok value' => (Ok x, <[x := VectorState value' dof stamp sid]> σ)
  | Err e => (Err e, σ)
  end.
Proof.
  intros Hx.
  unfold SingleIntegrator_evaluate, mbind, M_bind, load, lift, save, mret,
    M_ret. rewrite Hx. simpl.
  by destruct (np_add value (np_lmul dt (sv_value u))).
Qed.

(** X16.  [SingleIntegrator.evaluate] adds with numpy's broadcasting.
    When the input and the state have different lengths, neither being 1,
    the sum raises [ValueError] and the state object is left as it was.
    When the state has one entry, the sum succeeds for an input of any
    length [n]: the stored value then has [n] entries, while the [dof]
    recorded in the state is not touched. *)
Theorem SingleIntegrator_evaluate_lengths (self : SingleIntegrator)
    (σ : store) (x : ref) (v w : list num) dof stamp sid stamp_u (dt : num) :
  let u := {| sv_value := Arr1 w; sv_stamp := stamp_u |} in
  σ x = VectorState (Arr1 v) dof stamp sid →
  (length v ≠ length w → length v ≠ 1 → length w ≠ 1 →
     SingleIntegrator_evaluate self x u dt σ = (Err ValueError, σ)) ∧
  (∀ v0, v = [v0] →
     SingleIntegrator_evaluate self x u dt σ =
       (Ok x, <[x := VectorState (Arr1 ((λ b, add v0 (mul dt b)) <$> w))
                        dof stamp sid]> σ)).
Proof.
  intros u Hx. rewrite (SingleIntegrator_evaluate_run _ _ _ _ _ _ _ _ _ Hx).
  unfold np_add, np_lmul. cbn [sv_value u np_map np_binop]. split.
  - intros Hne Hv Hw.
    by rewrite bc_zip_mismatch by (by rewrite ?length_fmap).
  - intros v0 ->. rewrite bc_zip_single. cbn [fmap result_fmap].
    by rewrite <- list_fmap_compose.
Qed.

End single_integrator_facts.

(** * Group reasoning over a lawful backend *)

Section group_facts.
Context `{Scalar}.
Context (grp : MatrixLieGroup) (G : ndarray → Prop) (e : ndarray).
Context (laws : LieGroupLaws grp G e).

Notation "g · h" := (mulG e g h) (at level 40, left associativity).

Lemma mulG_Ok g h : G g → G h → g @ h = Ok (g · h).
Proof.
  intros Hg Hh. destruct (mul_closed _ _ _ laws g h Hg Hh) as (k & Hk & _).
  unfold mulG. by rewrite Hk.
Qed.

Lemma mulG_elem g h : G g → G h → G (g · h).
Proof.
  intros Hg Hh. destruct (mul_closed _ _ _ laws g h Hg Hh) as (k & Hk & Gk).
  unfold mulG. by rewrite Hk.
Qed.

Lemma mulG_assoc g h k : G g → G h → G k → (g · h) · k = g · (h · k).
Proof.
  intros Hg Hh Hk.
  pose proof (mul_assoc _ _ _ laws g h k _ _ Hg Hh Hk
                (mulG_Ok g h Hg Hh) (mulG_Ok h k Hh Hk)) as Ha.
  rewrite (mulG_Ok (g · h) k), (mulG_Ok g (h · k)) in Ha;
    auto using mulG_elem.
  by inversion Ha.
Qed.

Lemma mulG_e_l g : G g → e · g = g.
Proof. intros Hg. unfold mulG. by rewrite (mul_e_l _ _ _ laws). Qed.

Lemma mulG_e_r g : G g → g · e = g.
Proof. intros Hg. unfold mulG. by rewrite (mul_e_r _ _ _ laws). Qed.

Lemma mulG_inverse_l g : G g → inverse grp g · g = e.
Proof. intros Hg. unfold mulG. by rewrite (mul_inverse_l _ _ _ laws). Qed.

Lemma mulG_inverse_r g : G g → g · inverse grp g = e.
Proof. intros Hg. unfold mulG. by rewrite (mul_inverse_r _ _ _ laws). Qed.

(** A left inverse is the inverse. *)
Lemma inverse_unique g h : G g → G h → h · g = e → h = inverse grp g.
Proof.
  intros Hg Hh Hhg. pose proof (inverse_elem _ _ _ laws g Hg) as Hi.
  assert (h · (g · inverse grp g) = inverse grp g) as Hk.
  { rewrite <- mulG_assoc by done. rewrite Hhg. by apply mulG_e_l. }
  rewrite mulG_inverse_r in Hk by done. by rewrite mulG_e_r in Hk.
Qed.

(** Cancelling on the left and on the right. *)
Lemma mulG_cancel_l g h : G g → G h → inverse grp g · (g · h) = h.
Proof.
  intros Hg Hh. pose proof (inverse_elem _ _ _ laws g Hg) as Hgi.
  rewrite <- mulG_assoc by done. rewrite mulG_inverse_l by done.
  by apply mulG_e_l.
Qed.

Lemma mulG_cancel_r g h : G g → G h → (h · g) · inverse grp g = h.
Proof.
  intros Hg Hh. pose proof (inverse_elem _ _ _ laws g Hg) as Hgi.
  rewrite mulG_assoc by done. rewrite mulG_inverse_r by done.
  by apply mulG_e_r.
Qed.

Lemma inverse_mulG g h :
  G g → G h → inverse grp (g · h) = inverse grp h · inverse grp g.
Proof.
  intros Hg Hh.
  pose proof (inverse_elem _ _ _ laws g Hg) as Hgi.
  pose proof (inverse_elem _ _ _ laws h Hh) as Hhi.
  symmetry. apply inverse_unique; auto using mulG_elem.
  rewrite mulG_assoc by auto using mulG_elem.
  rewrite mulG_cancel_l by done. by apply mulG_inverse_l.
Qed.

End group_facts.

Section tangent_round_trips.
Context `{Scalar} `{!Pylie}.

Lemma add_then_sub (laws : ScalarLaws _) (a b : num) : sub (add a b) a = b.
Proof.
  rewrite (sub_def _ laws), (add_comm _ laws a b), <- (add_assoc _ laws).
  by rewrite (add_opp_r _ laws), (add_comm _ laws), (add_zero_l _ laws).
Qed.

Lemma zip_add_then_sub (laws : ScalarLaws _) (v w : list num) :
  length w = length v → zip_with sub (zip_with add v w) v = w.
Proof.
  revert w. induction v as [|a v IH]; intros [|b w] Hlen; try done.
  simpl. rewrite add_then_sub, IH by (done || (simpl in Hlen; lia)). done.
Qed.

(** X17.  [minus] undoes [plus] on a single state: after [x.plus(dx)],
    [minus] against the state as it was returns the flattened [dx] for a
    vector state of the length of [dx] over exact scalars, and
    [Log(Exp(dx))] for a Lie-group state of a lawful group, in the right
    and in the left direction alike. *)
Theorem minus_plus_tangent (x : State) (dx : ndarray) :
  same_variant x x →
  (∀ v, State_value x = Ok (Arr1 v) → State_group x = Err AttributeError →
        length (flat dx) = length v) →
  ∃ x', plus x dx = Ok x' ∧
        minus x' x = Ok (match State_group x with
                         | Ok group => Log group (Exp group dx)
                         | Err _ => np_flatten dx
                         end).
Proof.
  intros Hx Hdx.
  inversion Hx as [v w d1 s1 i1 d2 s2 i2 laws Hlen
    |group G e direction g h c1 d1 s1 i1 c2 d2 s2 i2 laws Hdir Hg Hh];
    simplify_eq.
  - specialize (Hdx _ eq_refl eq_refl).
    eexists. simpl. unfold VectorState_plus, np_add. simpl.
    rewrite bc_zip_same by done. simpl. split; [done|].
    unfold VectorState_minus, np_sub. simpl.
    rewrite bc_zip_same by (rewrite length_zip_with; lia). simpl.
    unfold np_flatten. by rewrite zip_add_then_sub.
  - pose proof (Exp_elem _ _ _ laws dx) as HE.
    pose proof (inverse_elem _ _ _ laws g Hg) as Hgi.
    destruct Hdir as [-> | ->]; simpl;
      unfold MatrixLieGroupState_plus, MatrixLieGroupState_minus; simpl.
    + pose proof (mulG_elem group G e laws g _ Hg HE) as HgE.
      rewrite (mulG_Ok group G e laws g (Exp group dx)) by done.
      eexists. split; [done|]. cbn [minus State_value mbind result_bind].
      unfold MatrixLieGroupState_minus. simpl.
      rewrite (mulG_Ok group G e laws (inverse group g)) by done.
      by rewrite (mulG_cancel_l group G e laws).
    + pose proof (mulG_elem group G e laws _ g HE Hg) as HEg.
      rewrite (mulG_Ok group G e laws (Exp group dx) g) by done.
      eexists. split; [done|]. cbn [minus State_value mbind result_bind].
      unfold MatrixLieGroupState_minus. simpl.
      rewrite (mulG_Ok group G e laws _ (inverse group g)) by done.
      by rewrite (mulG_cancel_r group G e laws).
Qed.

Lemma two_twists_rows (r : nat) (w0 w1 : list num) stamp_u :
  length w0 = r → length w1 = r →
  two_twists {| sv_value := Arr2 r [w0; w1]; sv_stamp := stamp_u |}
    = Ok (Arr2 r [w0; w1]).
Proof.
  intros H0' H1'. unfold two_twists, np_reshape. cbn [sv_value np_size length].
  assert (round_half (2 * r) = r) as ->.
  { pose proof (round_half_even (2 * r)) as Hr.
    rewrite Nat.mul_comm, Nat.Div0.mod_mul in Hr. specialize (Hr eq_refl).
    rewrite (Nat.mul_comm r 2) in Hr. lia. }
  rewrite decide_True by done. do 2 f_equal.
  cbn [flat concat chunks]. rewrite app_nil_r.
  rewrite take_app_length' by done. rewrite drop_app_length' by done.
  by rewrite firstn_all2 by lia.
Qed.

(** X18.  The kinematic consistency that the test suite checks for
    [RelativeBodyFrameVelocity]: when the state holds the relative pose
    [T12 = T1⁻¹ T2] of two poses of a lawful group, [evaluate] with the two
    twists [w0], [w1] stores the relative pose of the two poses propagated
    one by one, [(T1 Exp(w0·dt))⁻¹ (T2 Exp(w1·dt))], provided the backend
    has [Exp(-w0·dt) = Exp(w0·dt)⁻¹]; and it returns the same object. *)
Theorem RelativeBodyFrameVelocity_kinematic_consistency
    (self : RelativeBodyFrameVelocity) (σ : store) (x : ref)
    cls T12 group dof stamp sid (direction : string)
    (G : ndarray → Prop) (e T1 T2 : ndarray)
    (r : nat) (w0 w1 : list num) stamp_u (dt : num) :
  let u := {| sv_value := Arr2 r [w0; w1]; sv_stamp := stamp_u |} in
  let E0 := Exp group (np_rmul (Arr1 w0) dt) in
  let E1 := Exp group (np_rmul (Arr1 w1) dt) in
  LieGroupLaws group G e →
  G T1 → G T2 →
  length w0 = r → length w1 = r →
  Exp group (np_rmul (np_neg (Arr1 w0)) dt) = inverse group E0 →
  inverse group T1 @ T2 = Ok T12 →
  σ x = MatrixLieGroupState cls T12 group dof stamp sid direction →
  ∃ T1' T2' T12',
    T1 @ E0 = Ok T1' ∧ T2 @ E1 = Ok T2' ∧
    inverse group T1' @ T2' = Ok T12' ∧
    RelativeBodyFrameVelocity_evaluate self x u dt σ =
      (Ok x, <[x := MatrixLieGroupState cls T12' group dof stamp sid
                       direction]> σ).
Proof.
  intros u E0 E1 laws HT1 HT2 Hw0 Hw1 Hneg HT12 Hx.
  pose proof (Exp_elem _ _ _ laws (np_rmul (Arr1 w0) dt)) as HE0.
  pose proof (Exp_elem _ _ _ laws (np_rmul (Arr1 w1) dt)) as HE1.
  fold E0 in HE0. fold E1 in HE1.
  pose proof (inverse_elem _ _ _ laws) as Hinv.
  pose proof (mulG_elem group G e laws) as Hmul.
  rewrite (mulG_Ok group G e laws) in HT12 by auto.
  inversion HT12; subst T12. clear HT12.
  exists (mulG e T1 E0), (mulG e T2 E1),
    (mulG e (inverse group (mulG e T1 E0)) (mulG e T2 E1)).
  split; [by apply (mulG_Ok group G e laws)|].
  split; [by apply (mulG_Ok group G e laws)|].
  split; [apply (mulG_Ok group G e laws); auto|].
  unfold RelativeBodyFrameVelocity_evaluate.
  unfold mbind at 1. unfold M_bind, lift at 1.
  subst u. rewrite (two_twists_rows r w0 w1 stamp_u Hw0 Hw1).
  unfold mbind, M_bind, load, lift, save, mret, M_ret. rewrite Hx.
  cbn [State_group State_value getitem_int list_getitem lookup list_lookup
       fmap result_fmap State_set_value].
  rewrite Hneg. fold E0.
  rewrite (mulG_Ok group G e laws (inverse group E0)) by auto.
  fold E1.
  rewrite (mulG_Ok group G e laws _ E1) by auto.
  assert (mulG e (mulG e (inverse group E0) (mulG e (inverse group T1) T2)) E1
          = mulG e (inverse group (mulG e T1 E0)) (mulG e T2 E1)) as ->.
  { rewrite (inverse_mulG group G e laws) by done.
    rewrite !(mulG_assoc group G e laws) by auto. done. }
  done.
Qed.

End tangent_round_trips.

Section composite_round_trip.
Context `{Scalar} `{!Pylie}.

Implicit Types (state_list : list State) (rows : list (list num)).

Lemma slices_from_lookup o state_list i x :
  state_list !! i = Some x →
  slices_from o state_list !! i =
  Some (Slice (o + offset state_list i) (o + offset state_list i + State_dof x)).
Proof.
  revert o i. induction state_list as [|y l IH]; intros o i Hi; [done|].
  destruct i as [|i].
  - inversion Hi; subst y. unfold offset. simpl. by rewrite Nat.add_0_r.
  - simpl in Hi. cbn [slices_from]. rewrite lookup_cons. cbn [Nat.pred].
    rewrite (IH _ _ Hi), offset_cons. by rewrite !Nat.add_assoc.
Qed.

Lemma slices_from_length o state_list :
  length (slices_from o state_list) = length state_list.
Proof.
  revert o. induction state_list as [|y l IH]; intros o; [done|].
  simpl. by rewrite IH.
Qed.

Lemma init_slices_from state_list :
  init_slices state_list = slices_from 0 state_list.
Proof.
  apply list_eq. intros i. destruct (state_list !! i) as [x|] eqn:Hi.
  - by rewrite (init_slices_lookup _ _ _ Hi), (slices_from_lookup 0 _ _ _ Hi).
  - apply lookup_ge_None in Hi.
    rewrite !(proj2 (lookup_ge_None _ _)); [done| |].
    + by rewrite slices_from_length.
    + by rewrite init_slices_length.
Qed.

Lemma round_trip_each rows state_list o :
  (∀ i x s, state_list !! i = Some x →
     slices_from o state_list !! i = Some s →
     ∃ x', plus x (Arr2 1 (list_getslice rows s)) = Ok x' ∧
           minus x' x = Ok (Arr2 1 (list_getslice rows s))) →
  ∃ value',
    plus_each (Arr2 1 rows) state_list (slices_from o state_list) = Ok value' ∧
    minus_each value' state_list =
      Ok ((λ s, Arr2 1 (list_getslice rows s)) <$> slices_from o state_list).
Proof.
  revert o. induction state_list as [|x l IH]; intros o Hstep.
  - by exists [].
  - destruct (Hstep 0 x _ eq_refl eq_refl) as (x' & Hp & Hm).
    destruct (IH (o + State_dof x)) as (rest & Hrest & Hmrest).
    { intros i y s Hi Hs. by apply (Hstep (S i) y s). }
    exists (x' :: rest). cbn [slices_from plus_each getitem_slice].
    cbn [mbind result_bind]. rewrite Hp. cbn [mbind result_bind].
    rewrite Hrest. cbn [mbind result_bind]. split; [done|].
    cbn [minus_each]. rewrite Hm. cbn [mbind result_bind].
    rewrite Hmrest. done.
Qed.

Lemma np_vstack_columns (c : nat) (ls : list (list (list num))) :
  ls ≠ [] → np_vstack (Arr2 c <$> ls) = Ok (Arr2 c (concat ls)).
Proof.
  intros Hne. destruct ls as [|r0 ls]; [done|].
  unfold np_vstack. rewrite !fmap_cons. cbn [atleast_2d].
  rewrite decide_True.
  - do 2 f_equal. cbn [concat]. f_equal.
    induction ls as [|r ls IH]; [done|]. rewrite !fmap_cons. simpl.
    by rewrite IH.
  - clear. induction ls as [|r ls IH]; [constructor|].
    rewrite !fmap_cons. by constructor.
Qed.

Lemma concat_slices rows state_list o :
  concat (list_getslice rows <$> slices_from o state_list) =
  take (sum_list (State_dof <$> state_list)) (drop o rows).
Proof.
  revert o. induction state_list as [|x l IH]; intros o; [done|].
  cbn [slices_from]. rewrite !fmap_cons. cbn [concat sum_list].
  rewrite IH. unfold list_getslice. cbn [start stop].
  replace (o + State_dof x - o) with (State_dof x) by lia.
  rewrite <- (drop_drop rows). apply take_take_drop.
Qed.

(** X19.  The round trip of a composite whose sub-states work with
    column vectors.  On a non-empty composite and a column [dx] with one
    row per degree of freedom: if every sub-state, given its slice of [dx],
    is moved by [plus] and [minus] returns that slice, then
    [CompositeState.plus] succeeds and [minus] against the composite as it
    was returns [dx]. *)
Theorem CompositeState_round_trip_columns state_list stamp sid rows :
  let x := CompositeState_init state_list stamp sid in
  let dx := Arr2 1 rows in
  state_list ≠ [] →
  length rows = State_dof x →
  (∀ i x_i s sub, state_list !! i = Some x_i →
     init_slices state_list !! i = Some s →
     getitem_slice dx s = Ok sub →
     ∃ x_i', plus x_i sub = Ok x_i' ∧ minus x_i' x_i = Ok sub) →
  ∃ x', CompositeState_plus x dx None = Ok x' ∧
        CompositeState_minus x' x = Ok dx.
Proof.
  intros x dx Hne Hlen Hstep. subst dx.
  destruct (round_trip_each rows state_list 0) as (value' & Hp & Hm).
  { intros i y s Hi Hs. rewrite <- init_slices_from in Hs.
    by apply (Hstep i y s). }
  exists (CompositeState value' stamp sid (init_slices state_list)).
  unfold CompositeState_plus, CompositeState_minus. subst x.
  rewrite CompositeState_value_init. cbn [mbind result_bind].
  unfold CompositeState_init. rewrite plus_composite, init_slices_from, Hp.
  cbn [mbind result_bind CompositeState_value]. split; [done|].
  rewrite minus_composite, Hm. cbn [mbind result_bind].
  rewrite (list_fmap_compose (list_getslice rows) (Arr2 1)).
  rewrite np_vstack_columns.
  - rewrite concat_slices, drop_0. do 2 f_equal.
    apply firstn_all2. simpl in Hlen. lia.
  - destruct state_list; done.
Qed.

End composite_round_trip.

Section more_composite_edges.
Context `{Scalar} `{!Pylie}.

Lemma minus_each_app_l value extra x_value :
  length value = length x_value →
  minus_each (value ++ extra) x_value = minus_each value x_value.
Proof.
  revert x_value. induction value as [|y l IH]; intros [|z x_value] Hlen;
    try done; [by destruct extra|].
  simpl in Hlen. change ((y :: l) ++ extra) with (y :: (l ++ extra)).
  cbn [minus_each]. rewrite (IH x_value) by lia. done.
Qed.

Lemma minus_each_short value x_value ds :
  length value < length x_value →
  minus_each value (take (length value) x_value) = Ok ds →
  minus_each value x_value = Err IndexError.
Proof.
  revert x_value ds. induction value as [|y l IH]; intros [|z x_value] ds Hlen Hd;
    simpl in Hlen; try lia; [done|].
  cbn [length take minus_each] in Hd |- *.
  destruct (minus y z); [|done]. cbn [mbind result_bind] in Hd |- *.
  destruct (minus_each l (take (length l) x_value)) as [ds'|] eqn:Hd'; [|done].
  by rewrite (IH x_value ds') by (done || lia).
Qed.

(** X20.  [CompositeState.minus] walks the sub-states of its argument.
    Sub-states of [self] beyond those of the argument are ignored without
    notice; when [self] has fewer, it raises [IndexError] after the
    differences that can be taken have been; and with an argument that has
    no sub-state it raises [ValueError], as there is nothing to stack. *)
Theorem CompositeState_minus_lengths
    value extra x_value st1 id1 sl1 sl1' st2 id2 sl2 :
  let x := CompositeState x_value st2 id2 sl2 in
  (length value = length x_value →
     CompositeState_minus (CompositeState (value ++ extra) st1 id1 sl1') x =
     CompositeState_minus (CompositeState value st1 id1 sl1) x) ∧
  (length value < length x_value →
     (∃ ds, minus_each value (take (length value) x_value) = Ok ds) →
     CompositeState_minus (CompositeState value st1 id1 sl1) x
       = Err IndexError) ∧
  (x_value = [] →
     CompositeState_minus (CompositeState value st1 id1 sl1) x
       = Err ValueError).
Proof.
  intros x. unfold CompositeState_minus. cbn [CompositeState_value mbind
    result_bind]. subst x. rewrite !minus_composite. split; [|split].
  - intros Hlen. by rewrite minus_each_app_l.
  - intros Hlen [ds Hds]. by rewrite (minus_each_short _ _ ds).
  - intros ->. by destruct value.
Qed.

End more_composite_edges.

Section pose_views.
Context `{Scalar} `{!Pylie}.

Lemma zip_with_insert_column (j : nat) (rows : list (list num)) (v : list num) :
  length v = length rows →
  Forall (λ row, j < length row) rows →
  (λ row : list num, default zero (row !! j))
    <$> zip_with (λ row x, <[j:=x]> row) rows v = v.
Proof.
  revert v. induction rows as [|row rows IH]; intros [|a v] Hlen Hw; try done.
  inversion Hw as [|? ? Hj Hw']; subst.
  cbn [zip_with]. rewrite fmap_cons. f_equal.
  - by rewrite list_lookup_insert_eq.
  - apply IH; [simpl in Hlen; lia|done].
Qed.

Lemma zip_with_insert_take (n j : nat) (rows : list (list num)) (v : list num) :
  n ≤ j → length v = length rows →
  (λ row : list num, take n row)
    <$> zip_with (λ row x, <[j:=x]> row) rows v = take n <$> rows.
Proof.
  intros Hn. revert v.
  induction rows as [|row rows IH]; intros [|a v] Hlen; try done.
  cbn [zip_with]. rewrite !fmap_cons. f_equal.
  - rewrite take_insert. by rewrite decide_False by lia.
  - apply IH. simpl in Hlen. lia.
Qed.

(** X21.  Writing the position of a pose and reading it back.  For
    [SE2State], [SE3State] and [SE23State], on a matrix that has the
    position's rows and column, assigning a vector of [n] entries to
    [x.position] succeeds; [x.position] then reads that vector, the
    attitude block reads as before, and the matrix keeps its shape. *)
Theorem position_set_then_get cls (n j c : nat) (rows : list (list num))
    (v : list num) group dof stamp sid direction :
  let pose value :=
    MatrixLieGroupState cls value group dof stamp sid direction in
  position_layout cls = Some (n, j) →
  j < c → n ≤ length rows → Forall (λ row, length row = c) rows →
  length v = n →
  ∃ value',
    set_position cls (Arr2 c rows) (Arr1 v) = Ok value' ∧
    position (pose value') = Ok (Arr1 v) ∧
    attitude (pose value') = attitude (pose (Arr2 c rows)) ∧
    np_shape value' = np_shape (Arr2 c rows).
Proof.
  intros pose Hlay Hj Hn Hwf Hv.
  assert (n ≤ j) as Hnj.
  { destruct cls; inversion Hlay; lia. }
  set (rows' := zip_with (λ row x, <[j:=x]> row) (take n rows) v
                ++ drop n rows).
  assert (set_position cls (Arr2 c rows) (Arr1 v) = Ok (Arr2 c rows')) as Hset.
  { assert (setitem_rows_col (Arr2 c rows) (Slice 0 n) j (Arr1 v)
            = Ok (Arr2 c rows')) as Hs.
    { unfold setitem_rows_col. cbn [start stop]. rewrite decide_True by done.
      rewrite Nat.min_0_l, Nat.sub_0_r, (Nat.min_l n) by done.
      cbn [bc_to_vector]. rewrite bc_to_same by done.
      cbn [mbind result_bind]. by rewrite take_0, drop_0. }
    destruct cls; simpl in Hlay; try discriminate;
      injection Hlay as <- <-; exact Hs. }
  assert (length (take n rows) = n) as Htl by (rewrite length_take; lia).
  assert (take n rows' = zip_with (λ row x, <[j:=x]> row) (take n rows) v)
    as Htake.
  { unfold rows'. rewrite take_app_length'; [done|].
    rewrite length_zip_with. lia. }
  assert (getitem_rows_col (Arr2 c rows') (Slice 0 n) j = Ok (Arr1 v)) as Hget.
  { unfold getitem_rows_col, list_getslice. cbn [start stop].
    rewrite decide_True by done. rewrite Nat.sub_0_r, drop_0, Htake.
    rewrite zip_with_insert_column; [done|lia|].
    apply Forall_take. revert Hwf. apply Forall_impl. intros row ->. done. }
  assert (getitem_rows_cols (Arr2 c rows') (Slice 0 n) (Slice 0 n)
          = getitem_rows_cols (Arr2 c rows) (Slice 0 n) (Slice 0 n)) as Hatt.
  { unfold getitem_rows_cols, list_getslice. cbn [start stop].
    rewrite !Nat.sub_0_r, !drop_0. do 2 f_equal. rewrite Htake.
    assert (∀ l : list (list num),
              (λ r : list num, take n (drop 0 r)) <$> l = take n <$> l) as Hd.
    { intros l. apply list_fmap_ext. intros ? r _. by rewrite drop_0. }
    rewrite !Hd. apply zip_with_insert_take; [done|lia]. }
  exists (Arr2 c rows'). split; [exact Hset|].
  split; [|split].
  - destruct cls; simpl in Hlay; try discriminate;
      injection Hlay as <- <-; exact Hget.
  - destruct cls; simpl in Hlay; try discriminate;
      injection Hlay as <- <-; exact Hatt.
  - assert (length rows' = length rows) as Hl.
    { unfold rows'. rewrite length_app, length_zip_with, length_drop. lia. }
    simpl. by rewrite Hl.
Qed.

End pose_views.

Section more_pose_views.
Context `{Scalar} `{!Pylie}.

Lemma setitem_rows_col_first (n j c : nat) (rows : list (list num))
    (v : list num) :
  j < c → n ≤ length rows → length v = n →
  setitem_rows_col (Arr2 c rows) (Slice 0 n) j (Arr1 v)
  = Ok (Arr2 c (zip_with (λ row x, <[j:=x]> row) (take n rows) v
                ++ drop n rows)).
Proof.
  intros Hj Hn Hv. unfold setitem_rows_col. cbn [start stop].
  rewrite decide_True by done.
  rewrite Nat.min_0_l, Nat.sub_0_r, (Nat.min_l n) by done.
  cbn [bc_to_vector]. rewrite bc_to_same by done.
  cbn [mbind result_bind]. by rewrite take_0, drop_0.
Qed.

Lemma first_rows_written {A} (n : nat) (f : list num → A → list num)
    (rows : list (list num)) (l : list A) :
  n ≤ length rows → length l = n →
  list_getslice (zip_with f (take n rows) l ++ drop n rows) (Slice 0 n)
  = zip_with f (take n rows) l.
Proof.
  intros Hn Hl. unfold list_getslice. cbn [start stop].
  rewrite Nat.sub_0_r, drop_0. rewrite take_app_length'; [done|].
  rewrite length_zip_with, length_take. lia.
Qed.

Lemma first_rows_read {A} (n : nat) (rows : list A) :
  list_getslice rows (Slice 0 n) = take n rows.
Proof. unfold list_getslice. cbn [start stop]. by rewrite Nat.sub_0_r, drop_0. Qed.

Lemma zip_with_insert_other (j j' : nat) (rows : list (list num))
    (v : list num) :
  j ≠ j' →
  (λ row : list num, default zero (row !! j'))
    <$> zip_with (λ row x, <[j:=x]> row) rows v
  = (λ row : list num, default zero (row !! j')) <$> take (length v) rows.
Proof.
  intros Hj. revert v.
  induction rows as [|row rows IH]; intros [|a v]; try done.
  cbn [zip_with length take]. rewrite !fmap_cons. f_equal.
  - by rewrite list_lookup_insert_ne.
  - apply IH.
Qed.

Lemma zip_with_block_read (n : nat) (rows blk : list (list num)) :
  length blk = length rows → Forall (λ r, length r = n) blk →
  (λ r : list num, list_getslice r (Slice 0 n))
    <$> zip_with (λ row br, take 0 row ++ br ++ drop (0 + n) row) rows blk
  = blk.
Proof.
  intros Hlen Hblk. revert rows Hlen.
  induction Hblk as [|br blk Hbr _ IH]; intros [|row rows] Hlen; try done.
  cbn [zip_with]. rewrite fmap_cons. f_equal.
  - unfold list_getslice. cbn [start stop].
    rewrite Nat.sub_0_r, drop_0, take_0. cbn [app].
    rewrite take_app_length'; done.
  - apply IH. simpl in Hlen. lia.
Qed.

Lemma zip_with_block_other (n j : nat) (rows blk : list (list num)) :
  n ≤ j → length blk = length rows → Forall (λ r, length r = n) blk →
  (λ row : list num, default zero (row !! j))
    <$> zip_with (λ row br, take 0 row ++ br ++ drop (0 + n) row) rows blk
  = (λ row : list num, default zero (row !! j)) <$> rows.
Proof.
  intros Hj Hlen Hblk. revert rows Hlen.
  induction Hblk as [|br blk Hbr _ IH]; intros [|row rows] Hlen; try done.
  cbn [zip_with]. rewrite !fmap_cons. f_equal.
  - rewrite take_0. cbn [app]. rewrite lookup_app_r by lia.
    rewrite lookup_drop, Hbr. do 2 f_equal. lia.
  - apply IH. simpl in Hlen. lia.
Qed.

Lemma getslice_rows_take (n : nat) (l : list (list num)) :
  (λ r : list num, list_getslice r (Slice 0 n)) <$> l = take n <$> l.
Proof. apply list_fmap_ext. intros ? r _. apply first_rows_read. Qed.

(** X22.  The velocity of an [SE23State] is a view of its own: on a matrix
    that has its rows and column, assigning three entries to [x.velocity]
    succeeds, [x.velocity] then reads them, and the position and the
    attitude read as before.  The other group classes have no velocity:
    reading it raises [NotImplementedError] and assigning to it raises
    [AttributeError]. *)
Theorem velocity_set_then_get (c : nat) (rows : list (list num))
    (v : list num) group dof stamp sid direction :
  let pose cls value :=
    MatrixLieGroupState cls value group dof stamp sid direction in
  3 < c → 3 ≤ length rows → Forall (λ row, length row = c) rows →
  length v = 3 →
  (∃ value',
     set_velocity SE23State (Arr2 c rows) (Arr1 v) = Ok value' ∧
     velocity (pose SE23State value') = Ok (Arr1 v) ∧
     position (pose SE23State value')
       = position (pose SE23State (Arr2 c rows)) ∧
     attitude (pose SE23State value')
       = attitude (pose SE23State (Arr2 c rows))) ∧
  (∀ cls value r, cls ≠ SE23State →
     velocity (pose cls value) = Err NotImplementedError ∧
     set_velocity cls value r = Err AttributeError).
Proof.
  intros pose Hc Hn Hwf Hv. split.
  - eexists. split; [by apply setitem_rows_col_first|].
    assert (length (take 3 rows) = 3) as Htl by (rewrite length_take; lia).
    split; [|split].
    + cbn [velocity pose]. unfold getitem_rows_col.
      rewrite decide_True by done.
      rewrite first_rows_written by done.
      rewrite zip_with_insert_column; [done|lia|].
      apply Forall_take. revert Hwf. apply Forall_impl. intros row ->. done.
    + cbn [position pose]. unfold getitem_rows_col.
      destruct (decide (4 < c)); [|done].
      rewrite first_rows_written, first_rows_read by done.
      rewrite zip_with_insert_other by lia.
      by rewrite Hv, take_take, Nat.min_id.
    + cbn [attitude pose]. unfold getitem_rows_cols. do 2 f_equal.
      rewrite first_rows_written, first_rows_read by done.
      rewrite !getslice_rows_take.
      apply zip_with_insert_take; [lia|lia].
  - intros cls value r Hcls. by destruct cls.
Qed.

(** X23.  Writing the attitude of a pose and reading it back.  For
    [SE2State], [SE3State] and [SE23State], on a matrix that has the
    position's rows and column, assigning an [n] by [n] block to
    [x.attitude] succeeds; [x.attitude] then reads that block, the position
    reads as before and the matrix keeps its shape. *)
Theorem attitude_set_then_get cls (n j c : nat) (rows blk : list (list num))
    group dof stamp sid direction :
  let pose value :=
    MatrixLieGroupState cls value group dof stamp sid direction in
  position_layout cls = Some (n, j) →
  j < c → n ≤ length rows →
  length blk = n → Forall (λ r, length r = n) blk →
  ∃ value',
    set_attitude cls (Arr2 c rows) (Arr2 n blk) = Ok value' ∧
    attitude (pose value') = Ok (Arr2 n blk) ∧
    position (pose value') = position (pose (Arr2 c rows)) ∧
    np_shape value' = np_shape (Arr2 c rows).
Proof.
  intros pose Hlay Hj Hn Hblk Hwf.
  assert (n ≤ j) as Hnj.
  { destruct cls; simpl in Hlay; try discriminate;
      injection Hlay as <- <-; lia. }
  assert (length (take n rows) = n) as Htl by (rewrite length_take; lia).
  set (write := λ (row br : list num), take 0 row ++ br ++ drop (0 + n) row).
  set (rows' := zip_with write (take n rows) blk ++ drop n rows).
  assert (setitem_rows_cols (Arr2 c rows) (Slice 0 n) (Slice 0 n) (Arr2 n blk)
          = Ok (Arr2 c rows')) as Hs.
  { unfold setitem_rows_cols. cbn [start stop].
    rewrite !Nat.min_0_l, !Nat.sub_0_r, (Nat.min_l n (length rows)),
      (Nat.min_l n c) by lia.
    unfold broadcast_to. rewrite decide_True by (by left).
    rewrite mapM_fixed
      by (revert Hwf; apply Forall_impl; intros r Hr; by apply bc_to_same).
    cbn [mbind result_bind]. rewrite bc_to_same by done.
    cbn [mbind result_bind]. by rewrite take_0, drop_0. }
  assert (getitem_rows_cols (Arr2 c rows') (Slice 0 n) (Slice 0 n)
          = Ok (Arr2 n blk)) as Hatt.
  { unfold getitem_rows_cols. cbn [start stop].
    rewrite Nat.min_0_l, Nat.sub_0_r, (Nat.min_l n c) by lia.
    unfold rows'. rewrite first_rows_written by done.
    unfold write. rewrite zip_with_block_read; [done|lia|done]. }
  assert (getitem_rows_col (Arr2 c rows') (Slice 0 n) j
          = getitem_rows_col (Arr2 c rows) (Slice 0 n) j) as Hpos.
  { unfold getitem_rows_col. rewrite !decide_True by done.
    unfold rows'. rewrite first_rows_written, first_rows_read by done.
    unfold write. rewrite zip_with_block_other; [done|done|lia|done]. }
  exists (Arr2 c rows').
  split; [|split; [|split]].
  - destruct cls; simpl in Hlay; try discriminate;
      injection Hlay as <- <-; exact Hs.
  - destruct cls; simpl in Hlay; try discriminate;
      injection Hlay as <- <-; exact Hatt.
  - destruct cls; simpl in Hlay; try discriminate;
      injection Hlay as <- <-; exact Hpos.
  - assert (length rows' = length rows) as Hl.
    { unfold rows'. rewrite length_app, length_zip_with, length_drop. lia. }
    simpl. by rewrite Hl.
Qed.

End more_pose_views.

(** ** The further properties at work *)

Section more_witnesses.
#[local] Existing Instance Z_scalar.
#[local] Existing Instance Z_power.
#[local] Existing Instance affine_pylie.

(** X1 on three vector sub-states. *)
Lemma CompositeState_plus_keeps_structure_witness :
  let x := CompositeState_init three_states None (IdInt 8) in
  let dx := Zvec [1; 2; 3; 4; 5; 6]%Z in
  ∃ self',
    CompositeState_plus x dx (Some 9%Z) = Ok self' ∧
    ∃ value',
      self' = CompositeState_init value' None (IdInt 8) ∧
      length value' = 3 ∧
      Forall2 (λ x x', State_dof x' = State_dof x ∧
                       State_state_id x' = State_state_id x)
        three_states value' ∧
      State_dof self' = 6.
Proof.
  intros x dx.
  assert (∃ self', CompositeState_plus x dx (Some 9%Z) = Ok self')
    as [self' Hrun] by (eexists; reflexivity).
  exists self'. split; [exact Hrun|].
  exact (CompositeState_plus_keeps_structure three_states None (IdInt 8) dx
           (Some 9%Z) self' Hrun).
Defined.

(** X2 on the same composite, with and without a new stamp. *)
Lemma CompositeState_plus_stamps_witness :
  let x := CompositeState_init twin_states (Some 1%Z) IdNone in
  let dx := Zvec [1; 2; 3; 4; 5; 6]%Z in
  (∃ self',
     CompositeState_plus x dx (Some 9%Z) = Ok self' ∧
     State_stamp self' = Some 1%Z ∧
     ∃ value', CompositeState_value self' = Ok value' ∧
               Forall (λ x, State_stamp x = Some 9%Z) value') ∧
  (∃ self',
     CompositeState_plus x dx None = Ok self' ∧
     State_stamp self' = Some 1%Z ∧
     ∃ value', CompositeState_value self' = Ok value' ∧
               State_stamp <$> value' = [None; Some 4%Z; None]).
Proof.
  intros x dx. split.
  - assert (∃ self', CompositeState_plus x dx (Some 9%Z) = Ok self')
      as [self' Hrun] by (eexists; reflexivity).
    exists self'. split; [exact Hrun|].
    exact (CompositeState_plus_stamps twin_states (Some 1%Z) IdNone dx
             (Some 9%Z) self' Hrun).
  - assert (∃ self', CompositeState_plus x dx None = Ok self')
      as [self' Hrun] by (eexists; reflexivity).
    exists self'. split; [exact Hrun|].
    exact (CompositeState_plus_stamps twin_states (Some 1%Z) IdNone dx
             None self' Hrun).
Defined.

(** X3 where two sub-states share the identifier 7 and none carries 9. *)
Lemma plus_by_id_first_match_witness :
  let self := CompositeState_init twin_states None IdNone in
  let dx := Zvec [10; 20]%Z in
  Forall (λ x, State_state_id x ≠ IdInt 9) twin_states ∧
  first_match twin_states (IdInt 7) 1
    (VectorState (Zvec [2; 3]%Z) 2 (Some 4%Z) (IdInt 7)) ∧
  plus_by_id self dx (IdInt 9) None = Err ValueError ∧
  plus_by_id self dx (IdInt 7) (Some 6%Z) =
    Ok (CompositeState_init
          (<[1 := VectorState (Zvec [12; 23]%Z) 2 (Some 6%Z) (IdInt 7)]>
             twin_states) None IdNone) ∧
  plus_by_id self (Zvec [1; 2; 3]%Z) (IdInt 7) None = Err ValueError.
Proof.
  intros self dx.
  assert (Forall (λ x, State_state_id x ≠ IdInt 9) twin_states) as Habs.
  { repeat constructor; discriminate. }
  split; [exact Habs|]. split; [exact twin_first_match|].
  split; [|split].
  - destruct (plus_by_id_first_match twin_states None IdNone dx (IdInt 9) None)
      as [Hraise _].
    exact (Hraise Habs).
  - destruct (plus_by_id_first_match twin_states None IdNone dx (IdInt 7)
                (Some 6%Z)) as [_ Hfind].
    exact (Hfind _ _ twin_first_match).
  - destruct (plus_by_id_first_match twin_states None IdNone
                (Zvec [1; 2; 3]%Z) (IdInt 7) None) as [_ Hfind].
    exact (Hfind _ _ twin_first_match).
Defined.

(** X4 on the same composite. *)
Lemma set_stamp_by_id_first_match_witness :
  let self := CompositeState_init twin_states None IdNone in
  Forall (λ x, State_state_id x ≠ IdInt 9) twin_states ∧
  first_match twin_states (IdInt 7) 1
    (VectorState (Zvec [2; 3]%Z) 2 (Some 4%Z) (IdInt 7)) ∧
  set_stamp_by_id self (Some 6%Z) (IdInt 9) = Err ValueError ∧
  set_stamp_by_id self (Some 6%Z) (IdInt 7) =
    Ok (CompositeState_init
          (<[1 := VectorState (Zvec [2; 3]%Z) 2 (Some 6%Z) (IdInt 7)]>
             twin_states) None IdNone).
Proof.
  intros self.
  assert (Forall (λ x, State_state_id x ≠ IdInt 9) twin_states) as Habs.
  { repeat constructor; discriminate. }
  split; [exact Habs|]. split; [exact twin_first_match|]. split.
  - destruct (set_stamp_by_id_first_match twin_states None IdNone (Some 6%Z)
                (IdInt 9)) as [Hraise _].
    exact (Hraise Habs).
  - destruct (set_stamp_by_id_first_match twin_states None IdNone (Some 6%Z)
                (IdInt 7)) as [_ Hfind].
    exact (Hfind _ _ twin_first_match).
Defined.

(** X5 on a composite of two poses. *)
Lemma copy_idempotent_witness :
  let x := CompositeState_init pose_pair (Some 3%Z) (IdInt 4) in
  ∃ x', copy x = Ok x' ∧ copy x' = Ok x' ∧
        State_stamp x' = Some 3%Z ∧ State_state_id x' = IdInt 4.
Proof.
  intros x.
  assert (∃ x', copy x = Ok x') as [x' Hrun] by (eexists; reflexivity).
  exists x'. split; [exact Hrun|]. exact (copy_idempotent x x' Hrun).
Defined.

(** X7 on poses and vectors together. *)
Lemma copy_composite_fixed_witness :
  let state_list := pose_pair ++ three_states in
  Forall constructed state_list ∧
  copy (CompositeState_init state_list None IdNone)
    = Ok (CompositeState_init state_list None IdNone).
Proof.
  intros state_list.
  assert (Forall constructed state_list) as Hc.
  { repeat apply Forall_cons_2; try apply Forall_nil_2; constructor. }
  split; [exact Hc|].
  exact (copy_composite_fixed state_list None IdNone Hc).
Defined.

(** X8 on a planar pose whose direction is ['up']; [minus] is given a
    composite, whose value is not an array. *)
Lemma unknown_direction_handling_witness :
  let x := sideways_pose in
  let y := CompositeState_init three_states None IdNone in
  let dx := Zvec [0; 1]%Z in
  let u := {| sv_value := Zvec [0; 1]%Z; sv_stamp := None |} in
  State_direction x = Ok "up" ∧
  plus x dx = Err ValueError ∧
  minus x y = Err ValueError ∧
  minus x x = Err ValueError ∧
  BodyFrameVelocity_jacobian odometry x u 1%Z = Err NotImplementedError ∧
  RangePoseToAnchor_jacobian beacon x = Err NotImplementedError ∧
  Altitude_jacobian altimeter x = Ok None ∧
  Gravity_jacobian plumb_line x = Ok None ∧
  GlobalPosition_jacobian gps x = Ok None.
Proof.
  intros x y dx u. split; [reflexivity|].
  destruct (unknown_direction_handling gps altimeter plumb_line odometry
              beacon SE2State (affine 1 0) affine_group 2 None (IdInt 0) "up"
              dx y u 1%Z) as (Hp & Hm & Hb & Hr & Ha & Hg & Hgp);
    [discriminate|discriminate|].
  destruct (unknown_direction_handling gps altimeter plumb_line odometry
              beacon SE2State (affine 1 0) affine_group 2 None (IdInt 0) "up"
              dx x u 1%Z) as (_ & Hm' & _);
    [discriminate|discriminate|].
  split; [exact Hp|]. split; [exact Hm|]. split; [exact Hm'|].
  split; [exact Hb|]. split; [exact Hr|]. split; [exact Ha|].
  split; [exact Hg|]. exact (Hgp _ eq_refl).
Defined.

(** X9 on a planar pose in the right direction. *)
Lemma Altitude_on_planar_pose_witness :
  let x := SE2State_init (affine 1 5%Z) None (IdInt 0) "right" in
  Altitude_evaluate altimeter x = Err IndexError ∧
  Altitude_jacobian altimeter x = Err IndexError.
Proof.
  intros x.
  destruct (Altitude_on_planar_pose altimeter (affine 1 5%Z) affine_group 2
              None (IdInt 0) "right") as [He Hj].
  split; [exact He|exact (Hj eq_refl)].
Defined.

(** X10 on a rotation and on a vector. *)
Lemma position_required_witness :
  let C := SO2State_init (affine 1 0) None (IdInt 0) "right" in
  let v := VectorState_init (Zvec [1; 2]%Z) None (IdInt 0) in
  (RangePoseToAnchor_evaluate beacon C = Err NotImplementedError ∧
   RangePoseToAnchor_jacobian beacon C = Err NotImplementedError ∧
   GlobalPosition_evaluate gps C = Err NotImplementedError ∧
   Altitude_evaluate altimeter C = Err NotImplementedError) ∧
  (RangePoseToAnchor_evaluate beacon v = Err AttributeError ∧
   RangePoseToAnchor_jacobian beacon v = Err AttributeError ∧
   GlobalPosition_evaluate gps v = Err AttributeError ∧
   Altitude_evaluate altimeter v = Err AttributeError).
Proof.
  intros C v. split.
  - destruct (position_required beacon gps altimeter C) as [Hlie _].
    destruct (Hlie SO2State (affine 1 0) affine_group 2 None (IdInt 0) "right"
                eq_refl (or_intror (or_introl eq_refl)))
      as (He & Hj & Hg & Ha).
    split; [exact He|]. split; [exact (Hj eq_refl)|].
    split; [exact Hg|exact Ha].
  - destruct (position_required beacon gps altimeter v) as [_ Hvec].
    exact (Hvec _ _ _ _ eq_refl).
Defined.

(** X11 with a model that reads the value of the sub-state. *)
Lemma CompositeMeasurementModel_addressing_witness :
  let x := CompositeState_init twin_states None IdNone in
  let model id := {| CompositeMeasurementModel_model := direct_model;
                     CompositeMeasurementModel_state_id := id |} in
  Forall (λ x_sub, State_state_id x_sub ≠ IdInt 9) twin_states ∧
  first_match twin_states (IdInt 7) 1
    (VectorState (Zvec [2; 3]%Z) 2 (Some 4%Z) (IdInt 7)) ∧
  (CompositeMeasurementModel_evaluate (model (IdInt 9)) x = Err ValueError ∧
   CompositeMeasurementModel_jacobian (model (IdInt 9)) x = Err ValueError ∧
   CompositeMeasurementModel_covariance (model (IdInt 9)) x
     = Err ValueError) ∧
  (CompositeMeasurementModel_evaluate (model (IdInt 7)) x
     = Ok (Zvec [2; 3]%Z) ∧
   CompositeMeasurementModel_covariance (model (IdInt 7)) x
     = Ok (np_identity 2)).
Proof.
  intros x model.
  assert (Forall (λ x, State_state_id x ≠ IdInt 9) twin_states) as Habs.
  { repeat constructor; discriminate. }
  split; [exact Habs|]. split; [exact twin_first_match|]. split.
  - destruct (CompositeMeasurementModel_addressing (model (IdInt 9))
                twin_states None IdNone) as [Hraise _].
    exact (Hraise Habs).
  - destruct (CompositeMeasurementModel_addressing (model (IdInt 7))
                twin_states None IdNone) as [_ Hfind].
    exact (Hfind _ _ twin_first_match).
Defined.

(** X12 on a planar pose: two rows, the zero column of the attitude first. *)
Lemma GlobalPosition_jacobian_right_witness :
  GlobalPosition_jacobian gps
    (MatrixLieGroupState SE2State (Zmat 3 [[0; -1; 4]; [1; 0; 5]; [0; 0; 1]]%Z)
       affine_group 3 None (IdInt 0) "right")
  = Ok (Some (Zmat 3 [[0; 0; -1]; [0; 1; 0]]%Z)).
Proof.
  exact (GlobalPosition_jacobian_right gps SE2State 2 1 3
           [[0; -1; 4]; [1; 0; 5]; [0; 0; 1]]%Z affine_group 3 None (IdInt 0)
           (or_introl (conj eq_refl (conj eq_refl eq_refl)))
           (le_S _ _ (le_n 2))).
Defined.

(** X13 with the position and the velocity given and the attitude left
    out. *)
Lemma SE23State_jacobian_from_blocks_layout_witness :
  SE23State_jacobian_from_blocks None
    (Some (Zmat 3 [[1; 2; 3]]%Z)) (Some (Zmat 3 [[4; 5; 6]]%Z))
  = Ok (Zmat 9 [[0; 0; 0; 4; 5; 6; 1; 2; 3]]%Z).
Proof.
  destruct (SE23State_jacobian_from_blocks_layout 1 None
              (Some (Zrows [[1; 2; 3]]%Z)) (Some (Zrows [[4; 5; 6]]%Z))
              I eq_refl eq_refl)
    as [Hlay _].
  exact (Hlay (or_intror (or_introl (ex_intro _ _ eq_refl)))).
Defined.

(** X14 with one integrator per sub-state of 1, 2 and 3 degrees of
    freedom and a time step of 2: both matrices are 6 by 6. *)
Lemma CompositeProcessModel_block_diagonal_witness :
  let x := CompositeState_init three_states None IdNone in
  three_states ≠ [] ∧
  ∃ J Q,
    CompositeProcessModel_jacobian three_integrators x three_inputs 2%Z
      = Ok J ∧
    CompositeProcessModel_covariance three_integrators x three_inputs 2%Z
      = Ok Q ∧
    np_shape J = [6; 6] ∧ np_shape Q = [6; 6] ∧
    ∀ i x_sub r c, three_states !! i = Some x_sub →
      r < State_dof x_sub → c < 6 →
      let s := Slice (offset three_states i)
                     (offset three_states i + State_dof x_sub) in
      entry J (start s + r) c =
        (if decide (in_slice s c)
         then entry (Arr2 (State_dof x_sub) (scaled_identity_rows 1 (S i)))
                r (c - start s)
         else Some 0%Z) ∧
      entry Q (start s + r) c =
        (if decide (in_slice s c)
         then entry (Arr2 (State_dof x_sub) (scaled_identity_rows 4 (S i)))
                r (c - start s)
         else Some 0%Z).
Proof.
  intros x.
  assert (three_states ≠ []) as Hne by discriminate.
  split; [exact Hne|].
  apply (CompositeProcessModel_block_diagonal three_integrators three_states
           None IdNone three_inputs 2%Z
           (λ i, scaled_identity_rows 1 (S i))
           (λ i, scaled_identity_rows 4 (S i)) Hne).
  intros [|[|[|i]]] x_sub Hi; [| | |discriminate Hi];
    injection Hi as <-; eexists _, _;
    (split; [reflexivity|]); (split; [reflexivity|]);
    (split; [reflexivity|]); (split; [reflexivity|]);
    (split; [reflexivity|]); (split; [repeat constructor|]);
    (split; [reflexivity|repeat constructor]).
Defined.

(** X15 with two integrators for three sub-states. *)
Lemma CompositeProcessModel_too_few_models_witness :
  let x := CompositeState_init three_states None IdNone in
  length (CompositeProcessModel_model_list two_integrators)
    < length three_states ∧
  getitem_int (sv_value three_inputs) 2 = Ok (Zvec [3]%Z) ∧
  CompositeProcessModel_evaluate two_integrators x three_inputs 2%Z
    = Err IndexError ∧
  CompositeProcessModel_jacobian two_integrators x three_inputs 2%Z
    = Err IndexError ∧
  CompositeProcessModel_covariance two_integrators x three_inputs 2%Z
    = Err IndexError.
Proof.
  intros x.
  assert (length (CompositeProcessModel_model_list two_integrators)
            < length three_states) as Hlt by (simpl; lia).
  split; [exact Hlt|]. split; [reflexivity|].
  apply (CompositeProcessModel_too_few_models two_integrators three_states
           None IdNone three_inputs 2%Z (Zvec [3]%Z) Hlt eq_refl).
  intros [|[|i]] x_sub Hi Hn; [| |simpl in Hn; lia];
    injection Hi as <-; eexists _, _, _, _, _;
    (split; [reflexivity|]); (split; [reflexivity|]);
    (split; [reflexivity|]); (split; reflexivity).
Defined.

(** X16: three entries plus two fail; one entry plus three gives three. *)
Lemma SingleIntegrator_evaluate_lengths_witness :
  let self := {| SingleIntegrator_Q := np_identity 3;
                 SingleIntegrator_dim := 3 |} in
  let σ3 := store_of (VectorState (Zvec [1; 2; 3]%Z) 3 None IdNone) in
  let σ1 := store_of (VectorState (Zvec [7]%Z) 1 None IdNone) in
  let u w := {| sv_value := Zvec w; sv_stamp := None |} in
  SingleIntegrator_evaluate self 0 (u [1; 2]%Z) 2%Z σ3
    = (Err ValueError, σ3) ∧
  SingleIntegrator_evaluate self 0 (u [1; 2; 3]%Z) 2%Z σ1
    = (Ok 0, <[0 := VectorState (Zvec [9; 11; 13]%Z) 1 None IdNone]> σ1).
Proof.
  intros self σ3 σ1 u. split.
  - destruct (SingleIntegrator_evaluate_lengths self σ3 0
                (Zlist [1; 2; 3]%Z) (Zlist [1; 2]%Z)
                3 None IdNone None 2%Z eq_refl) as [Hraise _].
    apply Hraise; simpl; lia.
  - destruct (SingleIntegrator_evaluate_lengths self σ1 0
                (Zlist [7]%Z) (Zlist [1; 2; 3]%Z)
                1 None IdNone None 2%Z eq_refl) as [_ Hone].
    exact (Hone 7%Z eq_refl).
Defined.

(** X17 on a pose perturbed on the left and on a vector. *)
Lemma minus_plus_tangent_witness :
  let dx := Zmat 1 [[1]; [4]]%Z in
  let v := VectorState_init (Zvec [1; 2]%Z) None IdNone in
  (∃ x', plus left_pose dx = Ok x' ∧ minus x' left_pose = Ok dx) ∧
  (∃ v', plus v dx = Ok v' ∧ minus v' v = Ok (Zvec [1; 4]%Z)).
Proof.
  intros dx v. split.
  - apply (minus_plus_tangent left_pose dx).
    + eapply same_lie; [apply affine_laws|by right| |];
        (exists (-1)%Z, 3%Z; split; [lia|reflexivity]).
    + intros w Hw. discriminate Hw.
  - apply (minus_plus_tangent v dx).
    + apply same_vector; [apply Z_scalar_laws|reflexivity].
    + intros w Hw _. injection Hw as <-. reflexivity.
Defined.

(** X18 over the affine group: the twists [0, 2] and [1, 1] over a time
    step of 3, from the poses [x ↦ 3 - x] and [x ↦ x + 5]. *)
Lemma RelativeBodyFrameVelocity_kinematic_consistency_witness :
  let self := {| RelativeBodyFrameVelocity_Q1 := np_identity 2;
                 RelativeBodyFrameVelocity_Q2 := np_identity 2 |} in
  let T12 := affine (-1) (-2) in
  let x := SE2State_init T12 None (IdInt 0) "right" in
  let u := {| sv_value := Zmat 2 [[0; 2]; [1; 1]]%Z; sv_stamp := None |} in
  inverse affine_group (affine (-1) 3) @ affine 1 5 = Ok T12 ∧
  ∃ T1' T2' T12',
    affine (-1) 3 @ affine 1 6 = Ok T1' ∧
    affine 1 5 @ affine (-1) 3 = Ok T2' ∧
    inverse affine_group T1' @ T2' = Ok T12' ∧
    RelativeBodyFrameVelocity_evaluate self 0 u 3%Z (store_of x) =
      (Ok 0, <[0 := SE2State_init T12' None (IdInt 0) "right"]> (store_of x)).
Proof.
  intros self T12 x u. split; [reflexivity|].
  apply (RelativeBodyFrameVelocity_kinematic_consistency self (store_of x) 0
           SE2State T12 affine_group 2 None (IdInt 0) "right"
           is_affine (affine 1 0) (affine (-1) 3) (affine 1 5) 2
           (Zlist [0; 2]%Z) (Zlist [1; 1]%Z) None 3%Z affine_laws).
  - exists (-1)%Z, 3%Z. split; [lia|reflexivity].
  - exists 1%Z, 5%Z. split; [lia|reflexivity].
  - reflexivity.
  - reflexivity.
  - reflexivity.
  - reflexivity.
  - reflexivity.
Defined.

(** X19 on two poses, one perturbed on each side, and a column of four
    rows. *)
Lemma CompositeState_round_trip_columns_witness :
  let x := CompositeState_init pose_pair None IdNone in
  let dx := Zmat 1 [[0]; [3]; [1]; [4]]%Z in
  pose_pair ≠ [] ∧ State_dof x = 4 ∧
  ∃ x', CompositeState_plus x dx None = Ok x' ∧
        CompositeState_minus x' x = Ok dx.
Proof.
  intros x dx.
  assert (pose_pair ≠ []) as Hne by discriminate.
  split; [exact Hne|]. split; [reflexivity|].
  apply (CompositeState_round_trip_columns pose_pair None IdNone
           (Zrows [[0]; [3]; [1]; [4]]%Z) Hne eq_refl).
  intros [|[|i]] x_i s sub Hi Hs Hsub; [| |discriminate Hi];
    injection Hi as <-; injection Hs as <-; injection Hsub as <-;
    eexists; split; reflexivity.
Defined.

(** X20 on two poses: a third sub-state of [self] goes unnoticed, a
    missing one is an [IndexError], and against an empty composite there is
    nothing to stack. *)
Lemma CompositeState_minus_lengths_witness :
  let x := CompositeState_init pose_pair None IdNone in
  let longer := CompositeState_init (pose_pair ++ three_states) None IdNone in
  let shorter := CompositeState_init (take 1 pose_pair) None IdNone in
  let empty := CompositeState_init [] None IdNone in
  CompositeState_minus longer x = CompositeState_minus x x ∧
  CompositeState_minus x x = Ok (Zmat 1 [[0]; [0]; [0]; [0]]%Z) ∧
  CompositeState_minus shorter x = Err IndexError ∧
  CompositeState_minus x empty = Err ValueError.
Proof.
  intros x longer shorter empty.
  split; [|split; [reflexivity|split]].
  - destruct (CompositeState_minus_lengths pose_pair three_states pose_pair
                None IdNone (init_slices pose_pair)
                (init_slices (pose_pair ++ three_states))
                None IdNone (init_slices pose_pair)) as [Hextra _].
    exact (Hextra eq_refl).
  - destruct (CompositeState_minus_lengths (take 1 pose_pair) [] pose_pair
                None IdNone (init_slices (take 1 pose_pair))
                (init_slices (take 1 pose_pair))
                None IdNone (init_slices pose_pair)) as (_ & Hshort & _).
    apply Hshort; [simpl; lia|]. eexists. reflexivity.
  - destruct (CompositeState_minus_lengths pose_pair [] []
                None IdNone (init_slices pose_pair) (init_slices pose_pair)
                None IdNone (init_slices [])) as (_ & _ & Hempty).
    exact (Hempty eq_refl).
Defined.

(** X21 on a planar pose. *)
Lemma position_set_then_get_witness :
  let T := Zmat 3 [[0; -1; 4]; [1; 0; 5]; [0; 0; 1]]%Z in
  let pose value :=
    MatrixLieGroupState SE2State value affine_group 3 None (IdInt 0) "right" in
  ∃ T',
    set_position SE2State T (Zvec [7; 8]%Z) = Ok T' ∧
    position (pose T') = Ok (Zvec [7; 8]%Z) ∧
    attitude (pose T') = attitude (pose T) ∧
    np_shape T' = np_shape T.
Proof.
  intros T pose.
  apply (position_set_then_get SE2State 2 2 3
           (Zrows [[0; -1; 4]; [1; 0; 5]; [0; 0; 1]]%Z) (Zlist [7; 8]%Z)
           affine_group 3 None (IdInt 0) "right" eq_refl).
  - lia.
  - simpl. lia.
  - repeat constructor.
  - reflexivity.
Defined.

(** X22 on an extended pose, and on a planar pose, which has no
    velocity. *)
Lemma velocity_set_then_get_witness :
  let T := Zmat 5 [[1; 0; 0; 7; 4]; [0; 1; 0; 8; 5]; [0; 0; 1; 9; 6];
                   [0; 0; 0; 1; 0]; [0; 0; 0; 0; 1]]%Z in
  let pose cls value :=
    MatrixLieGroupState cls value affine_group 9 None (IdInt 0) "right" in
  (∃ T',
     set_velocity SE23State T (Zvec [1; 2; 3]%Z) = Ok T' ∧
     velocity (pose SE23State T') = Ok (Zvec [1; 2; 3]%Z) ∧
     position (pose SE23State T') = Ok (Zvec [4; 5; 6]%Z) ∧
     attitude (pose SE23State T') = Ok (np_identity 3)) ∧
  velocity (pose SE2State T) = Err NotImplementedError ∧
  set_velocity SE2State T (Zvec [1; 2; 3]%Z) = Err AttributeError.
Proof.
  intros T pose.
  destruct (velocity_set_then_get 5
              (Zrows [[1; 0; 0; 7; 4]; [0; 1; 0; 8; 5]; [0; 0; 1; 9; 6];
                      [0; 0; 0; 1; 0]; [0; 0; 0; 0; 1]]%Z)
              (Zlist [1; 2; 3]%Z) affine_group 9 None (IdInt 0) "right")
    as [Hset Hnone].
  - lia.
  - simpl. lia.
  - repeat constructor.
  - reflexivity.
  - split; [exact Hset|].
    apply (Hnone SE2State T (Zvec [1; 2; 3]%Z)). discriminate.
Defined.

(** X23 on a planar pose. *)
Lemma attitude_set_then_get_witness :
  let T := Zmat 3 [[0; -1; 4]; [1; 0; 5]; [0; 0; 1]]%Z in
  let C := Zmat 2 [[-1; 0]; [0; -1]]%Z in
  let pose value :=
    MatrixLieGroupState SE2State value affine_group 3 None (IdInt 0) "right" in
  ∃ T',
    set_attitude SE2State T C = Ok T' ∧
    attitude (pose T') = Ok C ∧
    position (pose T') = Ok (Zvec [4; 5]%Z) ∧
    np_shape T' = [3; 3].
Proof.
  intros T C pose.
  apply (attitude_set_then_get SE2State 2 2 3
           (Zrows [[0; -1; 4]; [1; 0; 5]; [0; 0; 1]]%Z)
           (Zrows [[-1; 0]; [0; -1]]%Z)
           affine_group 3 None (IdInt 0) "right" eq_refl).
  - lia.
  - simpl. lia.
  - reflexivity.
  - repeat constructor.
Defined.

End more_witnesses.
